(** * FIPE scraper: extraction-orchestration engine

    A shallow embedding of the Python sources

    - [models/fipe_models.py]   (entities, identity, [from_api_response],
                                 [ExtractionResult.merge])
    - [utils/file_handler.py]   ([list_partial_files], [consolidate_partials])
    - [api/endpoints.py]        ([VehicleType])
    - [api/fipe_client.py]      (pacing, outcome classification, retry, the
                                 four lookups)
    - [scrapers/references.py], [scrapers/brands.py], [scrapers/models.py],
      [scrapers/values.py], [scrapers/base_scraper.py] (extractors)
    - [scrapers/orchestrator.py] ([_extract_worker], [_process_batch],
                                 [_dict_to_result], [run])
    - [main.py]                 (validation of the arguments)

    followed by the properties proved about them. *)

From stdpp Require Import base list strings gmap pretty.
From Stdlib Require Import ZArith Lia Ascii SpecFloat.

Local Open Scope string_scope.
Local Open Scope list_scope.
Local Open Scope Z_scope.

(** ** Python preliminaries *)

(** Truthiness of a [str]: only the empty string is falsy. *)
Definition truthy (s : string) : bool :=
  match s with
  | EmptyString => false
  | String _ _ => true
  end.

(** ** models/fipe_models.py *)

(** The dataclasses.  A record stands both for an instance and for the
    dictionary [to_dict] makes of it (one key per field, nested entities
    serialised in place). *)

Module ReferencePeriod.
Record t := mk { period : string; code : Z }.

(** [__hash__] hashes [self.period]; [__eq__] compares the same field. *)
Definition key (p : t) : string := period p.
Definition eq (p q : t) : bool := bool_decide (period p = period q).
End ReferencePeriod.

Module Brand.
Record t := mk {
  name : string;
  code : Z;
  vehicle_type : string;
  initial_period : option string
}.

Definition key (b : t) : string * string := (name b, vehicle_type b).
Definition eq (b c : t) : bool :=
  bool_decide (name b = name c) && bool_decide (vehicle_type b = vehicle_type c).
End Brand.

Module Model.
Record t := mk {
  name : string;
  code : Z;
  fipe_code : string;
  brand : Brand.t;
  vehicle_type : string
}.

Definition key (m : t) : string * string := (fipe_code m, vehicle_type m).
Definition eq (m n : t) : bool :=
  bool_decide (fipe_code m = fipe_code n)
  && bool_decide (vehicle_type m = vehicle_type n).
End Model.

Module YearModel.
Record t := mk {
  description : string;
  year_code : string;
  authentication : string;
  model : Model.t
}.

Definition key (y : t) : string := authentication y.
Definition eq (y z : t) : bool :=
  bool_decide (authentication y = authentication z).
End YearModel.

Module FipeValue.
Record t := mk {
  year_model : YearModel.t;
  average_price : string;
  query_timestamp : string;
  reference_period : string;
  fipe_code : string;
  fuel : string
}.

Definition key (v : t) : string * string :=
  (YearModel.authentication (year_model v), reference_period v).
Definition eq (v w : t) : bool :=
  bool_decide (YearModel.authentication (year_model v)
               = YearModel.authentication (year_model w))
  && bool_decide (reference_period v = reference_period w).
End FipeValue.

(** One deduplicating loop of [ExtractionResult.merge]:
<<
    existing = set(self.xs)
    for x in other.xs:
        if x not in existing:
            self.xs.append(x)
            existing.add(x)
>>
    A Python set of entities is a set of identity keys, since [__hash__]
    and [__eq__] of every entity are functions of its key. *)
Section merge_loop.
Context {A K : Type} `{Countable K} (key : A → K).

Fixpoint merge_loop (other self : list A) (existing : gset K)
    : list A * gset K :=
  match other with
  | [] => (self, existing)
  | x :: rest =>
      if decide (key x ∈ existing)
      then merge_loop rest self existing
      else merge_loop rest (self ++ [x]) ({[key x]} ∪ existing)
  end.

Definition existing_of (self : list A) : gset K := list_to_set (key <$> self).

Definition merge_list (self other : list A) : list A :=
  (merge_loop other self (existing_of self)).1.

(** The same loop when [other is self]: the iterator walks the very list
    the loop appends to, so it is driven by an index into the live list.
    [fuel] bounds the number of iterations. *)
Fixpoint merge_loop_live (fuel i : nat) (self : list A) (existing : gset K)
    : option (list A * gset K) :=
  match fuel with
  | O => None
  | S fuel' =>
      match self !! i with
      | None => Some (self, existing)
      | Some x =>
          if decide (key x ∈ existing)
          then merge_loop_live fuel' (S i) self existing
          else merge_loop_live fuel' (S i) (self ++ [x]) ({[key x]} ∪ existing)
      end
  end.

Definition merge_list_live (fuel : nat) (self : list A) : option (list A) :=
  fst <$> merge_loop_live fuel 0 self (existing_of self).
End merge_loop.

Module ExtractionResult.
Record t := mk {
  reference_periods : list ReferencePeriod.t;
  brands : list Brand.t;
  models : list Model.t;
  year_models : list YearModel.t;
  fipe_values : list FipeValue.t
}.

Definition empty : t := mk [] [] [] [] [].

(** [self.merge(other)] for two distinct objects; the result is the new
    state of [self]. *)
Definition merge (self other : t) : t :=
  mk (merge_list ReferencePeriod.key (reference_periods self) (reference_periods other))
     (merge_list Brand.key (brands self) (brands other))
     (merge_list Model.key (models self) (models other))
     (merge_list YearModel.key (year_models self) (year_models other))
     (merge_list FipeValue.key (fipe_values self) (fipe_values other)).

(** [self.merge(self)]: every [other.xs] is the list being appended to. *)
Definition merge_self (fuel : nat) (self : t) : option t :=
  ps ← merge_list_live ReferencePeriod.key fuel (reference_periods self);
  bs ← merge_list_live Brand.key fuel (brands self);
  ms ← merge_list_live Model.key fuel (models self);
  ys ← merge_list_live YearModel.key fuel (year_models self);
  vs ← merge_list_live FipeValue.key fuel (fipe_values self);
  Some (mk ps bs ms ys vs).

(** The identity keys held per kind. *)
Definition period_keys (r : t) : gset string :=
  existing_of ReferencePeriod.key (reference_periods r).
Definition brand_keys (r : t) : gset (string * string) :=
  existing_of Brand.key (brands r).
Definition model_keys (r : t) : gset (string * string) :=
  existing_of Model.key (models r).
Definition year_keys (r : t) : gset string :=
  existing_of YearModel.key (year_models r).
Definition value_keys (r : t) : gset (string * string) :=
  existing_of FipeValue.key (fipe_values r).
End ExtractionResult.

(** ** utils/file_handler.py *)

Module FileHandler.

(** What [json.load] yields for a file of the partial directory.  The
    entity arrays hold dictionaries in [to_dict] form.  The files are
    text in UTF-8 that is either malformed JSON or one of the two
    objects below; on a file that is not UTF-8, or whose JSON is not an
    object, the code raises another exception than the one it catches,
    and such a file is no [document]. *)
Inductive document :=
  | Undecodable
      (* json.load raises JSONDecodeError *)
  | Arrays (data : ExtractionResult.t)
      (* {"reference_periods": [...], "brands": [...], ...} *)
  | Batch (batch : Z) (data : ExtractionResult.t).
      (* {"batch": n, "data": {...}}, as Orchestrator.run saves it *)

(** The partial directory: [None] when it does not exist, otherwise its
    entries in the order in which the operating system enumerates them,
    which is the order [Path.glob] yields. *)
Definition directory := option (list (string * document)).

(** [fnmatch] of a name against ["*.json"]. *)
Definition is_json (name : string) : bool :=
  let n := String.length name in
  (5 <=? n)%nat && String.eqb (String.substring (n - 5)%nat 5%nat name) ".json".

(** [list(partial_dir.glob("*.json"))] *)
Definition list_partial_files (dir : directory) : list (string * document) :=
  match dir with
  | None => []
  | Some entries => filter (λ e, is_json e.1 = true) entries
  end.

(** [data.get(k, [])] for the five array keys of the document. *)
Definition get_arrays (doc : document) : option ExtractionResult.t :=
  match doc with
  | Undecodable => None
  | Arrays data => Some data
  | Batch _ _ => Some ExtractionResult.empty
  end.

(** Keys of the five [seen_*] sets.  [key[0]] is the component the guard
    [if key[0] and key not in seen] tests for truthiness. *)
Definition period_key (p : ReferencePeriod.t) : string :=
  ReferencePeriod.period p.
Definition brand_key (b : Brand.t) : string * string :=
  (Brand.name b, Brand.vehicle_type b).
Definition model_key (m : Model.t) : string * string :=
  (Model.fipe_code m, Model.vehicle_type m).
Definition year_key (y : YearModel.t) : string * string :=
  (YearModel.authentication y, Model.fipe_code (YearModel.model y)).
Definition value_key (v : FipeValue.t) : string * string :=
  (YearModel.authentication (FipeValue.year_model v), FipeValue.reference_period v).

Section consolidate_loop.
Context {A K : Type} `{Countable K} (key : A → K) (key0 : A → string).

(** One inner loop:
<<
    for x in data.get(k, []):
        x_key = ...
        if x_key[0] and x_key not in seen:
            seen.add(x_key)
            consolidated[k].append(x)
>> *)
Fixpoint consolidate_loop (items acc : list A) (seen : gset K)
    : list A * gset K :=
  match items with
  | [] => (acc, seen)
  | x :: rest =>
      if truthy (key0 x) && bool_decide (key x ∉ seen)
      then consolidate_loop rest (acc ++ [x]) ({[key x]} ∪ seen)
      else consolidate_loop rest acc seen
  end.
End consolidate_loop.

(** The accumulators of [consolidate_partials]. *)
Record accumulator := mk_acc {
  consolidated : ExtractionResult.t;
  seen_periods : gset string;
  seen_brands : gset (string * string);
  seen_models : gset (string * string);
  seen_year_models : gset (string * string);
  seen_fipe_values : gset (string * string)
}.

Definition start : accumulator :=
  mk_acc ExtractionResult.empty ∅ ∅ ∅ ∅ ∅.

(** The body of [for partial_file in partial_files]. *)
Definition consolidate_file (acc : accumulator) (doc : document) : accumulator :=
  match get_arrays doc with
  | None => acc
  | Some data =>
      let c := consolidated acc in
      let '(ps, sp) := consolidate_loop period_key period_key
          (ExtractionResult.reference_periods data)
          (ExtractionResult.reference_periods c) (seen_periods acc) in
      let '(bs, sb) := consolidate_loop brand_key Brand.name
          (ExtractionResult.brands data)
          (ExtractionResult.brands c) (seen_brands acc) in
      let '(ms, sm) := consolidate_loop model_key Model.fipe_code
          (ExtractionResult.models data)
          (ExtractionResult.models c) (seen_models acc) in
      let '(ys, sy) := consolidate_loop year_key YearModel.authentication
          (ExtractionResult.year_models data)
          (ExtractionResult.year_models c) (seen_year_models acc) in
      let '(vs, sv) := consolidate_loop value_key
          (λ v, YearModel.authentication (FipeValue.year_model v))
          (ExtractionResult.fipe_values data)
          (ExtractionResult.fipe_values c) (seen_fipe_values acc) in
      mk_acc (ExtractionResult.mk ps bs ms ys vs) sp sb sm sy sv
  end.

(** [list.sort(key=...)]: a stable sort.  [before k1 k2] says that key
    [k1] sorts strictly before [k2]. *)
Section sort.
Context {A K : Type} (key : A → K) (before : K → K → bool).

Fixpoint insert_sorted (x : A) (l : list A) : list A :=
  match l with
  | [] => [x]
  | y :: l' =>
      if before (key y) (key x) then y :: insert_sorted x l' else x :: l
  end.

Definition sort_by (l : list A) : list A := foldr insert_sorted [] l.
End sort.

(** Python compares [str] by code points, which is the byte order of the
    UTF-8 encoding, and tuples lexicographically. *)
Definition str_lt (a b : string) : bool := String.ltb a b.
Definition pair_lt (a b : string * string) : bool :=
  str_lt a.1 b.1 || (String.eqb a.1 b.1 && str_lt a.2 b.2).
Definition triple_lt (a b : string * string * string) : bool :=
  pair_lt a.1 b.1
  || (String.eqb a.1.1 b.1.1 && String.eqb a.1.2 b.1.2 && str_lt a.2 b.2).

Definition sort_periods : list ReferencePeriod.t → list ReferencePeriod.t :=
  sort_by ReferencePeriod.period (λ a b, str_lt b a).     (* reverse=True *)
Definition sort_brands : list Brand.t → list Brand.t :=
  sort_by (λ x, (Brand.vehicle_type x, Brand.name x)) pair_lt.
Definition sort_models : list Model.t → list Model.t :=
  sort_by (λ x, (Model.vehicle_type x, Brand.name (Model.brand x), Model.name x))
          triple_lt.

Definition sort_consolidated (c : ExtractionResult.t) : ExtractionResult.t :=
  ExtractionResult.mk
    (sort_periods (ExtractionResult.reference_periods c))
    (sort_brands (ExtractionResult.brands c))
    (sort_models (ExtractionResult.models c))
    (ExtractionResult.year_models c)
    (ExtractionResult.fipe_values c).

(** [consolidate_partials]: the document written to the final output
    file, or [None] when there is no partial file and nothing is
    written. *)
Definition consolidate_partials (dir : directory) : option ExtractionResult.t :=
  match list_partial_files dir with
  | [] => None
  | partial_files =>
      Some (sort_consolidated
              (consolidated (foldl consolidate_file start (snd <$> partial_files))))
  end.

End FileHandler.

(** ** Python values used by the client and the extractors

    A [str] is modelled by the [string] of its UTF-8 bytes.  [lower],
    [strip] and [int] below are those of Python on text made of ASCII
    characters and of Latin-1 lower-case letters ([plain] in the
    vocabulary); on other text [str.lower] also lowers letters outside
    A-Z, [str.strip] also removes blanks outside ASCII and [int] also
    reads digits outside 0-9, which these do not. *)

Module Py.

Definition is_upper (c : ascii) : bool :=
  let n := Ascii.N_of_ascii c in ((65 <=? n) && (n <=? 90))%N.

Definition lower_char (c : ascii) : ascii :=
  if is_upper c then Ascii.ascii_of_N (Ascii.N_of_ascii c + 32) else c.

(** [s.lower()] *)
Fixpoint lower (s : string) : string :=
  match s with
  | EmptyString => EmptyString
  | String c rest => String (lower_char c) (lower rest)
  end.

(** [needle in hay] for two strings. *)
Fixpoint contains (needle hay : string) : bool :=
  String.prefix needle hay
  || match hay with
     | EmptyString => false
     | String _ rest => contains needle rest
     end.

Definition is_space (c : ascii) : bool :=
  let n := Ascii.N_of_ascii c in
  ((n =? 32) || ((9 <=? n) && (n <=? 13)) || ((28 <=? n) && (n <=? 31)))%N.

Fixpoint lstrip (s : string) : string :=
  match s with
  | EmptyString => EmptyString
  | String c rest => if is_space c then lstrip rest else s
  end.

(** [s.strip()] *)
Definition strip (s : string) : string :=
  String.rev (lstrip (String.rev (lstrip s))).

(** [s.split(sep)] for a one-character separator. *)
Fixpoint split (sep : ascii) (s : string) : list string :=
  match s with
  | EmptyString => [EmptyString]
  | String c rest =>
      if Ascii.eqb c sep then EmptyString :: split sep rest
      else match split sep rest with
           | [] => [String c EmptyString]
           | part :: parts => String c part :: parts
           end
  end.

Definition digit (c : ascii) : option Z :=
  let n := Ascii.N_of_ascii c in
  if ((48 <=? n) && (n <=? 57))%N then Some (Z.of_N n - 48) else None.

(** Decimal digits, single underscores allowed between digits. *)
Fixpoint digits (acc : Z) (after_digit : bool) (s : string) : option Z :=
  match s with
  | EmptyString => if after_digit then Some acc else None
  | String c rest =>
      match digit c with
      | Some d => digits (10 * acc + d) true rest
      | None =>
          if Ascii.eqb c "_" && after_digit
          then match rest with
               | EmptyString => None
               | String c' _ =>
                   if Ascii.eqb c' "_" then None else digits acc false rest
               end
          else None
      end
  end.

(** The blanks [int] skips at both ends of the literal: those of C's
    [isspace], which leave out the separators 28 to 31 that [strip]
    removes. *)
Definition is_blank (c : ascii) : bool :=
  let n := Ascii.N_of_ascii c in
  ((n =? 32) || ((9 <=? n) && (n <=? 13)))%N.

Fixpoint lskip (s : string) : string :=
  match s with
  | EmptyString => EmptyString
  | String c rest => if is_blank c then lskip rest else s
  end.

(** [int(s)] for a string; [None] stands for [ValueError]. *)
Definition int (s : string) : option Z :=
  match String.rev (lskip (String.rev (lskip s))) with
  | String "+" rest => digits 0 false rest
  | String "-" rest => Z.opp <$> digits 0 false rest
  | t => digits 0 false t
  end.

(** The exceptions that occur. *)
Inductive exn :=
  | FipeRateLimitError (msg : string)
  | FipeRequestError (msg : string)
  | Timeout                              (* requests.exceptions.Timeout *)
  | ConnectionError (msg : string)       (* requests.exceptions.ConnectionError *)
  | RetryError (last_attempt : exn)      (* tenacity.RetryError *)
  | ValueError (msg : string)
  | AttributeError (msg : string)
  | OtherError (msg : string).

Inductive level := DEBUG | INFO | WARNING | ERROR.

(** A log record: level, logger name, what is reported, and the exception
    the message formats, if any. *)
Record log_record := Log {
  levelname : level;
  logger : string;
  message : string;
  exc : option exn
}.

(** The JSON bodies of the remote service: an object with string
    members, an array of such objects, the models envelope
    [{"Modelos": [...], "Anos": [...]}], or an object whose ["erro"]
    member is not a string but null, a number, a list or an object,
    given by the name of its Python type ([NoneType], [int], ...),
    beside its string members. *)
Definition object := gmap string string.

Inductive json :=
  | Object (members : object)
  | Array (items : list object)
  | Envelope (modelos anos : list object)
  | ErroObject (erro_type : string) (members : object).

End Py.

(** ** utils/config.py *)

Module Config.
(** The settings the engine reads.  Durations are exact numbers of clock
    ticks. *)
Record t := mk {
  MAX_RETRIES : Z;
  INITIAL_BACKOFF : Z;
  MAX_BACKOFF : Z;
  BACKOFF_MULTIPLIER : Z;
  DELAY_BETWEEN_REQUESTS : Z;
  MAX_WORKERS : Z
}.

(** The defaults, in milliseconds. *)
Definition defaults : t := mk 5 1000 60000 2000 500 4.
End Config.

(** ** Computations that may raise *)

Inductive outcome (A : Type) :=
  | Return (a : A)
  | Raise (e : Py.exn).
Arguments Return {A} a.
Arguments Raise {A} e.

Definition action (S A : Type) : Type := S → outcome A * S.

Definition ret {S A} (a : A) : action S A := λ s, (Return a, s).
Definition raise {S A} (e : Py.exn) : action S A := λ s, (Raise e, s).
Definition bind {S A B} (m : action S A) (k : A → action S B) : action S B :=
  λ s, match m s with
       | (Return a, s') => k a s'
       | (Raise e, s') => (Raise e, s')
       end.
(** [try: m  except Exception as e: h e] *)
Definition try_except {S A} (m : action S A) (h : Py.exn → action S A)
    : action S A :=
  λ s, match m s with
       | (Return a, s') => (Return a, s')
       | (Raise e, s') => h e s'
       end.
(** [try: m  finally: f] for a finaliser that does not raise. *)
Definition try_finally {S A} (m : action S A) (f : S → S) : action S A :=
  λ s, let '(r, s') := m s in (r, f s').
Definition modify {S} (f : S → S) : action S unit := λ s, (Return tt, f s).
Definition gets {S A} (f : S → A) : action S A := λ s, (Return (f s), s).

Notation "x <~ m ;; k" := (bind m (λ x, k))
  (at level 100, m at next level, right associativity).
Notation "m ;;; k" := (bind m (λ _, k))
  (at level 100, right associativity).

(** ** api/fipe_client.py *)

Module FipeClient.

Record response := mk_response {
  status_code : Z;
  text : string;
  json : option Py.json       (* [None]: response.json() raises ValueError *)
}.

Inductive posted :=
  | Responds (r : response)
  | Fails (e : Py.exn).

Inductive py := PInt (n : Z) | PStr (s : string).

Record request := mk_request {
  endpoint : string;
  payload : list (string * py)
}.

(** Everything outside the process: what the [n]-th call of
    [self._session.post] does with the request it is given, how much time
    passes at the [n]-th point of the run where time can pass, and how
    the clock reads as an ISO timestamp. *)
Record remote := mk_remote {
  post : nat → request → posted;
  lag : nat → nat;
  isoformat : Z → string
}.

(** A client instance together with the clock it runs against. *)
Record t := mk {
  clock : Z;
  steps : nat;
  invocations : nat;            (* calls of self._session.post so far *)
  dispatched : list Z;          (* the clock at each of them, latest first *)
  _last_request_time : Z;
  log : list Py.log_record      (* latest first *)
}.

(** [FipeClient()] at clock reading [now]. *)
Definition init (now : Z) : t := mk now 0 0 [] 0 [].

Section client.
Context (cfg : Config.t) (env : remote).

Definition tick (c : t) : t :=
  mk (clock c + Z.of_nat (lag env (steps c))) (S (steps c))
     (invocations c) (dispatched c) (_last_request_time c) (log c).

(** [time.time()] *)
Definition time_time (c : t) : Z * t :=
  let c' := tick c in (clock c', c').

(** [time.sleep(seconds)]: returns no earlier than [seconds] later. *)
Definition time_sleep (seconds : Z) (c : t) : t :=
  tick (mk (clock c + seconds) (steps c) (invocations c) (dispatched c)
           (_last_request_time c) (log c)).

Definition set_last_request_time (now : Z) (c : t) : t :=
  mk (clock c) (steps c) (invocations c) (dispatched c) now (log c).

Definition emit (r : Py.log_record) (c : t) : t :=
  mk (clock c) (steps c) (invocations c) (dispatched c)
     (_last_request_time c) (r :: log c).

(** [_wait_for_rate_limit], on a clock of exact numbers that does not
    run backwards; [FloatClock] has its arithmetic on floats. *)
Definition _wait_for_rate_limit (c : t) : t :=
  let '(now, c1) := time_time c in
  let elapsed := now - _last_request_time c1 in
  let c2 :=
    if elapsed <? Config.DELAY_BETWEEN_REQUESTS cfg
    then time_sleep (Config.DELAY_BETWEEN_REQUESTS cfg - elapsed) c1
    else c1 in
  let '(now', c3) := time_time c2 in
  set_last_request_time now' c3.

(** [self._session.post(url, json=payload, timeout=self.timeout)] *)
Definition session_post (rq : request) (c : t) : posted * t :=
  let c1 := tick c in
  let r := post env (invocations c1) rq in
  (r, tick (mk (clock c1) (steps c1) (S (invocations c1))
               (clock c1 :: dispatched c1) (_last_request_time c1) (log c1))).

Definition warn (msg : string) (e : option Py.exn) : Py.log_record :=
  Py.Log Py.WARNING "fipe_client" msg e.
Definition error (msg : string) (e : option Py.exn) : Py.log_record :=
  Py.Log Py.ERROR "fipe_client" msg e.

(** [text[:n]]: the first [n] characters.  A byte 10xxxxxx continues
    the character before it. *)
Definition is_continuation (c : ascii) : bool :=
  let n := Ascii.N_of_ascii c in ((128 <=? n) && (n <? 192))%N.

Fixpoint take_chars (n : nat) (s : string) : string :=
  match s with
  | EmptyString => EmptyString
  | String c rest =>
      if is_continuation c then String c (take_chars n rest)
      else match n with
           | O => EmptyString
           | S n' => String c (take_chars n' rest)
           end
  end.

(** [text[:200]] *)
Definition first200 (s : string) : string := take_chars 200 s.

(** The body of [_make_request] after the POST has returned [r]: the
    result or the exception raised, and the records logged. *)
Definition classify (r : response) : outcome Py.json * list Py.log_record :=
  if status_code r =? 429 then
    (Raise (Py.FipeRateLimitError "Rate limit atingido"),
     [warn "Rate limit atingido no endpoint" None])
  else if negb (status_code r =? 200) then
    let logged := [error ("Erro HTTP " +:+ pretty (status_code r)) None] in
    if 500 <=? status_code r then
      (Raise (Py.FipeRateLimitError
                ("Erro de servidor: " +:+ pretty (status_code r))), logged)
    else
      (Raise (Py.FipeRequestError
                ("Erro HTTP " +:+ pretty (status_code r) +:+ ": "
                 +:+ first200 (text r))), logged)
  else
    match json r with
    | None =>
        (Raise (Py.FipeRequestError ("Resposta inválida: " +:+ first200 (text r))),
         [error "Erro ao parsear JSON do endpoint" None])
    | Some data =>
        match data with
        | Py.Object members =>
            match members !! "erro" with
            | Some error_msg =>
                let logged := [warn ("Erro na API FIPE: " +:+ error_msg) None] in
                if Py.contains "timeout" (Py.lower error_msg)
                   || Py.contains "blocked" (Py.lower error_msg)
                then (Raise (Py.FipeRateLimitError error_msg), logged)
                else (Raise (Py.FipeRequestError error_msg), logged)
            | None => (Return data, [])
            end
        | Py.ErroObject erro_type _ =>
            (* error_msg.lower() on a value that is not a str *)
            (Raise (Py.AttributeError
                      ("'" +:+ erro_type +:+ "' object has no attribute 'lower'")),
             [warn "Erro na API FIPE" None])
        | _ => (Return data, [])
        end
    end.

(** One run of the undecorated body of [_make_request]. *)
Definition attempt (rq : request) : action t Py.json :=
  λ c,
    let c1 := _wait_for_rate_limit c in
    let '(r, c2) := session_post rq c1 in
    match r with
    | Fails Py.Timeout =>
        (Raise Py.Timeout, emit (warn "Timeout na requisição" None) c2)
    | Fails (Py.ConnectionError m) =>
        (Raise (Py.ConnectionError m),
         emit (warn "Erro de conexão" (Some (Py.ConnectionError m))) c2)
    | Fails e => (Raise e, c2)
    | Responds resp =>
        let '(res, logged) := classify resp in
        (res, foldr emit c2 logged)
    end.

(** [retry_if_exception_type((FipeRateLimitError, ConnectionError, Timeout))] *)
Definition retryable (e : Py.exn) : bool :=
  match e with
  | Py.FipeRateLimitError _ | Py.ConnectionError _ | Py.Timeout => true
  | _ => false
  end.

(** [wait_exponential(multiplier, min, max)] after attempt number
    [attempt_number]. *)
Definition wait_exponential (attempt_number : nat) : Z :=
  Z.max (Z.max 0 (Config.INITIAL_BACKOFF cfg))
        (Z.min (Config.BACKOFF_MULTIPLIER cfg * 2 ^ (Z.of_nat attempt_number - 1))
               (Config.MAX_BACKOFF cfg)).

(** The loop of the [@retry] decorator around [fn].  After attempt
    number [k] has raised a retryable exception,
    [stop_after_attempt(MAX_RETRIES)] stops when [k >= MAX_RETRIES];
    [further] is the number [MAX_RETRIES - k] of attempts that may
    still follow, cut off at zero.  No [reraise] is given, so stopping
    raises [RetryError] around the last exception; a result, or an
    exception that is not retryable, leaves the loop as it is. *)
Fixpoint retrying {A} (fn : action t A) (further attempt_number : nat)
    : action t A :=
  λ c,
    match fn c with
    | (Return a, c') => (Return a, c')
    | (Raise e, c') =>
        if retryable e then
          match further with
          | O => (Raise (Py.RetryError e), c')
          | S further' =>
              let seconds := wait_exponential attempt_number in
              let c'' :=
                emit (Py.Log Py.INFO "fipe_client" "Retrying" (Some e)) c' in
              retrying fn further' (S attempt_number) (time_sleep seconds c'')
          end
        else (Raise e, c')
    end.

Definition further_attempts : nat := Z.to_nat (Config.MAX_RETRIES cfg - 1).

Definition _make_request (endpoint : string) (payload : list (string * py))
    : action t Py.json :=
  retrying (attempt (mk_request endpoint payload)) further_attempts 1.

Definition get_brands (reference_table_code vehicle_type : Z)
    : action t Py.json :=
  λ c,
    _make_request "ConsultarMarcas"
      [("codigoTabelaReferencia", PInt reference_table_code);
       ("codigoTipoVeiculo", PInt vehicle_type)]
      (emit (Py.Log Py.DEBUG "fipe_client" "Consultando marcas" None) c).

Definition get_models (reference_table_code vehicle_type brand_code : Z)
    : action t Py.json :=
  _make_request "ConsultarModelos"
    [("codigoTabelaReferencia", PInt reference_table_code);
     ("codigoTipoVeiculo", PInt vehicle_type);
     ("codigoMarca", PInt brand_code)].

Definition get_year_models
    (reference_table_code vehicle_type brand_code model_code : Z)
    : action t Py.json :=
  _make_request "ConsultarAnoModelo"
    [("codigoTabelaReferencia", PInt reference_table_code);
     ("codigoTipoVeiculo", PInt vehicle_type);
     ("codigoMarca", PInt brand_code);
     ("codigoModelo", PInt model_code)].

Definition get_fipe_value
    (reference_table_code vehicle_type brand_code model_code : Z)
    (year_model : string) : action t Py.json :=
  let year_parts := Py.split "-" year_model in
  let ano_modelo := default EmptyString (head year_parts) in
  match
    match year_parts with
    | _ :: part :: _ => Py.int part
    | _ => Some 1
    end
  with
  | None => raise (Py.ValueError "invalid literal for int()")
  | Some tipo_combustivel =>
      _make_request "ConsultarValorComTodosParametros"
        [("codigoTabelaReferencia", PInt reference_table_code);
         ("codigoTipoVeiculo", PInt vehicle_type);
         ("codigoMarca", PInt brand_code);
         ("codigoModelo", PInt model_code);
         ("anoModelo", PStr ano_modelo);
         ("codigoTipoCombustivel", PInt tipo_combustivel);
         ("tipoConsulta", PStr "tradicional")]
  end.

(** [close()] logs at DEBUG level. *)
Definition close (c : t) : t :=
  emit (Py.Log Py.DEBUG "fipe_client" "Sessão HTTP fechada" None) c.
End client.

End FipeClient.

(** ** api/fipe_client.py: the pacing arithmetic on floats

    [time.time()] returns a binary64 float, and [_wait_for_rate_limit]
    computes with such floats where [FipeClient._wait_for_rate_limit]
    computes with exact numbers.  The arithmetic of its first lines
    over binary64, rounding to nearest as Python does. *)

Module FloatClock.
Definition binary64 (mantissa : positive) (exponent : Z) : spec_float :=
  S754_finite false mantissa exponent.

Definition add : spec_float → spec_float → spec_float := SFadd 53 1024.
Definition sub : spec_float → spec_float → spec_float := SFsub 53 1024.

(** [elapsed = time.time() - self._last_request_time], and the
    [sleep_time = self.delay - elapsed] asked of [time.sleep] when
    [elapsed < self.delay]. *)
Definition sleep_time (delay _last_request_time now : spec_float)
    : option spec_float :=
  let elapsed := sub now _last_request_time in
  if SFltb elapsed delay then Some (sub delay elapsed) else None.
End FloatClock.

(** [for x in xs: body x] *)
Fixpoint for_each {S A} (xs : list A) (body : A → action S unit) : action S unit :=
  match xs with
  | [] => ret tt
  | x :: rest => body x ;;; for_each rest body
  end.

(** ** api/endpoints.py *)

Module VehicleType.
Definition CAR : Z := 1.
Definition BIKE : Z := 2.
Definition TRUCK : Z := 3.

(** [None] stands for the [ValueError] of an invalid vehicle type. *)
Definition from_string (vehicle_type : string) : option Z :=
  let normalized := Py.strip (Py.lower vehicle_type) in
  if String.eqb normalized "car" || String.eqb normalized "carro" then Some CAR
  else if String.eqb normalized "bike" || String.eqb normalized "moto" then Some BIKE
  else if String.eqb normalized "truck" || String.eqb normalized "caminhao"
          || String.eqb normalized "caminhão" then Some TRUCK
  else None.

(** [mapping.get(vehicle_code, "unknown")] *)
Definition to_string (vehicle_code : Z) : string :=
  if vehicle_code =? CAR then "car"
  else if vehicle_code =? BIKE then "bike"
  else if vehicle_code =? TRUCK then "truck"
  else "unknown".

Definition all_types : list Z := [CAR; BIKE; TRUCK].
End VehicleType.

(** ** Reading the bodies of the remote service *)

Module Body.
(** What a [for item in ...] loop over a body or a member meets. *)
Inductive item :=
  | Dict (o : Py.object)
  | Str (s : string).

Definition no_get (type : string) : Py.exn :=
  Py.AttributeError ("'" +:+ type +:+ "' object has no attribute 'get'").

(** [response.get(key, "")] for a member that holds a string. *)
Definition get_str (response : Py.json) (key : string) : outcome string :=
  match response with
  | Py.Object members | Py.ErroObject _ members =>
      Return (default EmptyString (members !! key))
  | Py.Envelope _ _ => Return EmptyString
  | Py.Array _ => Raise (no_get "list")
  end.

Fixpoint chars (s : string) : list item :=
  match s with
  | EmptyString => []
  | String c rest => Str (String c EmptyString) :: chars rest
  end.

(** The items [for item in response.get("Modelos", [])] runs over. *)
Definition get_modelos (response : Py.json) : outcome (list item) :=
  match response with
  | Py.Envelope modelos _ => Return (Dict <$> modelos)
  | Py.Object members | Py.ErroObject _ members =>
      Return (chars (default EmptyString (members !! "Modelos")))
  | Py.Array _ => Raise (no_get "list")
  end.

(** The items [for item in raw_years] runs over: the elements of a list,
    the keys of a dictionary. *)
Definition iterate (raw : Py.json) : list item :=
  match raw with
  | Py.Array items => Dict <$> items
  | Py.Object members => Str <$> (map_to_list members).*1
  | Py.ErroObject _ members => Str <$> ("erro" :: (map_to_list members).*1)
  | Py.Envelope _ _ => [Str "Modelos"; Str "Anos"]
  end.
End Body.

(** ** The objects of one worker process

    [Model] and [YearModel] instances are mutated after they have been
    shared, so they live in a store and are referred to by address; a
    [Brand] is never mutated and is held by value. *)

Module YearModelObj.
Record t := mk {
  description : string;
  year_code : string;
  authentication : string;
  model : nat               (* address of the owning Model *)
}.
End YearModelObj.

Module FipeValueObj.
Record t := mk {
  year_model : nat;         (* address of the YearModel *)
  average_price : string;
  query_timestamp : string;
  reference_period : string;
  fipe_code : string;
  fuel : string
}.
End FipeValueObj.

Module Process.
(** The [ExtractionResult] a worker fills. *)
Record result := mk_result {
  brands : list Brand.t;
  models : list nat;
  year_models : list nat;
  fipe_values : list FipeValueObj.t
}.

Record t := mk {
  client : FipeClient.t;
  model_store : list Model.t;
  year_store : list YearModelObj.t;
  res : result
}.

Definition with_client {A} (m : action FipeClient.t A) : action t A :=
  λ p, let '(r, c) := m (client p) in
       (r, mk c (model_store p) (year_store p) (res p)).

Definition emit (r : Py.log_record) : action t unit :=
  modify (λ p, mk (FipeClient.emit r (client p)) (model_store p) (year_store p) (res p)).

Definition unbound : Py.exn := Py.OtherError "no object at this address".

Definition new_model (m : Model.t) : action t nat :=
  λ p, (Return (length (model_store p)),
        mk (client p) (model_store p ++ [m]) (year_store p) (res p)).

Definition new_year_model (y : YearModelObj.t) : action t nat :=
  λ p, (Return (length (year_store p)),
        mk (client p) (model_store p) (year_store p ++ [y]) (res p)).

Definition get_model (a : nat) : action t Model.t :=
  λ p, match model_store p !! a with
       | Some m => (Return m, p)
       | None => (Raise unbound, p)
       end.

Definition get_year_model (a : nat) : action t YearModelObj.t :=
  λ p, match year_store p !! a with
       | Some y => (Return y, p)
       | None => (Raise unbound, p)
       end.

(** [model.fipe_code = fipe_code] for the object at address [a]. *)
Definition set_fipe_code (a : nat) (fipe_code : string) : action t unit :=
  modify (λ p,
    mk (client p)
       (alter (λ m, Model.mk (Model.name m) (Model.code m) fipe_code
                             (Model.brand m) (Model.vehicle_type m)) a
              (model_store p))
       (year_store p) (res p)).

(** [year_model.authentication = authentication] *)
Definition set_authentication (a : nat) (authentication : string) : action t unit :=
  modify (λ p,
    mk (client p) (model_store p)
       (alter (λ y, YearModelObj.mk (YearModelObj.description y)
                                    (YearModelObj.year_code y) authentication
                                    (YearModelObj.model y)) a
              (year_store p))
       (res p)).

Definition set_res (f : result → result) : action t unit :=
  modify (λ p, mk (client p) (model_store p) (year_store p) (f (res p))).

Definition append_brand (b : Brand.t) : action t unit :=
  set_res (λ r, mk_result (brands r ++ [b]) (models r) (year_models r) (fipe_values r)).
Definition append_model (a : nat) : action t unit :=
  set_res (λ r, mk_result (brands r) (models r ++ [a]) (year_models r) (fipe_values r)).
Definition append_year_model (a : nat) : action t unit :=
  set_res (λ r, mk_result (brands r) (models r) (year_models r ++ [a]) (fipe_values r)).
Definition append_fipe_value (v : FipeValueObj.t) : action t unit :=
  set_res (λ r, mk_result (brands r) (models r) (year_models r) (fipe_values r ++ [v])).

(** [to_dict]: addresses are followed through the store as it is when the
    result is serialised. *)
Definition no_brand : Brand.t := Brand.mk "" 0 "" None.
Definition no_model : Model.t := Model.mk "" 0 "" no_brand "".

Definition model_to_dict (p : t) (a : nat) : Model.t :=
  default no_model (model_store p !! a).

Definition year_model_to_dict (p : t) (a : nat) : YearModel.t :=
  match year_store p !! a with
  | Some y =>
      YearModel.mk (YearModelObj.description y) (YearModelObj.year_code y)
                   (YearModelObj.authentication y)
                   (model_to_dict p (YearModelObj.model y))
  | None => YearModel.mk "" "" "" no_model
  end.

Definition fipe_value_to_dict (p : t) (v : FipeValueObj.t) : FipeValue.t :=
  FipeValue.mk (year_model_to_dict p (FipeValueObj.year_model v))
               (FipeValueObj.average_price v) (FipeValueObj.query_timestamp v)
               (FipeValueObj.reference_period v) (FipeValueObj.fipe_code v)
               (FipeValueObj.fuel v).

Definition to_dict (p : t) : ExtractionResult.t :=
  ExtractionResult.mk []
    (brands (res p))
    (model_to_dict p <$> models (res p))
    (year_model_to_dict p <$> year_models (res p))
    (fipe_value_to_dict p <$> fipe_values (res p)).

(** A fresh process: a new client, an empty result, nothing allocated. *)
Definition init (now : Z) : t :=
  mk (FipeClient.init now) [] [] (mk_result [] [] [] []).
End Process.

(** ** scrapers/models.py and scrapers/values.py *)

Module Scrapers.
Import Process.

Section scrapers.
Context (cfg : Config.t) (env : FipeClient.remote).

Definition invalid_vehicle_type : Py.exn :=
  Py.ValueError "Tipo de veículo inválido".

(** [Model.from_api_response(data=item, brand=brand,
    vehicle_type=brand.vehicle_type, fipe_code="")] *)
Definition model_from_api_response (item : Body.item) (brand : Brand.t)
    : outcome Model.t :=
  match item with
  | Body.Str _ => Raise (Body.no_get "str")
  | Body.Dict data =>
      match
        match data !! "Value" with
        | None => Some 0
        | Some value => Py.int value
        end
      with
      | None => Raise (Py.ValueError "invalid literal for int()")
      | Some code =>
          Return (Model.mk (default EmptyString (data !! "Label")) code
                           EmptyString brand (Brand.vehicle_type brand))
      end
  end.

(** [YearModel.from_api_response(data=item, model=model, authentication="")] *)
Definition year_model_from_api_response (item : Body.item) (model : nat)
    : outcome YearModelObj.t :=
  match item with
  | Body.Str _ => Raise (Body.no_get "str")
  | Body.Dict data =>
      Return (YearModelObj.mk (default EmptyString (data !! "Label"))
                              (default EmptyString (data !! "Value"))
                              EmptyString model)
  end.

Definition lift {A} (r : outcome A) : action Process.t A := λ p, (r, p).

(** The loop that builds the list an extractor returns. *)
Fixpoint build {A} (items : list Body.item)
    (make : Body.item → action Process.t A) (acc : list A)
    : action Process.t (list A) :=
  match items with
  | [] => ret acc
  | item :: rest => x <~ make item ;; build rest make (acc ++ [x])
  end.

(** [ModelScraper.extract_for_brand] *)
Definition extract_for_brand (period : ReferencePeriod.t) (brand : Brand.t)
    : action Process.t (list nat) :=
  match VehicleType.from_string (Brand.vehicle_type brand) with
  | None => raise invalid_vehicle_type
  | Some vehicle_type_code =>
      emit (Py.Log Py.DEBUG "ModelScraper" "Extraindo modelos da marca" None) ;;;
      looked_up <~
        try_except
          (response <~ with_client
             (FipeClient.get_models cfg env (ReferencePeriod.code period)
                vehicle_type_code (Brand.code brand)) ;;
           ret (Some response))
          (λ e,
             emit (Py.Log Py.ERROR "ModelScraper"
                     "Erro ao extrair modelos da marca" (Some e)) ;;;
             ret None) ;;
      match looked_up with
      | None => ret []
      | Some response =>
          raw_models <~ lift (Body.get_modelos response) ;;
          build raw_models
            (λ item, m <~ lift (model_from_api_response item brand) ;; new_model m)
            []
      end
  end.

(** [ValueScraper.extract_year_models] *)
Definition extract_year_models (period : ReferencePeriod.t) (model : nat)
    : action Process.t (list nat) :=
  m <~ get_model model ;;
  let brand := Model.brand m in
  match VehicleType.from_string (Model.vehicle_type m) with
  | None => raise invalid_vehicle_type
  | Some vehicle_type_code =>
      emit (Py.Log Py.DEBUG "ValueScraper" "Extraindo anos-modelo" None) ;;;
      looked_up <~
        try_except
          (raw_years <~ with_client
             (FipeClient.get_year_models cfg env (ReferencePeriod.code period)
                vehicle_type_code (Brand.code brand) (Model.code m)) ;;
           ret (Some raw_years))
          (λ e,
             emit (Py.Log Py.ERROR "ValueScraper"
                     "Erro ao extrair anos-modelo" (Some e)) ;;;
             ret None) ;;
      match looked_up with
      | None => ret []
      | Some raw_years =>
          build (Body.iterate raw_years)
            (λ item,
               y <~ lift (year_model_from_api_response item model) ;;
               new_year_model y)
            []
      end
  end.

(** [ValueScraper.extract_fipe_value] *)
Definition extract_fipe_value (period : ReferencePeriod.t) (year_model : nat)
    : action Process.t (option FipeValueObj.t) :=
  y <~ get_year_model year_model ;;
  let model := YearModelObj.model y in
  m <~ get_model model ;;
  let brand := Model.brand m in
  match VehicleType.from_string (Model.vehicle_type m) with
  | None => raise invalid_vehicle_type
  | Some vehicle_type_code =>
      emit (Py.Log Py.DEBUG "ValueScraper" "Extraindo valor FIPE" None) ;;;
      looked_up <~
        try_except
          (response <~ with_client
             (FipeClient.get_fipe_value cfg env (ReferencePeriod.code period)
                vehicle_type_code (Brand.code brand) (Model.code m)
                (YearModelObj.year_code y)) ;;
           ret (Some response))
          (λ e,
             emit (Py.Log Py.ERROR "ValueScraper"
                     "Erro ao extrair valor FIPE" (Some e)) ;;;
             ret None) ;;
      match looked_up with
      | None => ret None
      | Some response =>
          authentication <~ lift (Body.get_str response "Autenticacao") ;;
          set_authentication year_model authentication ;;;
          fipe_code <~ lift (Body.get_str response "CodigoFipe") ;;
          m' <~ get_model model ;;
          (if truthy fipe_code && negb (truthy (Model.fipe_code m'))
           then set_fipe_code model fipe_code
           else ret tt) ;;;
          valor <~ lift (Body.get_str response "Valor") ;;
          codigo <~ lift (Body.get_str response "CodigoFipe") ;;
          combustivel <~ lift (Body.get_str response "Combustivel") ;;
          now <~ gets (λ p, FipeClient.isoformat env (FipeClient.clock (client p))) ;;
          ret (Some (FipeValueObj.mk year_model valor now
                       (ReferencePeriod.period period) codigo combustivel))
      end
  end.
End scrapers.
End Scrapers.

(** ** scrapers/orchestrator.py *)

Module Orchestrator.
Import Process.

Record ExtractionTask := mk_task {
  task_id : string;
  period : ReferencePeriod.t;     (* serialised with to_dict *)
  brand : Brand.t;                (* serialised with to_dict *)
  vehicle_type : Z
}.

Section worker.
Context (cfg : Config.t) (env : FipeClient.remote).

(** The body of [for year_model in year_models]. *)
Definition for_year_model (period : ReferencePeriod.t) (model year_model : nat)
    : action Process.t unit :=
  fipe_value <~ Scrapers.extract_fipe_value cfg env period year_model ;;
  match fipe_value with
  | None => ret tt
  | Some v =>
      append_year_model year_model ;;;
      append_fipe_value v ;;;
      m <~ get_model model ;;
      if truthy (FipeValueObj.fipe_code v) && negb (truthy (Model.fipe_code m))
      then set_fipe_code model (FipeValueObj.fipe_code v)
      else ret tt
  end.

(** The body of [for model in models]. *)
Definition for_model (period : ReferencePeriod.t) (model : nat)
    : action Process.t unit :=
  year_models <~ Scrapers.extract_year_models cfg env period model ;;
  for_each year_models (for_year_model period model) ;;;
  m <~ get_model model ;;
  if truthy (Model.fipe_code m) then append_model model else ret tt.

(** The [try] block of the worker. *)
Definition extraction (period : ReferencePeriod.t) (brand : Brand.t)
    : action Process.t unit :=
  models <~ Scrapers.extract_for_brand cfg env period brand ;;
  for_each models (for_model period) ;;;
  append_brand brand.

Definition close_client (p : Process.t) : Process.t :=
  Process.mk (FipeClient.close (client p)) (model_store p) (year_store p) (res p).

(** [_extract_worker(task)], in a process started at clock reading
    [now]: the dictionary returned and the final state of the
    process. *)
Definition _extract_worker (now : Z) (task : ExtractionTask)
    : ExtractionResult.t * Process.t :=
  let guarded :=
    try_finally
      (try_except (extraction (period task) (brand task))
         (λ e, emit (Py.Log Py.ERROR "orchestrator" "Erro no worker" (Some e))))
      close_client in
  let '(_, p) := guarded (Process.init now) in
  (to_dict p, p).
End worker.

(** One submitted task as the pool runs it: the service its worker
    talks to, the clock at its start, and whether the worker process
    breaks outside [_extract_worker], in which case [future.result()]
    raises. *)
Record execution := mk_execution {
  task : ExtractionTask;
  service : FipeClient.remote;
  started : Z;
  broken : option Py.exn
}.

Definition future_result (cfg : Config.t) (x : execution)
    : outcome ExtractionResult.t :=
  match broken x with
  | Some e => Raise e
  | None => Return (_extract_worker cfg (service x) (started x) (task x)).1
  end.

(** [_process_batch]: [completed] lists the submitted tasks in the order
    [as_completed] yields their futures.  Returns [results] and the
    records logged while collecting. *)
Fixpoint _process_batch (cfg : Config.t) (completed : list execution)
    : list ExtractionResult.t * list Py.log_record :=
  match completed with
  | [] => ([], [])
  | x :: rest =>
      let '(results, logged) := _process_batch cfg rest in
      match future_result cfg x with
      | Return result => (result :: results, logged)
      | Raise e =>
          (results,
           Py.Log Py.ERROR "orchestrator"
             ("Erro na tarefa " +:+ task_id (task x)) (Some e) :: logged)
      end
  end.

(** [_dict_to_result] *)
Definition brand_key (b : Brand.t) : string * string :=
  (Brand.name b, Brand.vehicle_type b).

Fixpoint convert_models (dicts : list Model.t)
    (brand_cache : gmap (string * string) Brand.t)
    (model_cache : gmap (string * string) Model.t)
    : list Model.t * gmap (string * string) Model.t :=
  match dicts with
  | [] => ([], model_cache)
  | m_dict :: rest =>
      let brand_dict := Model.brand m_dict in
      let brand := default brand_dict (brand_cache !! brand_key brand_dict) in
      let model := Model.mk (Model.name m_dict) (Model.code m_dict)
                     (Model.fipe_code m_dict) brand (Model.vehicle_type m_dict) in
      let '(models, cache) :=
        convert_models rest brand_cache
          (<[(Model.fipe_code model, Model.vehicle_type model) := model]> model_cache) in
      (model :: models, cache)
  end.

Fixpoint convert_year_models (dicts : list YearModel.t)
    (model_cache : gmap (string * string) Model.t)
    (year_model_cache : gmap string YearModel.t)
    : list YearModel.t * gmap string YearModel.t :=
  match dicts with
  | [] => ([], year_model_cache)
  | y_dict :: rest =>
      let model_dict := YearModel.model y_dict in
      let model :=
        default model_dict
          (model_cache !! (Model.fipe_code model_dict, Model.vehicle_type model_dict)) in
      let year_model := YearModel.mk (YearModel.description y_dict)
                          (YearModel.year_code y_dict)
                          (YearModel.authentication y_dict) model in
      let '(year_models, cache) :=
        convert_year_models rest model_cache
          (<[YearModel.authentication year_model := year_model]> year_model_cache) in
      (year_model :: year_models, cache)
  end.

Definition convert_fipe_value (year_model_cache : gmap string YearModel.t)
    (v_dict : FipeValue.t) : FipeValue.t :=
  let year_dict := FipeValue.year_model v_dict in
  let year_model :=
    default year_dict (year_model_cache !! YearModel.authentication year_dict) in
  FipeValue.mk year_model (FipeValue.average_price v_dict)
    (FipeValue.query_timestamp v_dict) (FipeValue.reference_period v_dict)
    (FipeValue.fipe_code v_dict) (FipeValue.fuel v_dict).

Definition _dict_to_result (data : ExtractionResult.t) : ExtractionResult.t :=
  let brand_cache : gmap (string * string) Brand.t :=
    foldl (λ cache b, <[brand_key b := b]> cache) ∅ (ExtractionResult.brands data) in
  let '(models, model_cache) :=
    convert_models (ExtractionResult.models data) brand_cache ∅ in
  let '(year_models, year_model_cache) :=
    convert_year_models (ExtractionResult.year_models data) model_cache ∅ in
  ExtractionResult.mk
    (ExtractionResult.reference_periods data)
    (ExtractionResult.brands data)
    models
    year_models
    (convert_fipe_value year_model_cache <$> ExtractionResult.fipe_values data).

(** The parallel branch of [run]: for every batch, collect the results,
    merge them into [final_result] and save the cumulative result as
    [batch_<n>.json].  Returns [final_result] and the files saved, in the
    order of saving. *)
Fixpoint run_batches (cfg : Config.t) (batches : list (list execution))
    (n : nat) (final_result : ExtractionResult.t)
    : ExtractionResult.t * list (string * FileHandler.document) :=
  match batches with
  | [] => (final_result, [])
  | completed :: rest =>
      let batch_results := (_process_batch cfg completed).1 in
      let merged :=
        foldl (λ acc result_dict,
                 ExtractionResult.merge acc (_dict_to_result result_dict))
              final_result batch_results in
      let batch_size := Z.to_nat (Config.MAX_WORKERS cfg * 2) in
      let file := ("batch_" +:+ pretty n +:+ ".json",
                   FileHandler.Batch (Z.of_nat (n * batch_size)) merged) in
      let '(final, files) := run_batches cfg rest (S n) merged in
      (final, file :: files)
  end.
End Orchestrator.


(** ** models/fipe_models.py: entities from the items of a response *)

Module FromApi.

(** An element of the reference tables,
    [{"Codigo": 320, "Mes": "janeiro/2024 "}]: an integer and a string,
    either of which may be missing. *)
Record row := mk_row { Codigo : option Z; Mes : option string }.

Definition month_names : gmap string string :=
  list_to_map
    [("janeiro", "01"); ("fevereiro", "02"); ("março", "03");
     ("abril", "04"); ("maio", "05"); ("junho", "06");
     ("julho", "07"); ("agosto", "08"); ("setembro", "09");
     ("outubro", "10"); ("novembro", "11"); ("dezembro", "12")].

(** [ReferencePeriod.from_api_response(data)] *)
Definition reference_period_from_api_response (data : row) : ReferencePeriod.t :=
  let mes_str := default EmptyString (Mes data) in
  let period :=
    match Py.split "/" mes_str with
    | [part0; part1] =>
        let month_name := Py.strip (Py.lower part0) in
        let year := Py.strip part1 in
        let month_num := default "01" (month_names !! month_name) in
        month_num +:+ "/" +:+ year
    | _ => mes_str
    end in
  ReferencePeriod.mk period (default 0 (Codigo data)).

(** [Brand.from_api_response(data=item, vehicle_type=..., initial_period=...)] *)
Definition brand_from_api_response (item : Body.item) (vehicle_type : string)
    (initial_period : option string) : outcome Brand.t :=
  match item with
  | Body.Str _ => Raise (Body.no_get "str")
  | Body.Dict data =>
      match
        match data !! "Value" with
        | None => Some 0
        | Some value => Py.int value
        end
      with
      | None => Raise (Py.ValueError "invalid literal for int()")
      | Some code =>
          Return (Brand.mk (default EmptyString (data !! "Label")) code
                           vehicle_type initial_period)
      end
  end.
End FromApi.

(** ** scrapers/references.py *)

Module ReferenceScraper.

Definition logged (levelname : Py.level) (message : string) (exc : option Py.exn)
    : action FipeClient.t unit :=
  modify (FipeClient.emit (Py.Log levelname "ReferenceScraper" message exc)).

(** The loop of [extract]:
<<
    for item in raw_data:
        period = ReferencePeriod.from_api_response(item)
        if period.period not in seen_periods:
            periods.append(period)
            seen_periods.add(period.period)
>> *)
Fixpoint collect (raw_data : list FromApi.row) (periods : list ReferencePeriod.t)
    (seen_periods : gset string) : list ReferencePeriod.t :=
  match raw_data with
  | [] => periods
  | item :: rest =>
      let period := FromApi.reference_period_from_api_response item in
      if decide (ReferencePeriod.period period ∈ seen_periods)
      then collect rest periods seen_periods
      else collect rest (periods ++ [period])
             ({[ReferencePeriod.period period]} ∪ seen_periods)
  end.

Section extract.
(** [self.client.get_reference_tables()], its response read as rows. *)
Context (get_reference_tables : action FipeClient.t (list FromApi.row)).

Definition extract : action FipeClient.t (list ReferencePeriod.t) :=
  logged Py.INFO "Iniciando extração de períodos de referência..." None ;;;
  looked_up <~
    try_except
      (raw_data <~ get_reference_tables ;; ret (Some raw_data))
      (λ e,
         logged Py.ERROR "Erro ao extrair períodos de referência" (Some e) ;;;
         ret None) ;;
  match looked_up with
  | None => ret []
  | Some raw_data =>
      let periods := collect raw_data [] ∅ in
      logged Py.INFO
        ("Extraídos " +:+ pretty (length periods) +:+ " períodos de referência")
        None ;;;
      ret periods
  end.
End extract.

(** [parse_period]: (year, month) of a period in MM/yyyy form; [None]
    stands for the [ValueError] of [int]. *)
Definition parse_period (period_str : string) : option (Z * Z) :=
  match Py.split "/" period_str with
  | [part0; part1] =>
      year ← Py.int part1; month ← Py.int part0; Some (year, month)
  | _ => Some (0, 0)
  end.


(** Truthiness of an [Optional[str]] argument. *)
Definition is_set (bound : option string) : bool :=
  match bound with
  | Some s => truthy s
  | None => false
  end.



End ReferenceScraper.

(** ** scrapers/brands.py *)

Module BrandScraper.

Definition logged (levelname : Py.level) (message : string) (exc : option Py.exn)
    : action FipeClient.t unit :=
  modify (FipeClient.emit (Py.Log levelname "BrandScraper" message exc)).

(** The loop of [extract_for_single_period]:
<<
    for item in raw_brands:
        brand = Brand.from_api_response(data=item, ...)
        key = (brand.name, brand.vehicle_type)
        if key not in seen:
            brands.append(brand)
            seen.add(key)
>> *)
Fixpoint collect (items : list Body.item) (vehicle_type_str : string)
    (initial_period : string) (brands : list Brand.t)
    (seen : gset (string * string)) : outcome (list Brand.t) :=
  match items with
  | [] => Return brands
  | item :: rest =>
      match FromApi.brand_from_api_response item vehicle_type_str
              (Some initial_period) with
      | Raise e => Raise e
      | Return brand =>
          let key := (Brand.name brand, Brand.vehicle_type brand) in
          if decide (key ∈ seen)
          then collect rest vehicle_type_str initial_period brands seen
          else collect rest vehicle_type_str initial_period (brands ++ [brand])
                 ({[key]} ∪ seen)
      end
  end.

Section extract.
Context (cfg : Config.t) (env : FipeClient.remote).

Definition extract_for_single_period (period : ReferencePeriod.t) (vehicle_type : Z)
    : action FipeClient.t (list Brand.t) :=
  let vehicle_type_str := VehicleType.to_string vehicle_type in
  logged Py.DEBUG "Extraindo marcas para período" None ;;;
  looked_up <~
    try_except
      (raw_brands <~ FipeClient.get_brands cfg env (ReferencePeriod.code period)
                       vehicle_type ;;
       ret (Some raw_brands))
      (λ e, logged Py.ERROR "Erro ao extrair marcas" (Some e) ;;; ret None) ;;
  match looked_up with
  | None => ret []
  | Some raw_brands =>
      λ c, (collect (Body.iterate raw_brands) vehicle_type_str
              (ReferencePeriod.period period) [] ∅, c)
  end.
End extract.
End BrandScraper.

(** ** scrapers/orchestrator.py: [Orchestrator.__init__] and [run] *)

Module Run.
Import Orchestrator.

(** [self.vehicle_type_codes] as [__init__] sets it; [None] stands for
    the [ValueError] of [VehicleType.from_string]. *)
Definition vehicle_type_codes (vehicle_types : option (list string))
    : option (list Z) :=
  match vehicle_types with
  | None | Some [] => Some VehicleType.all_types
  | Some vehicle_types => mapM VehicleType.from_string vehicle_types
  end.

(** [max(periods, key=lambda p: p.period)]: the first of the periods
    whose string is greatest; [None] for no period. *)
Definition latest_period (periods : list ReferencePeriod.t)
    : option ReferencePeriod.t :=
  match periods with
  | [] => None
  | first :: rest =>
      Some (foldl (λ best p,
                     if FileHandler.str_lt (ReferencePeriod.period best)
                                           (ReferencePeriod.period p)
                     then p else best)
                  first rest)
  end.

Definition logged (levelname : Py.level) (message : string) (exc : option Py.exn)
    : action FipeClient.t unit :=
  modify (FipeClient.emit (Py.Log levelname "orchestrator" message exc)).

Section tasks.
Context (cfg : Config.t) (env : FipeClient.remote).
(** [str(uuid.uuid4())[:8]] for the task created after [n] others. *)
Context (uuid : nat → string).

(** <<
    for brand in brands:
        for period in periods:
            tasks.append(ExtractionTask(...))
>> *)
Definition tasks_for (brands : list Brand.t) (periods : list ReferencePeriod.t)
    (vehicle_type_code : Z) (tasks : list ExtractionTask) : list ExtractionTask :=
  foldl (λ tasks brand,
           foldl (λ tasks period,
                    tasks ++ [mk_task (uuid (length tasks)) period brand
                                      vehicle_type_code])
                 tasks periods)
        tasks brands.

(** The loop [for vehicle_type_code in self.vehicle_type_codes] of [run]. *)
Fixpoint create_tasks (latest : ReferencePeriod.t) (periods : list ReferencePeriod.t)
    (codes : list Z) (tasks : list ExtractionTask)
    : action FipeClient.t (list ExtractionTask) :=
  match codes with
  | [] => ret tasks
  | vehicle_type_code :: rest =>
      brands <~ BrandScraper.extract_for_single_period cfg env latest
                  vehicle_type_code ;;
      logged Py.INFO
        ("Encontradas " +:+ pretty (length brands) +:+ " marcas para tipo "
         +:+ VehicleType.to_string vehicle_type_code) None ;;;
      create_tasks latest periods rest (tasks_for brands periods vehicle_type_code tasks)
  end.
End tasks.

(** [range(0, stop, step)] *)
Definition range_step (stop : nat) (step : Z) : outcome (list nat) :=
  if step =? 0 then Raise (Py.ValueError "range() arg 3 must not be zero")
  else if step <? 0 then Return []
  else
    let s := Z.to_nat step in
    Return ((λ k, (k * s)%nat) <$> seq 0 ((stop + s - 1) / s)%nat).

(** The parallel branch of [run] on [tasks]: [run_task] gives the run of
    a submitted task, [as_completed] the order in which the futures of a
    batch complete. *)
Definition run_parallel (cfg : Config.t) (run_task : ExtractionTask → execution)
    (as_completed : list execution → list execution)
    (tasks : list ExtractionTask) (final_result : ExtractionResult.t)
    : outcome (ExtractionResult.t * list (string * FileHandler.document)) :=
  let batch_size := Config.MAX_WORKERS cfg * 2 in
  match range_step (length tasks) batch_size with
  | Raise e => Raise e
  | Return starts =>
      let batches :=
        (λ batch_idx,
           as_completed
             (run_task <$> take (Z.to_nat batch_size) (drop batch_idx tasks)))
        <$> starts in
      Return (run_batches cfg batches 0 final_result)
  end.

(** The sequential branch of [run]: every task is run in turn and its
    result merged. *)
Definition run_sequential (cfg : Config.t) (executions : list execution)
    (final_result : ExtractionResult.t) : ExtractionResult.t :=
  foldl (λ acc x,
           ExtractionResult.merge acc
             (_dict_to_result
                (_extract_worker cfg (service x) (started x) (task x)).1))
        final_result executions.
End Run.

(** ** main.py *)

Module FipeScraper.

Definition invalid_format : Py.exn :=
  Py.ValueError "Formato de período inválido".

(** [_validate_period_format].  Every failure is a [ValueError]; when
    [int] fails, the one raised carries the message of the format error
    (or [int]'s own, should that one mention [inválido]). *)
Definition _validate_period_format (period : string) : outcome unit :=
  if negb (truthy period) then Return tt
  else
    match Py.split "/" period with
    | [month; year] =>
        match Py.int month, Py.int year with
        | Some month_int, Some year_int =>
            if negb ((1 <=? month_int) && (month_int <=? 12))
            then Raise (Py.ValueError ("Mês inválido: " +:+ month))
            else if (year_int <? 2000) || (2100 <? year_int)
            then Raise (Py.ValueError ("Ano inválido: " +:+ year))
            else Return tt
        | _, _ => Raise invalid_format
        end
    | _ => Raise invalid_format
    end.

Definition valid_types : list string :=
  ["car"; "bike"; "truck"; "carro"; "moto"; "caminhao"; "caminhão"].

Fixpoint validate_vehicle_types (vehicle_types : list string) : outcome unit :=
  match vehicle_types with
  | [] => Return tt
  | vt :: rest =>
      if bool_decide (Py.lower vt ∈ valid_types)
      then validate_vehicle_types rest
      else Raise (Py.ValueError ("Tipo de veículo inválido: " +:+ vt))
  end.

(** The checks of [FipeScraper.__init__]. *)
Definition init (start_period end_period : option string)
    (vehicle_types : option (list string)) : outcome unit :=
  match
    (if ReferenceScraper.is_set start_period
     then _validate_period_format (default EmptyString start_period)
     else Return tt)
  with
  | Raise e => Raise e
  | Return _ =>
      match
        (if ReferenceScraper.is_set end_period
         then _validate_period_format (default EmptyString end_period)
         else Return tt)
      with
      | Raise e => Raise e
      | Return _ => validate_vehicle_types (default [] vehicle_types)
      end
  end.
End FipeScraper.


(** ** scrapers/base_scraper.py *)

Module BaseScraper.
(** [_log_progress(current, total, item_name)]: the percentage is
    computed only for a positive total, so the call cannot raise; it
    logs one record at INFO level. *)
Definition _log_progress (logger : string) (current total : nat) (item_name : string)
    : action Process.t unit :=
  Process.emit (Py.Log Py.INFO logger ("Progresso " +:+ item_name) None).
End BaseScraper.

(** ** scrapers/models.py: [ModelScraper.extract] and
    [get_models_with_fipe_codes] *)

Module ModelScraper.
Import Process.

Section extract.
Context (cfg : Config.t) (env : FipeClient.remote).

(** The inner loop of [extract]:
<<
    for model in brand_models:
        key = (model.fipe_code, model.vehicle_type)
        if key not in seen_models:
            models.append(model)
            seen_models.add(key)
>> *)
Fixpoint keep_new (brand_models models : list nat) (seen_models : gset (string * string))
    : action Process.t (list nat * gset (string * string)) :=
  match brand_models with
  | [] => ret (models, seen_models)
  | model :: rest =>
      m <~ get_model model ;;
      let key := (Model.fipe_code m, Model.vehicle_type m) in
      if decide (key ∈ seen_models)
      then keep_new rest models seen_models
      else keep_new rest (models ++ [model]) ({[key]} ∪ seen_models)
  end.

(** [for idx, brand in enumerate(brands, 1)] *)
Fixpoint for_brands (period : ReferencePeriod.t) (brands : list Brand.t)
    (idx total : nat) (models : list nat) (seen_models : gset (string * string))
    : action Process.t (list nat) :=
  match brands with
  | [] => ret models
  | brand :: rest =>
      brand_models <~ Scrapers.extract_for_brand cfg env period brand ;;
      kept <~ keep_new brand_models models seen_models ;;
      (if (idx mod 5 =? 0)%nat
       then BaseScraper._log_progress "ModelScraper" idx total "modelos por marca"
       else ret tt) ;;;
      for_brands period rest (S idx) total kept.1 kept.2
  end.

Definition extract (period : ReferencePeriod.t) (brands : list Brand.t)
    : action Process.t (list nat) :=
  emit (Py.Log Py.INFO "ModelScraper" "Iniciando extração de modelos" None) ;;;
  models <~ for_brands period brands 1 (length brands) [] ∅ ;;
  emit (Py.Log Py.INFO "ModelScraper" "Extraídos modelos únicos" None) ;;;
  ret models.



Definition logged (levelname : Py.level) (message : string) (exc : option Py.exn)
    : action FipeClient.t unit :=
  modify (FipeClient.emit (Py.Log levelname "ModelScraper" message exc)).

Definition lift {A} (r : outcome A) : action FipeClient.t A := λ c, (r, c).



End extract.
End ModelScraper.

(** ** scrapers/values.py: [ValueScraper.extract] and [extract_for_brand] *)

Module ValueScraper.
Import Process.

(** The four locals the loops of [extract] update. *)
Record collected := mk_collected {
  all_year_models : list nat;
  all_fipe_values : list FipeValueObj.t;
  seen_year_models : gset string;
  seen_fipe_values : gset (string * string)
}.

Section extract.
Context (cfg : Config.t) (env : FipeClient.remote).

(** The body of [for year_model in year_models].  A [FipeValue] is an
    object without [__bool__] or [__len__], so [if fipe_value] holds for
    every value returned. *)
Definition for_year_model (period : ReferencePeriod.t) (year_model : nat)
    (acc : collected) : action Process.t collected :=
  fipe_value <~ Scrapers.extract_fipe_value cfg env period year_model ;;
  match fipe_value with
  | None => ret acc
  | Some v =>
      y <~ get_year_model year_model ;;
      let year_key := YearModelObj.authentication y in
      let acc :=
        if truthy year_key && negb (bool_decide (year_key ∈ seen_year_models acc))
        then mk_collected (all_year_models acc ++ [year_model]) (all_fipe_values acc)
               ({[year_key]} ∪ seen_year_models acc) (seen_fipe_values acc)
        else acc in
      vy <~ get_year_model (FipeValueObj.year_model v) ;;
      let value_key :=
        (YearModelObj.authentication vy, FipeValueObj.reference_period v) in
      ret (if truthy value_key.1
              && negb (bool_decide (value_key ∈ seen_fipe_values acc))
           then mk_collected (all_year_models acc) (all_fipe_values acc ++ [v])
                  (seen_year_models acc) ({[value_key]} ∪ seen_fipe_values acc)
           else acc)
  end.

Fixpoint for_year_models (period : ReferencePeriod.t) (year_models : list nat)
    (acc : collected) : action Process.t collected :=
  match year_models with
  | [] => ret acc
  | year_model :: rest =>
      acc <~ for_year_model period year_model acc ;;
      for_year_models period rest acc
  end.

(** [for idx, model in enumerate(models, 1)] *)
Fixpoint for_models (period : ReferencePeriod.t) (models : list nat)
    (idx total : nat) (acc : collected) : action Process.t collected :=
  match models with
  | [] => ret acc
  | model :: rest =>
      year_models <~ Scrapers.extract_year_models cfg env period model ;;
      acc <~ for_year_models period year_models acc ;;
      (if (idx mod 10 =? 0)%nat
       then BaseScraper._log_progress "ValueScraper" idx total "valores FIPE"
       else ret tt) ;;;
      for_models period rest (S idx) total acc
  end.

Definition extract (period : ReferencePeriod.t) (models : list nat)
    : action Process.t (list nat * list FipeValueObj.t) :=
  emit (Py.Log Py.INFO "ValueScraper" "Iniciando extração de valores FIPE" None) ;;;
  acc <~ for_models period models 1 (length models) (mk_collected [] [] ∅ ∅) ;;
  emit (Py.Log Py.INFO "ValueScraper" "Extraídos anos-modelo e valores FIPE" None) ;;;
  ret (all_year_models acc, all_fipe_values acc).

(** [[m for m in models if ... m.brand.name == brand.name]] *)
Fixpoint of_brand (brand : Brand.t) (models : list nat) : action Process.t (list nat) :=
  match models with
  | [] => ret []
  | model :: rest =>
      m <~ get_model model ;;
      brand_models <~ of_brand brand rest ;;
      ret (if String.eqb (Brand.name (Model.brand m)) (Brand.name brand)
           then model :: brand_models else brand_models)
  end.

Definition extract_for_brand (period : ReferencePeriod.t) (brand : Brand.t)
    (models : list nat) : action Process.t (list nat * list FipeValueObj.t) :=
  brand_models <~ of_brand brand models ;;
  extract period brand_models.
End extract.
End ValueScraper.


(** * Vocabulary of the properties *)

Section text_vocabulary.

(** Text on which [Py.lower], [Py.strip] and [Py.int] are [str.lower],
  [str.strip] and [int]: ASCII characters and the Latin-1 lower-case
  letters U+00DF to U+00FF, which are the bytes C3 9F to C3 BF in
  UTF-8.  No character of it but A-Z has a lower-case form of its own,
  none but the ASCII blanks is white space, none but 0-9 is a digit. *)
Fixpoint plain (s : string) : bool :=
match s with
| EmptyString => true
| String c rest =>
    let n := Ascii.N_of_ascii c in
    if (n <? 128)%N then plain rest
    else
      match rest with
      | EmptyString => false
      | String d rest' =>
          let m := Ascii.N_of_ascii d in
          (n =? 195)%N && (159 <=? m)%N && (m <=? 191)%N && plain rest'
      end
end.

End text_vocabulary.

(** The entities of [l] held under the key [k]. *)
Definition with_key {A K} `{EqDecision K} (key : A → K) (k : K) (l : list A) : list A :=
  filter (λ x, key x = k) l.

Section fresh.
Context {A K : Type} `{Countable K} (key : A → K).

(** The entities a merge loop appends. *)
Fixpoint fresh (other : list A) (existing : gset K) : list A :=
  match other with
  | [] => []
  | x :: rest =>
      if decide (key x ∈ existing) then fresh rest existing
      else x :: fresh rest ({[key x]} ∪ existing)
  end.
End fresh.


Section merge_vocabulary.
Import ExtractionResult.

(** [self] keeps, under every identity key it already holds, exactly the
  entities it held before. *)
Definition first_seen_wins {A K} `{Countable K} (key : A → K)
  (self merged : list A) : Prop :=
∀ k, k ∈ existing_of key self → with_key key k merged = with_key key k self.

Definition counts (r : ExtractionResult.t) : nat * nat * nat * nat * nat :=
(length (reference_periods r), length (brands r), length (models r),
 length (year_models r), length (fipe_values r)).

Definition largest (r : ExtractionResult.t) : nat :=
Nat.max (length (reference_periods r))
  (Nat.max (length (brands r))
     (Nat.max (length (models r))
        (Nat.max (length (year_models r)) (length (fipe_values r))))).

(** Two results that differ in what they hold under the same brand. *)
Definition brand_unresolved : Brand.t := Brand.mk "FIAT" 21 "car" None.
Definition brand_resolved : Brand.t := Brand.mk "FIAT" 21 "car" (Some "01/2001").
Definition result_a : ExtractionResult.t := mk [] [brand_unresolved] [] [] [].
Definition result_b : ExtractionResult.t := mk [] [brand_resolved] [] [] [].

End merge_vocabulary.


Section consolidation_vocabulary.
Import ExtractionResult FileHandler.

Definition nonempty {A} (key0 : A → string) (l : list A) : list A :=
filter (λ x, truthy (key0 x) = true) l.

Definition guarded (d : ExtractionResult.t) : ExtractionResult.t :=
mk (nonempty ReferencePeriod.period (reference_periods d))
   (nonempty Brand.name (brands d))
   (nonempty Model.fipe_code (models d))
   (nonempty YearModel.authentication (year_models d))
   (nonempty (λ v, YearModel.authentication (FipeValue.year_model v)) (fipe_values d)).

Definition read (dir : directory) : list ExtractionResult.t :=
omap get_arrays (snd <$> list_partial_files dir).

Definition file_merge (acc d : ExtractionResult.t) : ExtractionResult.t :=
let m := merge acc (guarded d) in
mk (reference_periods m) (brands m) (models m)
   (merge_list year_key (year_models acc) (year_models (guarded d)))
   (fipe_values m).

Definition all_of {A} (kind : ExtractionResult.t → list A)
  (docs : list ExtractionResult.t) : list A :=
mjoin (kind <$> docs).

(** The seen-sets hold the keys of what has been consolidated. *)
Definition in_step (acc : accumulator) : Prop :=
seen_periods acc = existing_of period_key (reference_periods (consolidated acc))
∧ seen_brands acc = existing_of brand_key (brands (consolidated acc))
∧ seen_models acc = existing_of model_key (models (consolidated acc))
∧ seen_year_models acc = existing_of year_key (year_models (consolidated acc))
∧ seen_fipe_values acc = existing_of value_key (fipe_values (consolidated acc)).

Definition fiat : Brand.t := Brand.mk "FIAT" 21 "car" None.
Definition uno (fipe_code : string) : Model.t := Model.mk "UNO" 123 fipe_code fiat "car".
Definition uno_2024 (authentication fipe_code : string) : YearModel.t :=
YearModel.mk "2024 Gasoline" "2024-1" authentication (uno fipe_code).
Definition uno_value (authentication price : string) : FipeValue.t :=
FipeValue.mk (uno_2024 authentication "001004-9") price "2024-01-15T10:00:00"
             "01/2024" "001004-9" "Gasoline".

(** Two partial files that hold a value without authentication each, and
  year-models under one authentication whose models differ. *)
Definition unresolved_a : ExtractionResult.t :=
mk [] [] [] [uno_2024 "abc123" "001004-9"] [uno_value "" "R$ 35.000,00"].
Definition unresolved_b : ExtractionResult.t :=
mk [] [] [] [uno_2024 "abc123" "001005-7"] [uno_value "" "R$ 36.000,00"].
Definition unresolved_dir : directory :=
Some [("batch_0.json", Arrays unresolved_a); ("batch_1.json", Arrays unresolved_b)].

(** Two partial files that hold a value under the same key each, listed
  by the directory in an order that is not the order of their names. *)
Definition first_listed : ExtractionResult.t :=
mk [] [] [] [] [uno_value "abc123" "R$ 36.000,00"].
Definition second_listed : ExtractionResult.t :=
mk [] [] [] [] [uno_value "abc123" "R$ 35.000,00"].
Definition unordered_dir : directory :=
Some [("batch_1.json", Arrays first_listed); ("batch_0.json", Arrays second_listed)].

(** The directory with its entries in the order of their names. *)
Definition in_filename_order (dir : directory) : directory :=
sort_by fst str_lt <$> dir.

End consolidation_vocabulary.


Section client_vocabulary.
Import FipeClient.

(** What one run of the body of [_make_request] makes of the outcome of
  the POST. *)
Definition attempt_outcome (p : posted) : outcome Py.json :=
match p with
| Fails e => Raise e
| Responds r => (classify r).1
end.




Definition always (status : Z) : remote :=
mk_remote (λ _ _, Responds (mk_response status "" None)) (λ _, 0%nat) (λ _, "").

End client_vocabulary.


Section worker_vocabulary.
Import Process.

Definition is_dict (response : Py.json) : bool :=
match response with
| Py.Array _ => false
| _ => true
end.

Definition with_authentication (authentication : string) (y : YearModelObj.t)
  : YearModelObj.t :=
YearModelObj.mk (YearModelObj.description y) (YearModelObj.year_code y)
                authentication (YearModelObj.model y).

Definition with_fipe_code (fipe_code : string) (m : Model.t) : Model.t :=
Model.mk (Model.name m) (Model.code m) fipe_code (Model.brand m)
         (Model.vehicle_type m).

(** The fipe_code a value lookup leaves in the model. *)
Definition backfilled (fipe_code : string) (m : Model.t) : Model.t :=
if truthy fipe_code && negb (truthy (Model.fipe_code m))
then with_fipe_code fipe_code m else m.

(** The value lookup [extract_fipe_value] issues for the year-model [y] of
  model [m], from the state [p] of the process. *)
Definition value_lookup (cfg : Config.t) (env : FipeClient.remote)
  (period : ReferencePeriod.t) (vehicle_type_code : Z)
  (m : Model.t) (y : YearModelObj.t) (p : Process.t)
  : outcome Py.json * FipeClient.t :=
FipeClient.get_fipe_value cfg env (ReferencePeriod.code period)
  vehicle_type_code (Brand.code (Model.brand m)) (Model.code m)
  (YearModelObj.year_code y)
  (FipeClient.emit (Py.Log Py.DEBUG "ValueScraper" "Extraindo valor FIPE" None)
     (client p)).

(** [response.get(key, "")] for a response that is a dictionary. *)
Definition member (response : Py.json) (key : string) : string :=
match Body.get_str response key with
| Return s => s
| Raise _ => ""
end.

(** The value [extract_fipe_value] makes of a response, for the year-model
  at address [year_model], when the client is in state [c]. *)
Definition value_of (env : FipeClient.remote) (period : ReferencePeriod.t)
  (year_model : nat) (response : Py.json) (c : FipeClient.t) : FipeValueObj.t :=
FipeValueObj.mk year_model (member response "Valor")
  (FipeClient.isoformat env (FipeClient.clock c))
  (ReferencePeriod.period period) (member response "CodigoFipe")
  (member response "Combustivel").

(** [p'] differs from [p] only by fresh objects, by authentication tokens
  written into year-models and by values and year-models appended to the
  result; the models, the brands and the list of models of the result are
  as they were. *)
Record quiet_step (p p' : Process.t) : Prop := {
models_kept : ∀ a m, model_store p !! a = Some m → model_store p' !! a = Some m;
models_fresh : ∀ a m', model_store p' !! a = Some m' →
               model_store p !! a = Some m' ∨ Model.fipe_code m' = "";
years_kept : ∀ b y, year_store p !! b = Some y →
             ∃ y', year_store p' !! b = Some y'
                   ∧ YearModelObj.model y' = YearModelObj.model y;
result_models_kept : models (res p') = models (res p);
result_brands_kept : brands (res p') = brands (res p);
result_values_kept : ∀ v, v ∈ fipe_values (res p) → v ∈ fipe_values (res p')
}.

Definition quiet {A} (m : action Process.t A) : Prop :=
∀ p, quiet_step p (m p).2.

(** The year-models [ys] belong to the model at address [a]. *)
Definition owned (a : nat) (ys : list nat) (p : Process.t) : Prop :=
∀ y, y ∈ ys → ∃ yo, year_store p !! y = Some yo ∧ YearModelObj.model yo = a.

(** Every model listed in the result is resolved, and every resolved model
  has a value in the result that was looked up for one of its year-models
  and carries its fipe_code. *)
Record resolved_by_value (p : Process.t) : Prop := {
listed_resolved : ∀ a, a ∈ models (res p) →
  ∃ m, model_store p !! a = Some m ∧ truthy (Model.fipe_code m) = true;
resolved_valued : ∀ a m,
  model_store p !! a = Some m → truthy (Model.fipe_code m) = true →
  ∃ v yo, v ∈ fipe_values (res p)
          ∧ year_store p !! FipeValueObj.year_model v = Some yo
          ∧ YearModelObj.model yo = a
          ∧ FipeValueObj.fipe_code v = Model.fipe_code m
}.

(** What every step of the worker keeps. *)
Record worker_step (p p' : Process.t) : Prop := {
years_owned : ∀ b y, year_store p !! b = Some y →
              ∃ y', year_store p' !! b = Some y'
                    ∧ YearModelObj.model y' = YearModelObj.model y;
brands_kept : brands (res p') = brands (res p)
}.

(** What [extract_year_models] does with one item of the response. *)
Definition make_year_model (a : nat) (item : Body.item) : action Process.t nat :=
bind (Scrapers.lift (Scrapers.year_model_from_api_response item a)) new_year_model.

End worker_vocabulary.


Section batch_vocabulary.
Import Process.
Import Orchestrator.

Definition ok (body : Py.json) : FipeClient.posted :=
FipeClient.Responds (FipeClient.mk_response 200 "" (Some body)).

Definition fiat_task : ExtractionTask :=
mk_task "1f0c9a2e" (ReferencePeriod.mk "01/2024" 320)
        (Brand.mk "FIAT" 21 "car" None) 1.

Definition two_models : Py.json :=
Py.Envelope [list_to_map [("Label", "UNO"); ("Value", "123")];
             list_to_map [("Label", "PALIO"); ("Value", "124")]] [].

Definition one_year : Py.json :=
Py.Array [list_to_map [("Label", "2024 Gasoline"); ("Value", "2024-1")]].

Definition at_midnight : Z → string := λ _, "2024-01-15T00:00:00".

(** The service answers the lookups of UNO, then answers the year-model
  lookup of PALIO with an object instead of an array. *)
Definition misshapen_service : FipeClient.remote :=
FipeClient.mk_remote
  (λ n _, match n with
          | 0 => ok two_models
          | 1 => ok one_year
          | 2 => ok (Py.Object (list_to_map
                       [("Valor", "R$ 35.000,00"); ("CodigoFipe", "001004-9");
                        ("Autenticacao", "abc123"); ("Combustivel", "Gasoline")]))
          | _ => ok (Py.Object (list_to_map [("codigo", "0")]))
          end%nat)
  (λ _, 0%nat) at_midnight.

(** The value lookup of UNO fails; the one of PALIO carries no
  [CodigoFipe]. *)
Definition unresolving_service : FipeClient.remote :=
FipeClient.mk_remote
  (λ n _, match n with
          | 0 => ok two_models
          | 1 => ok one_year
          | 2 => FipeClient.Responds (FipeClient.mk_response 404 "" None)
          | 3 => ok one_year
          | _ => ok (Py.Object (list_to_map
                       [("Valor", "R$ 20.000,00"); ("Autenticacao", "xyz789")]))
          end%nat)
  (λ _, 0%nat) at_midnight.


(** What [_process_batch] keeps of a future, and what it logs. *)
Definition collected (cfg : Config.t) (x : execution) : option ExtractionResult.t :=
match future_result cfg x with
| Return result => Some result
| Raise _ => None
end.

Definition reported (cfg : Config.t) (x : execution) : option Py.log_record :=
match future_result cfg x with
| Return _ => None
| Raise e =>
    Some (Py.Log Py.ERROR "orchestrator" ("Erro na tarefa " +:+ task_id (task x))
                 (Some e))
end.

(** A process that holds UNO, not yet resolved, and one of its year-models. *)
Definition unresolved_uno : Model.t :=
Model.mk "UNO" 123 "" (Brand.mk "FIAT" 21 "car" None) "car".
Definition unresolved_year : YearModelObj.t :=
YearModelObj.mk "2024 Gasoline" "2024-1" "" 0.
Definition holding_uno : Process.t :=
Process.mk (FipeClient.init 1000) [unresolved_uno] [unresolved_year]
           (mk_result [] [] [] []).

End batch_vocabulary.


Section merge_algebra_vocabulary.
Import ExtractionResult.

(** [merged] is [self] followed by entities of [other] with pairwise
  distinct keys, none of which [self] holds. *)
Definition appends_new {A K} `{Countable K} (key : A → K)
  (self other merged : list A) : Prop :=
∃ new, merged = self ++ new
       ∧ NoDup (key <$> new)
       ∧ ∀ x, x ∈ new → x ∈ other ∧ key x ∉ existing_of key self.

(** No two entities of a kind share an identity key. *)
Definition distinct_keys (r : ExtractionResult.t) : Prop :=
NoDup (ReferencePeriod.key <$> reference_periods r)
∧ NoDup (Brand.key <$> brands r)
∧ NoDup (Model.key <$> models r)
∧ NoDup (YearModel.key <$> year_models r)
∧ NoDup (FipeValue.key <$> fipe_values r).

End merge_algebra_vocabulary.


Section conversion_vocabulary.

(** [m'] is [m] but for its brand, which has the identity of [m]'s. *)
Definition relinked_model (m' m : Model.t) : Prop :=
Model.name m' = Model.name m
∧ Model.code m' = Model.code m
∧ Model.fipe_code m' = Model.fipe_code m
∧ Model.vehicle_type m' = Model.vehicle_type m
∧ Brand.key (Model.brand m') = Brand.key (Model.brand m).

Definition relinked_year_model (y' y : YearModel.t) : Prop :=
YearModel.description y' = YearModel.description y
∧ YearModel.year_code y' = YearModel.year_code y
∧ YearModel.authentication y' = YearModel.authentication y
∧ Model.key (YearModel.model y') = Model.key (YearModel.model y).

Definition relinked_value (v' v : FipeValue.t) : Prop :=
FipeValue.average_price v' = FipeValue.average_price v
∧ FipeValue.query_timestamp v' = FipeValue.query_timestamp v
∧ FipeValue.reference_period v' = FipeValue.reference_period v
∧ FipeValue.fipe_code v' = FipeValue.fipe_code v
∧ FipeValue.fuel v' = FipeValue.fuel v
∧ YearModel.key (FipeValue.year_model v') = YearModel.key (FipeValue.year_model v).

(** The entity a cache filled from [l] returns for [nested]: the last of
  [l] with the identity of [nested], and [nested] itself when there is
  none. *)
Definition cached {A K} `{EqDecision K} (key : A → K) (l : list A) (nested : A) : A :=
default nested (last (with_key key (key nested) l)).

(** What the loops of [_dict_to_result] make of a model and of a
  year-model dictionary, given the cache they look the nested entity up
  in. *)
Definition with_brand (cache : gmap (string * string) Brand.t) (m_dict : Model.t)
  : Model.t :=
Model.mk (Model.name m_dict) (Model.code m_dict) (Model.fipe_code m_dict)
  (default (Model.brand m_dict) (cache !! Orchestrator.brand_key (Model.brand m_dict)))
  (Model.vehicle_type m_dict).

Definition with_model (cache : gmap (string * string) Model.t) (y_dict : YearModel.t)
  : YearModel.t :=
YearModel.mk (YearModel.description y_dict) (YearModel.year_code y_dict)
  (YearModel.authentication y_dict)
  (default (YearModel.model y_dict)
     (cache !! (Model.fipe_code (YearModel.model y_dict),
                Model.vehicle_type (YearModel.model y_dict)))).

End conversion_vocabulary.


Section run_vocabulary.
Import ExtractionResult Orchestrator.

(** The dictionary the worker of an execution returns. *)
Definition worker_dict (cfg : Config.t) (x : execution) : ExtractionResult.t :=
(_extract_worker cfg (service x) (started x) (task x)).1.

(** The identity keys a result holds, kind by kind. *)
Definition keys_of (r : ExtractionResult.t)
  : gset string * gset (string * string) * gset (string * string)
    * gset string * gset (string * string) :=
(period_keys r, brand_keys r, model_keys r, year_keys r, value_keys r).

(** [tasks[start:start + size]] *)
Definition slice {A} (size : nat) (l : list A) (start : nat) : list A :=
take size (drop start l).

(** Every task runs against the same service from the same clock
  reading, and no worker process breaks. *)
Definition steady (env : FipeClient.remote) (now : Z) (t : ExtractionTask)
  : execution :=
mk_execution t env now None.

Definition three_tasks : list ExtractionTask :=
[mk_task "a" (ReferencePeriod.mk "01/2024" 320) (Brand.mk "FIAT" 21 "car" None) 1;
 mk_task "b" (ReferencePeriod.mk "02/2024" 321) (Brand.mk "FIAT" 21 "car" None) 1;
 mk_task "c" (ReferencePeriod.mk "03/2024" 322) (Brand.mk "FIAT" 21 "car" None) 1].

(** One step of the loop that merges the results of a batch. *)
Definition absorb (acc result_dict : ExtractionResult.t) : ExtractionResult.t :=
merge acc (_dict_to_result result_dict).

End run_vocabulary.


Section retry_vocabulary.
Import FipeClient.

(** What a call makes of the outcome of its last attempt: a result or
  an exception that is not retryable is passed on; a retryable one is
  wrapped, the attempts being used up. *)
Definition settled (cfg : Config.t) (attempts : nat) (last_outcome : outcome Py.json)
  (result : outcome Py.json) : Prop :=
match last_outcome with
| Return body => result = Return body
| Raise e =>
    if retryable e
    then attempts = Z.to_nat (Z.max 1 (Config.MAX_RETRIES cfg))
         ∧ result = Raise (Py.RetryError e)
    else result = Raise e
end.

(** No character of [s] is [sep]. *)
Fixpoint free_of (sep : ascii) (s : string) : bool :=
match s with
| EmptyString => true
| String c rest => negb (Ascii.eqb c sep) && free_of sep rest
end.

(** The payload of a value lookup. *)
Definition value_payload (reference_table_code vehicle_type brand_code model_code : Z)
  (ano_modelo : string) (tipo_combustivel : Z) : list (string * py) :=
[("codigoTabelaReferencia", PInt reference_table_code);
 ("codigoTipoVeiculo", PInt vehicle_type);
 ("codigoMarca", PInt brand_code);
 ("codigoModelo", PInt model_code);
 ("anoModelo", PStr ano_modelo);
 ("codigoTipoCombustivel", PInt tipo_combustivel);
 ("tipoConsulta", PStr "tradicional")].

End retry_vocabulary.


Section reference_vocabulary.




Definition april_row : FromApi.row :=
FromApi.mk_row (Some 320) (Some "Abril/2025 ").

End reference_vocabulary.


Section task_vocabulary.
Import Orchestrator.

(** An item can be made a brand of. *)
Definition converts (vehicle_type_str period : string) (item : Body.item) : bool :=
match FromApi.brand_from_api_response item vehicle_type_str (Some period) with
| Return _ => true
| Raise _ => false
end.

(** The brands made of the items that can be. *)
Definition brands_of (vehicle_type_str period : string) (items : list Body.item)
  : list Brand.t :=
omap (λ item,
        match FromApi.brand_from_api_response item vehicle_type_str (Some period) with
        | Return brand => Some brand
        | Raise _ => None
        end) items.

(** Every brand with every period, brand by brand. *)
Definition pairs (brands : list Brand.t) (periods : list ReferencePeriod.t)
  : list (Brand.t * ReferencePeriod.t) :=
brands ≫= λ b, (λ p, (b, p)) <$> periods.

(** The task created after [i] others carries the [i]-th identifier. *)
Definition numbered (uuid : nat → string) (tasks : list ExtractionTask) : Prop :=
∀ i t, tasks !! i = Some t → task_id t = uuid i.

Definition two_brands : Py.json :=
Py.Array [list_to_map [("Label", "FIAT"); ("Value", "21")];
          list_to_map [("Label", "FORD"); ("Value", "22")]].

End task_vocabulary.


Section order_vocabulary.
Import ExtractionResult FileHandler.

(** [before] is the strict part of a total order on keys: it never
  holds both ways, its negation is transitive, and two keys neither of
  which is before the other are the same. *)
Record strict_order {K} (before : K → K → bool) : Prop := {
asymmetric : ∀ a b, before a b = true → before b a = false;
negatively_transitive :
  ∀ a b c, before b a = false → before c b = false → before c a = false;
trichotomous : ∀ a b, before a b = false → before b a = false → a = b
}.

(** Every entity of [l] is followed only by entities that do not sort
  before it. *)
Fixpoint ordered {A K} (key : A → K) (before : K → K → bool) (l : list A) : Prop :=
match l with
| [] => True
| x :: rest =>
    Forall (λ y, before (key y) (key x) = false) rest ∧ ordered key before rest
end.

(** No entity of [l] sorts before an entity that precedes it. *)
Definition in_order {A K} (key : A → K) (before : K → K → bool) (l : list A) : Prop :=
∀ i j x y, (i < j)%nat → l !! i = Some x → l !! j = Some y →
           before (key y) (key x) = false.

End order_vocabulary.


Section scraper_vocabulary.
Import Process.

(** The vehicle type of the model at an address. *)
Definition vehicle_type_at (p : Process.t) (a : nat) : string :=
Model.vehicle_type (model_to_dict p a).

(** The address [a] holds a model of one of the [brands], of the vehicle
  type of its brand, whose fipe_code is still the placeholder. *)
Definition placeholder (brands : list Brand.t) (p : Process.t) (a : nat) : Prop :=
∃ m, model_store p !! a = Some m
     ∧ Model.fipe_code m = ""
     ∧ Model.brand m ∈ brands
     ∧ Model.vehicle_type m = Brand.vehicle_type (Model.brand m).

(** What the loops of [ModelScraper.extract] keep: the models gathered
  are placeholders of distinct vehicle types, and [seen_models] holds
  their keys. *)
Record gathered (brands : list Brand.t) (p : Process.t) (models : list nat)
  (seen_models : gset (string * string)) : Prop := {
gathered_placeholders : Forall (placeholder brands p) models;
gathered_distinct : NoDup (vehicle_type_at p <$> models);
gathered_seen : ∀ key, key ∈ seen_models
                ↔ ∃ a, a ∈ models ∧ key = ("", vehicle_type_at p a)
}.

(** A service that lists two models for every brand. *)
Definition two_models_service : FipeClient.remote :=
FipeClient.mk_remote (λ _ _, ok two_models) (λ _, 0%nat) at_midnight.

End scraper_vocabulary.


Section value_scraper_vocabulary.
Import Process ValueScraper.

(** The authentication of the year-model at an address. *)
Definition authentication_at (p : Process.t) (a : nat) : string :=
YearModel.authentication (year_model_to_dict p a).

(** What the loops of [ValueScraper.extract] keep, in a process [p]
  whose year-models below [bound] are those the loops are done with:
  the values gathered are those of the year-models gathered, one for
  one; the year-models were allocated from [base] on, their
  authentications are not empty and differ from one another; the two
  sets hold their keys. *)
Record paired_up (period : string) (base : nat) (p : Process.t) (bound : nat)
  (acc : collected) : Prop := {
pu_values : FipeValueObj.year_model <$> all_fipe_values acc = all_year_models acc;
pu_period : Forall (λ v, FipeValueObj.reference_period v = period)
              (all_fipe_values acc);
pu_bound : (base ≤ bound)%nat;
pu_fresh : Forall (λ a, (base ≤ a < bound)%nat) (all_year_models acc);
pu_truthy : Forall (λ k, truthy k = true)
              (authentication_at p <$> all_year_models acc);
pu_distinct : NoDup (authentication_at p <$> all_year_models acc);
pu_seen_year : ∀ k, k ∈ seen_year_models acc
               ↔ k ∈ authentication_at p <$> all_year_models acc;
pu_seen_value : ∀ k r, (k, r) ∈ seen_fipe_values acc
                ↔ r = period ∧ k ∈ seen_year_models acc
}.

(** What [ValueScraper.extract] returns from a process [p], leaving it
  as [p']: the values are those of the year-models, one for one and in
  order, all of the period asked for; the year-models were created by
  the call, and their authentications, as they are when the call
  returns, are not empty and differ from one another. *)
Definition well_paired (period : ReferencePeriod.t) (p p' : Process.t)
  (returned : list nat * list FipeValueObj.t) : Prop :=
FipeValueObj.year_model <$> returned.2 = returned.1
∧ Forall (λ v, FipeValueObj.reference_period v = ReferencePeriod.period period)
    returned.2
∧ Forall (λ a, (length (year_store p) ≤ a < length (year_store p'))%nat) returned.1
∧ Forall (λ a, truthy (authentication_at p' a) = true) returned.1
∧ NoDup (authentication_at p' <$> returned.1).

(** A service that lists two years for every model and answers every
  value lookup with the same authentication. *)
Definition repeating_service : FipeClient.remote :=
FipeClient.mk_remote
  (λ _ rq,
     if String.eqb (FipeClient.endpoint rq) "ConsultarAnoModelo"
     then ok (Py.Array [list_to_map [("Label", "2024 Gasoline"); ("Value", "2024-1")];
                        list_to_map [("Label", "2023 Gasoline"); ("Value", "2023-1")]])
     else ok (Py.Object (list_to_map
                [("Valor", "R$ 35.000,00"); ("CodigoFipe", "001004-9");
                 ("Autenticacao", "abc123"); ("Combustivel", "Gasoline")])))
  (λ _, 0%nat) at_midnight.

End value_scraper_vocabulary.


Section fragment_vocabulary.
Import Process.

(** A model of the brand, of the vehicle type of the brand. *)
Definition belongs_to (brand : Brand.t) (m : Model.t) : Prop :=
Model.brand m = brand ∧ Model.vehicle_type m = Brand.vehicle_type brand.

(** What every step of the worker of a task for [brand] keeps: the
  models of the process are models of the brand; every year-model
  belongs to a model of the process; the models and year-models listed
  in the result exist; and the values listed are those of the
  year-models listed, one for one. *)
Record consistent (brand : Brand.t) (p : Process.t) : Prop := {
models_of_brand : Forall (belongs_to brand) (model_store p);
owners_exist : Forall (λ y, (YearModelObj.model y < length (model_store p))%nat)
                 (year_store p);
listed_models_exist : Forall (λ a, (a < length (model_store p))%nat) (models (res p));
listed_years_exist : Forall (λ b, (b < length (year_store p))%nat)
                       (year_models (res p));
values_paired : FipeValueObj.year_model <$> fipe_values (res p) = year_models (res p)
}.

End fragment_vocabulary.


(** * Properties *)

Set Warnings "-clear-no-such-hyp".


Section merge_properties.
Import ExtractionResult.

Section merge_facts.
Context {A K : Type} `{Countable K} (key : A → K).

Lemma merge_loop_fresh other : ∀ self existing,
merge_loop key other self existing
= (self ++ fresh key other existing,
   existing ∪ list_to_set (key <$> fresh key other existing)).
Proof.
induction other as [|x rest IH]; intros self existing; simpl.
- rewrite app_nil_r. f_equal. set_solver.
- destruct (decide (key x ∈ existing)) as [Hin|Hin].
  + apply IH.
  + rewrite IH, <- app_assoc. simpl. f_equal.
    apply leibniz_equiv. set_solver.
Qed.

Lemma existing_of_app (l l' : list A) :
existing_of key (l ++ l') = existing_of key l ∪ existing_of key l'.
Proof.
unfold existing_of. rewrite fmap_app. apply leibniz_equiv.
apply list_to_set_app.
Qed.

Lemma elem_of_existing_of (k : K) (l : list A) :
k ∈ existing_of key l ↔ ∃ x, x ∈ l ∧ key x = k.
Proof.
unfold existing_of. rewrite elem_of_list_to_set, list_elem_of_fmap.
naive_solver.
Qed.

Lemma fresh_not_existing other : ∀ existing x,
x ∈ fresh key other existing → x ∈ other ∧ key x ∉ existing.
Proof.
induction other as [|y rest IH]; intros existing x; simpl.
- intros Hx. inversion Hx.
- destruct (decide (key y ∈ existing)) as [Hin|Hin].
  + intros Hx. apply IH in Hx as [? ?]. split; [by right | done].
  + intros Hx. apply elem_of_cons in Hx as [->|Hx].
    * split; [by left | done].
    * apply IH in Hx as [? Hn]. split; [by right | set_solver].
Qed.

Lemma fresh_keys other : ∀ existing,
existing ∪ existing_of key (fresh key other existing)
= existing ∪ existing_of key other.
Proof.
induction other as [|y rest IH]; intros existing; simpl; [done|].
destruct (decide (key y ∈ existing)) as [Hin|Hin].
- rewrite IH. unfold existing_of. simpl. apply leibniz_equiv. set_solver.
- specialize (IH ({[key y]} ∪ existing)).
  unfold existing_of in *. simpl. apply leibniz_equiv.
  apply leibniz_equiv_iff in IH. set_solver.
Qed.

Lemma fresh_NoDup other : ∀ existing, NoDup (key <$> fresh key other existing).
Proof.
induction other as [|y rest IH]; intros existing; simpl.
- constructor.
- destruct (decide (key y ∈ existing)) as [Hin|Hin]; [apply IH|].
  simpl. constructor; [|apply IH].
  intros Hy. apply list_elem_of_fmap in Hy as (x & Hk & Hx).
  apply fresh_not_existing in Hx as [_ Hx]. rewrite <- Hk in Hx. set_solver.
Qed.

Lemma merge_list_fresh self other :
merge_list key self other = self ++ fresh key other (existing_of key self).
Proof. unfold merge_list. by rewrite merge_loop_fresh. Qed.

Lemma merge_list_keys self other :
existing_of key (merge_list key self other)
= existing_of key self ∪ existing_of key other.
Proof. by rewrite merge_list_fresh, existing_of_app, fresh_keys. Qed.

Lemma with_key_app k (l l' : list A) :
with_key key k (l ++ l') = with_key key k l ++ with_key key k l'.
Proof. apply filter_app. Qed.

Lemma with_key_absent k (l : list A) :
k ∉ existing_of key l → with_key key k l = [].
Proof.
intros Hk. unfold with_key. induction l as [|x l IH]; [done|].
rewrite filter_cons. destruct (decide (key x = k)) as [Heq|Hne].
- exfalso. apply Hk, elem_of_existing_of. exists x. split; [by left | done].
- apply IH. intros Hin. apply Hk. apply elem_of_existing_of in Hin as (y & ? & ?).
  apply elem_of_existing_of. exists y. split; [by right | done].
Qed.

(** First seen wins: the entities held under a key of [self] are those
  [self] held before the merge. *)
Lemma merge_list_retains self other k :
k ∈ existing_of key self →
with_key key k (merge_list key self other) = with_key key k self.
Proof.
intros Hk. rewrite merge_list_fresh, with_key_app.
rewrite (with_key_absent k (fresh key _ _)); [by rewrite app_nil_r|].
intros Hin. apply elem_of_existing_of in Hin as (x & Hx & Hkx).
apply fresh_not_existing in Hx as [_ Hx]. by rewrite Hkx in Hx.
Qed.

Lemma merge_list_same self : merge_list key self self = self.
Proof.
rewrite merge_list_fresh.
assert (∀ l E, existing_of key l ⊆ E → fresh key l E = []) as Hf.
{ induction l as [|x l IH]; intros E HE; simpl; [done|].
  destruct (decide (key x ∈ E)) as [Hin|Hin].
  - apply IH. unfold existing_of in *. simpl in HE. set_solver.
  - exfalso. apply Hin, HE. unfold existing_of. simpl. set_solver. }
rewrite Hf; [apply app_nil_r | done].
Qed.

Lemma merge_loop_live_same (self : list A) : ∀ fuel i,
(length self - i < fuel)%nat →
merge_loop_live key fuel i self (existing_of key self)
= Some (self, existing_of key self).
Proof.
induction fuel as [|fuel IH]; intros i Hlen; simpl; [lia|].
destruct (self !! i) as [x|] eqn:Hi; [|done].
- destruct (decide (key x ∈ existing_of key self)) as [Hin|Hin].
  + apply IH. apply lookup_lt_Some in Hi. lia.
  + exfalso. apply Hin, elem_of_existing_of. exists x.
    split; [|done]. eapply list_elem_of_lookup_2. exact Hi.
Qed.
End merge_facts.

(** [__eq__] of every entity compares the fields [__hash__] hashes: two
  entities are equal exactly when their identity keys are. *)
Lemma eq_iff_key :
(∀ p q, ReferencePeriod.eq p q = true ↔ ReferencePeriod.key p = ReferencePeriod.key q)
∧ (∀ b c, Brand.eq b c = true ↔ Brand.key b = Brand.key c)
∧ (∀ m n, Model.eq m n = true ↔ Model.key m = Model.key n)
∧ (∀ y z, YearModel.eq y z = true ↔ YearModel.key y = YearModel.key z)
∧ (∀ v w, FipeValue.eq v w = true ↔ FipeValue.key v = FipeValue.key w).
Proof.
split; [|split; [|split; [|split]]].
- intros p q. unfold ReferencePeriod.eq, ReferencePeriod.key.
  by rewrite bool_decide_eq_true.
- intros b c. unfold Brand.eq, Brand.key.
  rewrite andb_true_iff, !bool_decide_eq_true.
  split; [intros [-> ->]; done | intros [= -> ->]; done].
- intros m n. unfold Model.eq, Model.key.
  rewrite andb_true_iff, !bool_decide_eq_true.
  split; [intros [-> ->]; done | intros [= -> ->]; done].
- intros y z. unfold YearModel.eq, YearModel.key.
  by rewrite bool_decide_eq_true.
- intros v w. unfold FipeValue.eq, FipeValue.key.
  rewrite andb_true_iff, !bool_decide_eq_true.
  split; [intros [-> ->]; done | intros [= -> ->]; done].
Qed.

(** A model whose fipe_code has been filled in has another identity than
  the same model with an empty fipe_code: a merge keeps both. *)
Lemma merge_keeps_both_fipe_codes :
let empty_code := Model.mk "UNO" 123 "" brand_unresolved "car" in
let filled := Model.mk "UNO" 123 "001004-9" brand_unresolved "car" in
models (merge (mk [] [] [empty_code] [] []) (mk [] [] [filled] [] []))
= [empty_code; filled].
Proof. vm_compute. reflexivity. Qed.

(** C4.  [merge(target, source)] keeps, under every identity key [target]
  already holds, exactly the entities [target] held: a [source] entity
  with such a key is discarded whatever its other attributes.  The
  identity keys held after merging [target] with [source] are those held
  after merging [source] with [target], for each of the five kinds, while
  the entity retained under a key may differ with the order: of two
  brands with one key, each order retains the one it saw first. *)
Theorem merge_first_seen_wins (target source : ExtractionResult.t) :
(first_seen_wins ReferencePeriod.key (reference_periods target)
   (reference_periods (merge target source))
 ∧ first_seen_wins Brand.key (brands target) (brands (merge target source))
 ∧ first_seen_wins Model.key (models target) (models (merge target source))
 ∧ first_seen_wins YearModel.key (year_models target)
     (year_models (merge target source))
 ∧ first_seen_wins FipeValue.key (fipe_values target)
     (fipe_values (merge target source)))
∧ (period_keys (merge target source) = period_keys (merge source target)
   ∧ brand_keys (merge target source) = brand_keys (merge source target)
   ∧ model_keys (merge target source) = model_keys (merge source target)
   ∧ year_keys (merge target source) = year_keys (merge source target)
   ∧ value_keys (merge target source) = value_keys (merge source target))
∧ (Brand.key brand_resolved = Brand.key brand_unresolved
   ∧ brands (merge result_a result_b) = [brand_unresolved]
   ∧ brands (merge result_b result_a) = [brand_resolved]
   ∧ brand_keys (merge result_a result_b) = brand_keys (merge result_b result_a)).
Proof.
split; [|split].
- unfold first_seen_wins; simpl.
  repeat split; intros k Hk; by apply merge_list_retains.
- unfold period_keys, brand_keys, model_keys, year_keys, value_keys; simpl.
  rewrite !merge_list_keys.
  repeat split; apply leibniz_equiv; set_solver.
- repeat split; vm_compute; reflexivity.
Qed.

Lemma merge_list_live_same {A K} `{Countable K} (key : A → K) (self : list A) fuel :
(length self < fuel)%nat → merge_list_live key fuel self = Some self.
Proof.
intros Hlen. unfold merge_list_live.
rewrite merge_loop_live_same; [done | lia].
Qed.

(** C8.  Merging a result into itself changes nothing: [R.merge(R)], where
  the loops iterate over the very lists they append to, terminates and
  leaves [R] as it was, and so does merging an equal copy; the count of
  each of the five collections is unchanged. *)
Theorem merge_idempotent (R : ExtractionResult.t) :
merge_self (S (largest R)) R = Some R
∧ merge R R = R
∧ counts (merge R R) = counts R.
Proof.
assert (merge R R = R) as Hm.
{ destruct R; unfold merge; simpl. by rewrite !merge_list_same. }
split; [|by rewrite Hm].
unfold merge_self, largest.
rewrite !merge_list_live_same by lia. simpl. by destruct R.
Qed.


End merge_properties.


Section consolidation_properties.
Import ExtractionResult FileHandler.

Section more_merge_facts.
Context {A K : Type} `{Countable K} (key : A → K).

Lemma fresh_head k other : ∀ existing,
k ∉ existing →
head (with_key key k (fresh key other existing)) = head (with_key key k other).
Proof.
unfold with_key.
induction other as [|x rest IH]; intros existing Hk; simpl; [done|].
destruct (decide (key x ∈ existing)) as [Hin|Hin].
- rewrite filter_cons. destruct (decide (key x = k)) as [Heq|Hne].
  + exfalso. by rewrite Heq in Hin.
  + by apply IH.
- rewrite !filter_cons. destruct (decide (key x = k)) as [Heq|Hne]; [done|].
  apply IH. set_solver.
Qed.

Lemma with_key_nil_absent k (l : list A) :
with_key key k l = [] → k ∉ existing_of key l.
Proof.
intros Hnil Hin. apply elem_of_existing_of in Hin as (x & Hx & Hkx).
assert (x ∈ with_key key k l) as Hm by (by apply list_elem_of_filter).
rewrite Hnil in Hm. inversion Hm.
Qed.

Lemma head_app_with_key k (l1 l2 l2' : list A) :
(with_key key k l1 = [] → head (with_key key k l2) = head (with_key key k l2')) →
head (with_key key k (l1 ++ l2)) = head (with_key key k (l1 ++ l2')).
Proof.
intros Hh. rewrite !with_key_app.
destruct (with_key key k l1) as [|y ys] eqn:Hl1; simpl; [by apply Hh | done].
Qed.

(** First seen wins, across the two lists. *)
Lemma merge_list_head k self other :
head (with_key key k (merge_list key self other))
= head (with_key key k (self ++ other)).
Proof.
rewrite merge_list_fresh. apply head_app_with_key.
intros Hnil. apply fresh_head. by apply with_key_nil_absent.
Qed.

Lemma merge_list_NoDup self other :
NoDup (key <$> self) → NoDup (key <$> merge_list key self other).
Proof.
intros Hs. rewrite merge_list_fresh, fmap_app. apply NoDup_app.
split; [done|]. split; [|apply fresh_NoDup].
intros k Hk1 Hk2. apply list_elem_of_fmap in Hk2 as (x & -> & Hx).
apply fresh_not_existing in Hx as [_ Hx]. apply Hx.
unfold existing_of. by apply elem_of_list_to_set.
Qed.

Lemma with_key_NoDup_length k (l : list A) :
NoDup (key <$> l) → (length (with_key key k l) ≤ 1)%nat.
Proof.
unfold with_key. induction l as [|x l IH]; simpl; [lia|].
intros Hnd. apply NoDup_cons in Hnd as [Hx Hnd].
rewrite filter_cons. destruct (decide (key x = k)) as [Heq|Hne]; [|by apply IH].
simpl. fold (with_key key k l). rewrite (with_key_absent key k l); [simpl; lia|].
intros Hin. apply Hx. rewrite Heq. unfold existing_of in Hin.
by apply elem_of_list_to_set in Hin.
Qed.

Lemma with_key_present k (l : list A) :
k ∈ existing_of key l → (1 ≤ length (with_key key k l))%nat.
Proof.
intros Hin. apply elem_of_existing_of in Hin as (x & Hx & Hkx).
assert (x ∈ with_key key k l) as Hm by (by apply list_elem_of_filter).
destruct (with_key key k l); [inversion Hm | simpl; lia].
Qed.

Lemma head_with_key_app k (l r : list A) :
head (with_key key k (l ++ r))
= match head (with_key key k l) with
  | Some x => Some x
  | None => head (with_key key k r)
  end.
Proof. rewrite with_key_app. by destruct (with_key key k l). Qed.

(** Folding the merge over a sequence of lists. *)
Lemma foldl_merge_head k (ls : list (list A)) : ∀ acc,
head (with_key key k (foldl (merge_list key) acc ls))
= head (with_key key k (acc ++ mjoin ls)).
Proof.
induction ls as [|l ls IH]; intros acc; simpl.
- by rewrite app_nil_r.
- rewrite IH, app_assoc, !(head_with_key_app k _ (mjoin ls)).
  by rewrite merge_list_head.
Qed.

Lemma foldl_merge_head_nil k (ls : list (list A)) :
head (with_key key k (foldl (merge_list key) [] ls))
= head (with_key key k (mjoin ls)).
Proof. apply foldl_merge_head. Qed.

Lemma foldl_merge_NoDup (ls : list (list A)) : ∀ acc,
NoDup (key <$> acc) → NoDup (key <$> foldl (merge_list key) acc ls).
Proof.
induction ls as [|l ls IH]; intros acc Hacc; simpl; [done|].
by apply IH, merge_list_NoDup.
Qed.

Lemma foldl_merge_keys (ls : list (list A)) : ∀ acc,
existing_of key (foldl (merge_list key) acc ls)
= existing_of key acc ∪ existing_of key (mjoin ls).
Proof.
induction ls as [|l ls IH]; intros acc; simpl.
- unfold existing_of at 3. simpl. apply leibniz_equiv. set_solver.
- rewrite IH, merge_list_keys, existing_of_app. apply leibniz_equiv. set_solver.
Qed.

(** Exactly one entity is held under a key that occurs at all. *)
Lemma foldl_merge_once k (ls : list (list A)) :
k ∈ existing_of key (mjoin ls) →
length (with_key key k (foldl (merge_list key) [] ls)) = 1%nat.
Proof.
intros Hk.
pose proof (with_key_NoDup_length k (foldl (merge_list key) [] ls)
              (foldl_merge_NoDup ls [] (NoDup_nil_2))) as Hle.
pose proof (with_key_present k (foldl (merge_list key) [] ls)) as Hge.
rewrite foldl_merge_keys in Hge.
assert (k ∈ existing_of key [] ∪ existing_of key (mjoin ls)) as Hin by set_solver.
apply Hge in Hin. lia.
Qed.
End more_merge_facts.

(** consolidate_loop is the merge loop on the entries that pass the guard *)
Section loop_facts.
Context {A K : Type} `{Countable K} (key : A → K) (key0 : A → string).

Lemma consolidate_loop_merge items : ∀ acc seen,
consolidate_loop key key0 items acc seen
= merge_loop key (nonempty key0 items) acc seen.
Proof.
unfold nonempty.
induction items as [|x rest IH]; intros acc seen; simpl; [done|].
rewrite filter_cons.
destruct (truthy (key0 x)) eqn:Ht; simpl.
- destruct (decide (true = true)) as [_|Hne]; [|done]. simpl.
  destruct (decide (key x ∈ seen)) as [Hin|Hin].
  + rewrite bool_decide_eq_false_2 by (intros Hn; by apply Hn). apply IH.
  + rewrite bool_decide_eq_true_2 by done. apply IH.
- destruct (decide (false = true)) as [Heq|_]; [done|]. apply IH.
Qed.

Lemma merge_loop_list items acc :
merge_loop key items acc (existing_of key acc)
= (merge_list key acc items, existing_of key (merge_list key acc items)).
Proof.
rewrite merge_list_fresh, merge_loop_fresh. f_equal.
by rewrite existing_of_app.
Qed.
End loop_facts.

Lemma consolidate_file_merge acc doc :
in_step acc →
in_step (consolidate_file acc doc)
∧ consolidated (consolidate_file acc doc)
  = match get_arrays doc with
    | None => consolidated acc
    | Some d => file_merge (consolidated acc) d
    end.
Proof.
intros Hacc. pose proof Hacc as (Hp & Hb & Hm & Hy & Hv).
unfold consolidate_file.
destruct (get_arrays doc) as [d|]; [|by split].
rewrite !consolidate_loop_merge, Hp, Hb, Hm, Hy, Hv, !merge_loop_list.
split; [by repeat split | reflexivity].
Qed.

Lemma foldl_consolidate_file docs : ∀ acc,
in_step acc →
consolidated (foldl consolidate_file acc docs)
= foldl file_merge (consolidated acc) (omap get_arrays docs).
Proof.
induction docs as [|doc docs IH]; intros acc Hacc; simpl; [done|].
destruct (consolidate_file_merge acc doc Hacc) as [Hstep Heq].
rewrite IH by done. rewrite Heq.
by destruct (get_arrays doc).
Qed.

Lemma in_step_start : in_step start.
Proof. unfold in_step. simpl. repeat split. Qed.

Lemma consolidate_partials_merge dir out :
consolidate_partials dir = Some out →
out = sort_consolidated (foldl file_merge ExtractionResult.empty (read dir)).
Proof.
unfold consolidate_partials, read.
destruct (list_partial_files dir) as [|e es] eqn:Hfiles; [done|].
intros [= <-]. f_equal.
exact (foldl_consolidate_file (snd <$> e :: es) start in_step_start).
Qed.

Lemma foldl_file_merge docs : ∀ acc,
foldl file_merge acc docs
= mk (foldl (merge_list period_key) (reference_periods acc)
        ((reference_periods ∘ guarded) <$> docs))
     (foldl (merge_list brand_key) (brands acc) ((brands ∘ guarded) <$> docs))
     (foldl (merge_list model_key) (models acc) ((models ∘ guarded) <$> docs))
     (foldl (merge_list year_key) (year_models acc)
        ((year_models ∘ guarded) <$> docs))
     (foldl (merge_list value_key) (fipe_values acc)
        ((fipe_values ∘ guarded) <$> docs)).
Proof.
induction docs as [|d docs IH]; intros acc; simpl; [by destruct acc|].
by rewrite IH.
Qed.

Section sort_facts.
Context {A K : Type} (key : A → K) (before : K → K → bool).

Lemma insert_sorted_Permutation x l :
insert_sorted key before x l ≡ₚ x :: l.
Proof.
induction l as [|y l IH]; simpl; [done|].
destruct (before (key y) (key x)); [|done].
rewrite IH. apply Permutation_swap.
Qed.

Lemma sort_by_Permutation l : sort_by key before l ≡ₚ l.
Proof.
induction l as [|x l IH]; simpl; [done|].
by rewrite insert_sorted_Permutation, IH.
Qed.
End sort_facts.

Lemma head_with_key_Permutation {A K} `{Countable K} (key : A → K) k (l l' : list A) :
l ≡ₚ l' → NoDup (key <$> l') →
head (with_key key k l) = head (with_key key k l').
Proof.
intros Hp Hnd.
assert (with_key key k l ≡ₚ with_key key k l') as Hw.
{ unfold with_key. by rewrite Hp. }
pose proof (with_key_NoDup_length key k l' Hnd) as Hlen.
destruct (with_key key k l') as [|y [|z ys]]; simpl in Hlen; [| |lia].
- apply Permutation_nil_r in Hw. by rewrite Hw.
- apply Permutation_singleton_r in Hw. by rewrite Hw.
Qed.

Lemma elem_of_all_of {A} (kind : ExtractionResult.t → list A) docs d x :
d ∈ docs → x ∈ kind d → x ∈ all_of kind docs.
Proof.
intros Hd Hx. unfold all_of. apply list_elem_of_join. exists (kind d).
split; [done|]. apply list_elem_of_fmap. by exists d.
Qed.

(** C1, as stated, fails.  Two partial files hold a value under the same
  (authentication, referencePeriod) key, with an empty authentication:
  the consolidated output holds no value under that key, where the
  in-memory merge of the two holds one.  The two files hold year-models
  under one authentication whose models differ: consolidation keeps both,
  the in-memory merge one. *)
Lemma consolidation_drops_and_splits :
uno_value "" "R$ 35.000,00" ∈ fipe_values unresolved_a
∧ uno_value "" "R$ 36.000,00" ∈ fipe_values unresolved_b
∧ FipeValue.key (uno_value "" "R$ 35.000,00")
  = FipeValue.key (uno_value "" "R$ 36.000,00")
∧ ∃ out,
    consolidate_partials unresolved_dir = Some out
    ∧ with_key FipeValue.key ("", "01/2024") (fipe_values out) = []
    ∧ fipe_values (merge (merge ExtractionResult.empty unresolved_a) unresolved_b)
      = [uno_value "" "R$ 35.000,00"]
    ∧ year_models out = [uno_2024 "abc123" "001004-9"; uno_2024 "abc123" "001005-7"]
    ∧ year_models (merge (merge ExtractionResult.empty unresolved_a) unresolved_b)
      = [uno_2024 "abc123" "001004-9"].
Proof.
split; [by left|]. split; [by left|]. split; [reflexivity|].
eexists. split; [vm_compute; reflexivity|].
repeat split; vm_compute; reflexivity.
Qed.

(** C1, amended.  When the directory has a partial file, consolidation
  writes the sorted fold, over the entity arrays read from the files in
  the order they are listed, of [file_merge]: the in-memory merge applied
  to the entities whose first key component is not empty, except that
  year-models are keyed on (authentication, fipe_code of the model).  In
  particular, when two files each hold a value under one
  (authentication, referencePeriod) key with a non-empty authentication,
  the output holds exactly one value under that key. *)
Theorem consolidation_refines_merge (dir : directory) :
list_partial_files dir ≠ [] →
∃ out,
  consolidate_partials dir = Some out
  ∧ out = sort_consolidated (foldl file_merge ExtractionResult.empty (read dir))
  ∧ ∀ d1 d2 v1 v2,
      d1 ∈ read dir → d2 ∈ read dir →
      v1 ∈ fipe_values d1 → v2 ∈ fipe_values d2 →
      FipeValue.key v1 = FipeValue.key v2 →
      truthy (FipeValue.key v1).1 = true →
      length (with_key FipeValue.key (FipeValue.key v1) (fipe_values out)) = 1%nat.
Proof.
intros Hne.
destruct (consolidate_partials dir) as [out|] eqn:Hout.
- exists out. split; [done|].
  apply consolidate_partials_merge in Hout. split; [done|].
  intros d1 d2 v1 v2 Hd1 _ Hv1 _ _ Hauth. subst out.
  rewrite foldl_file_merge. simpl.
  apply (foldl_merge_once value_key).
  apply elem_of_existing_of. exists v1. split; [|done].
  apply (elem_of_all_of (fipe_values ∘ guarded) _ d1); [done|].
  simpl. unfold nonempty. by apply list_elem_of_filter.
- exfalso. unfold consolidate_partials in Hout.
  by destruct (list_partial_files dir).
Qed.

Lemma consolidation_refines_merge_witness :
∃ out,
  consolidate_partials unordered_dir = Some out
  ∧ length (with_key FipeValue.key ("abc123", "01/2024") (fipe_values out)) = 1%nat.
Proof.
destruct (consolidation_refines_merge unordered_dir) as (out & Hout & _ & Hone).
- vm_compute. discriminate.
- exists out. split; [exact Hout|].
  apply (Hone first_listed second_listed
           (uno_value "abc123" "R$ 36.000,00") (uno_value "abc123" "R$ 35.000,00")).
  + vm_compute. by left.
  + vm_compute. right. by left.
  + by left.
  + by left.
  + reflexivity.
  + reflexivity.
Defined.

(** C7, as stated, fails.  The directory lists [batch_1.json] before
  [batch_0.json]; both hold a value under the same key.  The output
  retains the value of [batch_1.json], the file listed first, and not
  that of [batch_0.json], the first by name, which processing in the
  order of the names would retain. *)
Lemma consolidation_ignores_filename_order :
str_lt "batch_0.json" "batch_1.json" = true
∧ second_listed ∈ read (Some [("batch_0.json", Arrays second_listed)])
∧ consolidate_partials unordered_dir = Some first_listed
∧ consolidate_partials (in_filename_order unordered_dir) = Some second_listed
∧ first_listed ≠ second_listed.
Proof.
split; [reflexivity|]. split; [vm_compute; by left|].
split; [vm_compute; reflexivity|]. split; [vm_compute; reflexivity|].
discriminate.
Qed.

(** C7, amended.  Consolidation processes the partial files in the order
  in which the directory lists them.  For each kind and each key, the
  entity the output retains under the key is the first one with that key
  among the entities with a non-empty first key component, the files
  taken in that order and each file's array from its start. *)
Theorem consolidation_first_listed_wins (dir : directory) :
list_partial_files dir ≠ [] →
∃ out,
  consolidate_partials dir = Some out
  ∧ (∀ k, head (with_key period_key k (reference_periods out))
          = head (with_key period_key k
                    (all_of (reference_periods ∘ guarded) (read dir))))
  ∧ (∀ k, head (with_key brand_key k (brands out))
          = head (with_key brand_key k (all_of (brands ∘ guarded) (read dir))))
  ∧ (∀ k, head (with_key model_key k (models out))
          = head (with_key model_key k (all_of (models ∘ guarded) (read dir))))
  ∧ (∀ k, head (with_key year_key k (year_models out))
          = head (with_key year_key k (all_of (year_models ∘ guarded) (read dir))))
  ∧ (∀ k, head (with_key value_key k (fipe_values out))
          = head (with_key value_key k (all_of (fipe_values ∘ guarded) (read dir)))).
Proof.
intros Hne.
destruct (consolidate_partials dir) as [out|] eqn:Hout.
2: { exfalso. unfold consolidate_partials in Hout.
     by destruct (list_partial_files dir). }
exists out. split; [done|].
apply consolidate_partials_merge in Hout. subst out.
rewrite foldl_file_merge. unfold sort_consolidated, all_of. simpl.
repeat split; intros k.
- rewrite <- (foldl_merge_head_nil period_key k).
  apply head_with_key_Permutation; [apply sort_by_Permutation|].
  by apply foldl_merge_NoDup, NoDup_nil_2.
- rewrite <- (foldl_merge_head_nil brand_key k).
  apply head_with_key_Permutation; [apply sort_by_Permutation|].
  by apply foldl_merge_NoDup, NoDup_nil_2.
- rewrite <- (foldl_merge_head_nil model_key k).
  apply head_with_key_Permutation; [apply sort_by_Permutation|].
  by apply foldl_merge_NoDup, NoDup_nil_2.
- by rewrite <- (foldl_merge_head_nil year_key k).
- by rewrite <- (foldl_merge_head_nil value_key k).
Qed.

Lemma consolidation_first_listed_wins_witness :
∃ out,
  consolidate_partials unordered_dir = Some out
  ∧ head (with_key value_key ("abc123", "01/2024") (fipe_values out))
    = Some (uno_value "abc123" "R$ 36.000,00").
Proof.
destruct (consolidation_first_listed_wins unordered_dir)
  as (out & Hout & _ & _ & _ & _ & Hv).
- vm_compute. discriminate.
- exists out. split; [exact Hout|]. rewrite Hv. reflexivity.
Defined.


End consolidation_properties.


Section client_properties.
Import FipeClient.

Section client_facts.
Context (cfg : Config.t) (env : remote).

Lemma wait_stamp c :
_last_request_time (_wait_for_rate_limit cfg env c)
= clock (_wait_for_rate_limit cfg env c).
Proof.
unfold _wait_for_rate_limit, time_time. simpl.
by destruct (_ <? _).
Qed.

Lemma wait_paces c :
_last_request_time c + Config.DELAY_BETWEEN_REQUESTS cfg
≤ _last_request_time (_wait_for_rate_limit cfg env c).
Proof.
unfold _wait_for_rate_limit, time_time. simpl.
destruct (_ <? _) eqn:Hlt; simpl.
- lia.
- apply Z.ltb_ge in Hlt. lia.
Qed.

Lemma wait_frame c :
invocations (_wait_for_rate_limit cfg env c) = invocations c
∧ dispatched (_wait_for_rate_limit cfg env c) = dispatched c
∧ log (_wait_for_rate_limit cfg env c) = log c.
Proof.
unfold _wait_for_rate_limit, time_time. simpl.
by destruct (_ <? _).
Qed.

Lemma foldr_emit_frame logged c :
clock (foldr emit c logged) = clock c
∧ steps (foldr emit c logged) = steps c
∧ invocations (foldr emit c logged) = invocations c
∧ dispatched (foldr emit c logged) = dispatched c
∧ _last_request_time (foldr emit c logged) = _last_request_time c.
Proof. induction logged as [|r logged IH]; simpl; [done|]. apply IH. Qed.

(** One attempt: its result is decided by the POST it makes; it makes
  exactly one, after the pacing wait. *)
Lemma attempt_spec rq c :
let w := _wait_for_rate_limit cfg env c in
let r := (attempt cfg env rq c).1 in
let c' := (attempt cfg env rq c).2 in
r = attempt_outcome (post env (invocations c) rq)
∧ invocations c' = S (invocations c)
∧ dispatched c' = clock (tick env w) :: dispatched c
∧ _last_request_time c' = _last_request_time w.
Proof.
pose proof (wait_frame c) as (Hi & Hd & _).
unfold attempt, session_post.
remember (_wait_for_rate_limit cfg env c) as w eqn:Hw. clear Hw.
simpl. rewrite Hi, Hd.
destruct (post env (invocations c) rq) as [resp|e].
- simpl. destruct (classify resp) as [res logged] eqn:Hc. simpl.
  match goal with |- context [foldr emit ?c0 logged] =>
    pose proof (foldr_emit_frame logged c0) as (_ & _ & Hi' & Hd' & Hl')
  end.
  rewrite Hi', Hd', Hl'. done.
- destruct e; done.
Qed.
End client_facts.

(** Strings *)
Lemma append_cons c s r : String c s +:+ r = String c (s +:+ r).
Proof. reflexivity. Qed.

Lemma append_nil r : "" +:+ r = r.
Proof. reflexivity. Qed.






Section retry_facts.
Context (cfg : Config.t) (env : remote).

Lemma sleep_emit_frame seconds r c :
invocations (time_sleep env seconds (emit r c)) = invocations c
∧ dispatched (time_sleep env seconds (emit r c)) = dispatched c
∧ _last_request_time (time_sleep env seconds (emit r c)) = _last_request_time c.
Proof. done. Qed.


(** When every attempt raises a retryable exception the loop makes
  [further + 1] attempts and raises [RetryError] around the exception
  of the last one. *)
Lemma retrying_exhausts rq further : ∀ k c,
(∀ n, ∃ e, attempt_outcome (post env n rq) = Raise e ∧ retryable e = true) →
∃ e c',
  retrying cfg env (attempt cfg env rq) further k c = (Raise (Py.RetryError e), c')
  ∧ attempt_outcome (post env (invocations c + further)%nat rq) = Raise e
  ∧ invocations c' = (invocations c + S further)%nat.
Proof.
induction further as [|further IH]; intros k c Hall; simpl;
  pose proof (attempt_spec cfg env rq c) as (Hr & Hi & _);
  destruct (attempt cfg env rq c) as [r c1] eqn:Ha; simpl in *;
  destruct (Hall (invocations c)) as (e & He & Hre);
  rewrite He in Hr; subst r; rewrite Hre.
- exists e, c1. rewrite Nat.add_0_r. repeat split; [done | lia].
- destruct (IH (S k)
    (time_sleep env (wait_exponential cfg k)
       (emit (Py.Log Py.INFO "fipe_client" "Retrying" (Some e)) c1)) Hall)
    as (e' & c' & Hloop & Hlast & Hinv).
  exists e', c'. split; [done|].
  simpl in Hlast, Hinv. rewrite Hi in Hlast, Hinv.
  split; [|lia].
  by replace (invocations c + S further)%nat
    with (S (invocations c) + further)%nat by lia.
Qed.
End retry_facts.




(** C3.  When every attempt fails with a retryable error, a call invokes
  the transport max(1, MAX_RETRIES) times and then raises [RetryError]
  around the retryable error of the last attempt: the caller does not
  receive that error itself. *)
Theorem retry_exhaustion_wraps (cfg : Config.t) (env : remote)
  (endpoint : string) (payload : list (string * py)) (c : t) :
(∀ n, ∃ e, attempt_outcome (post env n (mk_request endpoint payload)) = Raise e
           ∧ retryable e = true) →
∃ e c',
  _make_request cfg env endpoint payload c = (Raise (Py.RetryError e), c')
  ∧ attempt_outcome
      (post env (invocations c + Z.to_nat (Z.max 1 (Config.MAX_RETRIES cfg)) - 1)%nat
         (mk_request endpoint payload)) = Raise e
  ∧ retryable e = true
  ∧ invocations c'
    = (invocations c + Z.to_nat (Z.max 1 (Config.MAX_RETRIES cfg)))%nat.
Proof.
intros Hall.
destruct (retrying_exhausts cfg env (mk_request endpoint payload)
            (further_attempts cfg) 1 c Hall) as (e & c' & Hloop & Hlast & Hinv).
assert (S (further_attempts cfg) = Z.to_nat (Z.max 1 (Config.MAX_RETRIES cfg)))
  as Hn by (unfold further_attempts; lia).
exists e, c'. split; [done|]. rewrite <- Hn. split; [|split].
- by replace (invocations c + S (further_attempts cfg) - 1)%nat
    with (invocations c + further_attempts cfg)%nat by lia.
- destruct (Hall (invocations c + further_attempts cfg)%nat) as (e' & He' & Hre).
  rewrite Hlast in He'. by injection He' as ->.
- done.
Qed.

Lemma retry_exhaustion_wraps_witness :
∃ c',
  _make_request Config.defaults (always 429) "ConsultarMarcas" [] (init 1000)
  = (Raise (Py.RetryError (Py.FipeRateLimitError "Rate limit atingido")), c')
  ∧ invocations c' = 5%nat.
Proof.
destruct (retry_exhaustion_wraps Config.defaults (always 429) "ConsultarMarcas" []
            (init 1000)) as (e & c' & Hcall & Hlast & _ & Hinv).
- intros n. eexists. split; reflexivity.
- exists c'. injection Hlast as <-. split; [exact Hcall | exact Hinv].
Defined.

(** C9.  On a clock of exact numbers that does not run backwards and
  on which [time.sleep] returns no earlier than asked: the pacing wait
  leaves a timestamp that is at least the pacing delay after the
  timestamp it found, and that is the reading of the clock when it
  returns.  For two consecutive attempts on one client, with any time
  passing and anything logged in between, the timestamp of the second
  is at least the delay after the timestamp of the first, each POST is
  dispatched no earlier than its timestamp, and the second POST no
  earlier than the delay after the timestamp of the first.  The delay
  is kept between the timestamps, not between the POSTs. *)
Theorem pacing_between_calls (cfg : Config.t) (env : remote)
  (rq1 rq2 : request) (idle : nat) (logged : list Py.log_record) (c : t) :
let c1 := (attempt cfg env rq1 c).2 in
let between := foldr emit (time_sleep env (Z.of_nat idle) c1) logged in
let c2 := (attempt cfg env rq2 between).2 in
(_last_request_time c + Config.DELAY_BETWEEN_REQUESTS cfg
 ≤ _last_request_time (_wait_for_rate_limit cfg env c)
 ∧ _last_request_time (_wait_for_rate_limit cfg env c)
   = clock (_wait_for_rate_limit cfg env c))
∧ _last_request_time c1 + Config.DELAY_BETWEEN_REQUESTS cfg ≤ _last_request_time c2
∧ ∃ d1 d2,
    dispatched c1 = d1 :: dispatched c
    ∧ dispatched c2 = d2 :: d1 :: dispatched c
    ∧ _last_request_time c1 ≤ d1
    ∧ _last_request_time c2 ≤ d2
    ∧ _last_request_time c1 + Config.DELAY_BETWEEN_REQUESTS cfg ≤ d2.
Proof.
cbn zeta. split; [split; [apply wait_paces | apply wait_stamp]|].
pose proof (attempt_spec cfg env rq1 c) as (_ & _ & Hd1 & Hl1).
remember (attempt cfg env rq1 c).2 as c1 eqn:Hc1.
remember (foldr emit (time_sleep env (Z.of_nat idle) c1) logged) as s eqn:Hs.
pose proof (attempt_spec cfg env rq2 s) as (_ & _ & Hd2 & Hl2).
cbn zeta in *.
pose proof (wait_paces cfg env s) as Hp.
pose proof (wait_stamp cfg env s) as Hst2.
pose proof (wait_stamp cfg env c) as Hst1.
pose proof (foldr_emit_frame logged (time_sleep env (Z.of_nat idle) c1))
  as (_ & _ & _ & Hfd & Hfl).
assert (_last_request_time s = _last_request_time c1) as Hsl by (by subst s).
assert (dispatched s = dispatched c1) as Hsd by (by subst s).
rewrite Hl2. split; [lia|].
eexists _, _. split; [exact Hd1|]. split; [by rewrite Hd2, Hsd, Hd1|].
split; [|split].
- rewrite Hl1, Hst1. simpl. lia.
- rewrite Hst2. simpl. lia.
- rewrite <- Hsl. etransitivity; [exact Hp|]. rewrite Hst2. simpl. lia.
Qed.

(** Time passes between the timestamp and the POST of the first call,
  none between those of the second: under a delay of 500 the two POSTs
  are dispatched 100 apart, the timestamps 500 apart. *)
Lemma dispatch_gap_below_delay :
let service :=
  mk_remote (λ _ _, Responds (mk_response 200 "" (Some (Py.Array []))))
    (λ n, if (n =? 2)%nat then 400%nat else 0%nat) (λ _, "") in
let rq := mk_request "ConsultarMarcas" [] in
let c1 := (attempt Config.defaults service rq (init 1000)).2 in
let c2 := (attempt Config.defaults service rq c1).2 in
_last_request_time c1 = 1000
∧ dispatched c1 = [1400]
∧ _last_request_time c2 = 1500
∧ dispatched c2 = [1500; 1400]
∧ 1500 < 1400 + Config.DELAY_BETWEEN_REQUESTS Config.defaults.
Proof. cbn zeta. repeat split; vm_compute; reflexivity. Qed.

(** On readings that are floats the delay is kept up to rounding only.
  A call stamped at 511.81 is followed at once by another: it is asked
  to sleep 0.5; the clock then reads 512.31, the float nearest to the
  sum; and the difference of the two readings is below 0.5. *)
Lemma float_stamps_fall_short :
let delay := FloatClock.binary64 0x10000000000000 (-53) in
let stamp1 := FloatClock.binary64 0x1ffcf5c28f5c29 (-44) in
let stamp2 := FloatClock.binary64 0x10027ae147ae14 (-43) in
FloatClock.sleep_time delay stamp1 stamp1 = Some delay
∧ FloatClock.add stamp1 delay = stamp2
∧ SFltb (FloatClock.sub stamp2 stamp1) delay = true.
Proof. cbn zeta. repeat split; vm_compute; reflexivity. Qed.


End client_properties.


Section worker_properties.
Import Process.

Lemma get_str_dict response key :
is_dict response = true → Body.get_str response key = Return (member response key).
Proof. unfold member. by destruct response. Qed.

Lemma truthy_backfilled c m :
truthy c = true → truthy (Model.fipe_code (backfilled c m)) = true.
Proof.
intros Hc. unfold backfilled. rewrite Hc. simpl.
destruct (truthy (Model.fipe_code m)) eqn:Hm; simpl; done.
Qed.

Lemma backfilled_resolved c m :
truthy (Model.fipe_code m) = true → backfilled c m = m.
Proof. intros Hm. unfold backfilled. by rewrite Hm, andb_false_r. Qed.

Lemma backfilled_code c m :
truthy (Model.fipe_code m) = false →
truthy (Model.fipe_code (backfilled c m)) = true →
Model.fipe_code (backfilled c m) = c.
Proof.
intros Hm. unfold backfilled. rewrite Hm, andb_true_r.
destruct (truthy c); simpl; [done|]. by rewrite Hm.
Qed.

Lemma alter_insert {A} (f : A → A) (l : list A) : ∀ i x,
l !! i = Some x → alter f i l = <[i := f x]> l.
Proof.
induction l as [|z l IH]; intros [|i] x Hx; simpl in *; try done.
- by injection Hx as ->.
- f_equal. by apply IH.
Qed.

Section value_facts.
Context (cfg : Config.t) (env : FipeClient.remote).

(** [extract_fipe_value] on a year-model of the store, by what its
  lookup does. *)
Lemma extract_fipe_value_run (period : ReferencePeriod.t) (year_model : nat)
  (p : Process.t) (y : YearModelObj.t) (m : Model.t) (vehicle_type_code : Z) :
year_store p !! year_model = Some y →
model_store p !! YearModelObj.model y = Some m →
VehicleType.from_string (Model.vehicle_type m) = Some vehicle_type_code →
Scrapers.extract_fipe_value cfg env period year_model p
= match value_lookup cfg env period vehicle_type_code m y p with
  | (Raise e, c') =>
      (Return None,
       Process.mk
         (FipeClient.emit
            (Py.Log Py.ERROR "ValueScraper" "Erro ao extrair valor FIPE" (Some e)) c')
         (model_store p) (year_store p) (res p))
  | (Return response, c') =>
      if is_dict response then
        (Return (Some (value_of env period year_model response c')),
         Process.mk c'
           (<[YearModelObj.model y := backfilled (member response "CodigoFipe") m]>
              (model_store p))
           (<[year_model := with_authentication (member response "Autenticacao") y]>
              (year_store p))
           (res p))
      else
        (Raise (Body.no_get "list"),
         Process.mk c' (model_store p) (year_store p) (res p))
  end.
Proof.
intros Hy Hm Hvt. unfold value_lookup.
unfold Scrapers.extract_fipe_value, bind, get_year_model, get_model,
  try_except, with_client, emit, modify, ret.
rewrite Hy, Hm, Hvt. simpl.
destruct (FipeClient.get_fipe_value _ _ _ _ _ _ _ _) as [[response|e] c'] eqn:Hlookup;
  simpl; [|done].
destruct (is_dict response) eqn:Hdict.
- unfold Scrapers.lift, set_authentication, set_fipe_code, modify, gets.
  rewrite !(get_str_dict response _ Hdict). simpl. rewrite Hm.
  unfold backfilled, value_of.
  destruct (truthy (member response "CodigoFipe")
            && negb (truthy (Model.fipe_code m))) eqn:Hcond; simpl.
  + by rewrite !(alter_insert _ _ _ _ Hy), !(alter_insert _ _ _ _ Hm).
  + by rewrite !(alter_insert _ _ _ _ Hy), (list_insert_id _ _ _ Hm).
- by destruct response.
Qed.


End value_facts.

Lemma quiet_step_refl p : quiet_step p p.
Proof. split; eauto. Qed.

Lemma quiet_step_trans p1 p2 p3 :
quiet_step p1 p2 → quiet_step p2 p3 → quiet_step p1 p3.
Proof.
intros [K1 F1 Y1 M1 B1 V1] [K2 F2 Y2 M2 B2 V2]. split.
- eauto.
- intros a m' Hm'. destruct (F2 a m' Hm') as [Hm|Hm]; [|by right]. eauto.
- intros b y Hy. destruct (Y1 b y Hy) as (y' & Hy' & Heq).
  destruct (Y2 b y' Hy') as (y'' & Hy'' & Heq'). exists y''. split; [done|congruence].
- congruence.
- congruence.
- eauto.
Qed.

Lemma quiet_ret {A} (a : A) : quiet (ret a).
Proof. intros p. apply quiet_step_refl. Qed.

Lemma quiet_raise {A} e : quiet (@raise Process.t A e).
Proof. intros p. apply quiet_step_refl. Qed.

Lemma quiet_lift {A} (r : outcome A) : quiet (Scrapers.lift r).
Proof. intros p. apply quiet_step_refl. Qed.

Lemma quiet_bind {A B} (m : action Process.t A) (k : A → action Process.t B) :
quiet m → (∀ a, quiet (k a)) → quiet (bind m k).
Proof.
intros Hm Hk p. unfold bind. specialize (Hm p).
destruct (m p) as [[a|e] p1]; simpl in *; [|done].
eapply quiet_step_trans; [exact Hm | apply Hk].
Qed.

Lemma quiet_try_except {A} (m : action Process.t A) h :
quiet m → (∀ e, quiet (h e)) → quiet (try_except m h).
Proof.
intros Hm Hh p. unfold try_except. specialize (Hm p).
destruct (m p) as [[a|e] p1]; simpl in *; [done|].
eapply quiet_step_trans; [exact Hm | apply Hh].
Qed.

Lemma quiet_with_client {A} (m : action FipeClient.t A) : quiet (with_client m).
Proof.
intros p. unfold with_client. destruct (m (client p)) as [r c]. simpl.
split; simpl; eauto.
Qed.

Lemma quiet_emit r : quiet (emit r).
Proof. intros p. split; simpl; eauto. Qed.

Lemma quiet_get_model a : quiet (get_model a).
Proof.
intros p. unfold get_model. destruct (model_store p !! a); apply quiet_step_refl.
Qed.

Lemma quiet_new_model m : Model.fipe_code m = "" → quiet (new_model m).
Proof.
intros Hm p. split; simpl; eauto.
- intros a m0 Ha. by apply lookup_app_l_Some.
- intros a m' Ha. apply lookup_app_Some in Ha as [Ha|[_ Ha]]; [by left|].
  right. destruct (a - length (model_store p))%nat; simpl in Ha; [|done].
  by injection Ha as <-.
Qed.

Lemma quiet_new_year_model y : quiet (new_year_model y).
Proof.
intros p. split; simpl; eauto.
intros b y0 Hb. exists y0. split; [by apply lookup_app_l_Some | done].
Qed.

Lemma quiet_build {A} items (make : Body.item → action Process.t A) : ∀ acc,
(∀ item, quiet (make item)) → quiet (Scrapers.build items make acc).
Proof.
induction items as [|item items IH]; intros acc Hmake; simpl.
- apply quiet_ret.
- apply quiet_bind; [apply Hmake|]. intros x. by apply IH.
Qed.

Lemma bind_unfold {S A B} (m : action S A) (k : A → action S B) (s : S) :
bind m k s
= match m s with
  | (Return a, s') => k a s'
  | (Raise e, s') => (Raise e, s')
  end.
Proof. reflexivity. Qed.

Lemma quiet_bind_lift {A B} (r : outcome A) (k : A → action Process.t B) :
(∀ a, r = Return a → quiet (k a)) → quiet (bind (Scrapers.lift r) k).
Proof.
intros Hk p. unfold bind, Scrapers.lift. destruct r as [a|e]; simpl.
- by apply Hk.
- apply quiet_step_refl.
Qed.

Lemma owned_quiet_step a ys p p' :
owned a ys p → quiet_step p p' → owned a ys p'.
Proof.
intros Ho Hq y Hy. destruct (Ho y Hy) as (yo & Hyo & Hm).
destruct (years_kept _ _ Hq y yo Hyo) as (yo' & Hyo' & Hm').
exists yo'. split; [done | congruence].
Qed.

Section quiet_scrapers.
Context (cfg : Config.t) (env : FipeClient.remote).

Lemma quiet_extract_for_brand period brand :
quiet (Scrapers.extract_for_brand cfg env period brand).
Proof.
unfold Scrapers.extract_for_brand.
destruct (VehicleType.from_string _); [|apply quiet_raise].
apply quiet_bind; [apply quiet_emit|]. intros _.
apply quiet_bind.
{ apply quiet_try_except.
  - apply quiet_bind; [apply quiet_with_client|]. intros r. apply quiet_ret.
  - intros e. apply quiet_bind; [apply quiet_emit|]. intros _. apply quiet_ret. }
intros [response|]; [|apply quiet_ret].
apply quiet_bind; [apply quiet_lift|]. intros raw_models.
apply quiet_build. intros item.
apply quiet_bind_lift. intros m Hm. apply quiet_new_model.
unfold Scrapers.model_from_api_response in Hm.
destruct item as [data|s]; [|done].
destruct (match data !! "Value" with Some v => Py.int v | None => Some 0%Z end);
  [|done].
by injection Hm as <-.
Qed.

Lemma quiet_make_year_model a item : quiet (make_year_model a item).
Proof.
apply quiet_bind; [apply quiet_lift|]. intros y. apply quiet_new_year_model.
Qed.

Lemma build_owned a items : ∀ acc p,
owned a acc p →
∀ ys, (Scrapers.build items (make_year_model a) acc p).1 = Return ys →
owned a ys (Scrapers.build items (make_year_model a) acc p).2.
Proof.
induction items as [|item items IH]; intros acc p Hacc ys; simpl.
- by intros [= <-].
- rewrite bind_unfold.
  pose proof (quiet_make_year_model a item p) as Hq.
  destruct (make_year_model a item p) as [[y|e] p1] eqn:Hmake; simpl; [|done].
  apply IH. intros y' Hy'. apply elem_of_app in Hy' as [Hy'|Hy'].
  + by apply (owned_quiet_step a acc p p1).
  + apply list_elem_of_singleton in Hy' as ->.
    unfold make_year_model, bind, Scrapers.lift in Hmake.
    destruct item as [data|s]; simpl in Hmake; [|done].
    injection Hmake as <- <-. simpl. eexists. split; [apply list_lookup_middle; done|done].
Qed.

Lemma quiet_extract_year_models period a :
quiet (Scrapers.extract_year_models cfg env period a).
Proof.
unfold Scrapers.extract_year_models.
apply quiet_bind; [apply quiet_get_model|]. intros m.
destruct (VehicleType.from_string _); [|apply quiet_raise].
apply quiet_bind; [apply quiet_emit|]. intros _.
apply quiet_bind.
{ apply quiet_try_except.
  - apply quiet_bind; [apply quiet_with_client|]. intros r. apply quiet_ret.
  - intros e. apply quiet_bind; [apply quiet_emit|]. intros _. apply quiet_ret. }
intros [raw_years|]; [|apply quiet_ret].
apply quiet_build. intros item. apply quiet_make_year_model.
Qed.

Lemma extract_year_models_owned period a p ys :
(Scrapers.extract_year_models cfg env period a p).1 = Return ys →
owned a ys (Scrapers.extract_year_models cfg env period a p).2.
Proof.
unfold Scrapers.extract_year_models. rewrite bind_unfold. unfold get_model.
destruct (model_store p !! a) as [m|]; [|done].
destruct (VehicleType.from_string _); [|done].
rewrite bind_unfold. unfold emit, modify. rewrite bind_unfold.
match goal with |- context [try_except ?m ?h ?s] =>
  destruct (try_except m h s) as [[[raw_years|]|e] p1] eqn:Htry end; simpl.
- apply build_owned. intros y Hy. inversion Hy.
- intros [= <-]. intros y Hy. inversion Hy.
- done.
Qed.
End quiet_scrapers.

Lemma worker_step_refl p : worker_step p p.
Proof. split; eauto. Qed.

Lemma worker_step_trans p1 p2 p3 :
worker_step p1 p2 → worker_step p2 p3 → worker_step p1 p3.
Proof.
intros [Y1 B1] [Y2 B2]. split; [|congruence].
intros b y Hy. destruct (Y1 b y Hy) as (y' & Hy' & Heq).
destruct (Y2 b y' Hy') as (y'' & Hy'' & Heq'). exists y''. split; [done|congruence].
Qed.

Lemma quiet_worker_step p p' : quiet_step p p' → worker_step p p'.
Proof. intros Hq. split; [apply (years_kept _ _ Hq) | apply (result_brands_kept _ _ Hq)]. Qed.

Lemma owned_worker_step a ys p p' :
owned a ys p → worker_step p p' → owned a ys p'.
Proof.
intros Ho Hq y Hy. destruct (Ho y Hy) as (yo & Hyo & Hm).
destruct (years_owned _ _ Hq y yo Hyo) as (yo' & Hyo' & Hm').
exists yo'. split; [done | congruence].
Qed.

Lemma resolved_quiet_step p p' :
resolved_by_value p → quiet_step p p' → resolved_by_value p'.
Proof.
intros [Hl Hv] Hq. split.
- intros a Ha. rewrite (result_models_kept _ _ Hq) in Ha.
  destruct (Hl a Ha) as (m & Hm & Ht). exists m. split; [|done].
  by apply (models_kept _ _ Hq).
- intros a m Hm Ht.
  destruct (models_fresh _ _ Hq a m Hm) as [Hold|Hnew].
  + destruct (Hv a m Hold Ht) as (v & yo & Hin & Hyo & Hown & Hcode).
    destruct (years_kept _ _ Hq _ yo Hyo) as (yo' & Hyo' & Hown').
    exists v, yo'. repeat split; [by apply (result_values_kept _ _ Hq) | done | congruence | done].
  + by rewrite Hnew in Ht.
Qed.

Section worker_facts.
Context (cfg : Config.t) (env : FipeClient.remote).

(** What a call of [extract_fipe_value] can do to the process. *)
Lemma extract_fipe_value_cases period y p :
let call := Scrapers.extract_fipe_value cfg env period y p in
((∀ v, call.1 ≠ Return (Some v))
 ∧ year_store call.2 = year_store p
 ∧ model_store call.2 = model_store p
 ∧ res call.2 = res p)
∨ (∃ yo m v authentication,
     year_store p !! y = Some yo
     ∧ model_store p !! YearModelObj.model yo = Some m
     ∧ call.1 = Return (Some v)
     ∧ FipeValueObj.year_model v = y
     ∧ year_store call.2 = <[y := with_authentication authentication yo]> (year_store p)
     ∧ model_store call.2
       = <[YearModelObj.model yo := backfilled (FipeValueObj.fipe_code v) m]>
           (model_store p)
     ∧ res call.2 = res p).
Proof.
cbn zeta.
destruct (year_store p !! y) as [yo|] eqn:Hy.
2: { left. unfold Scrapers.extract_fipe_value. rewrite bind_unfold.
     unfold get_year_model. rewrite Hy. by repeat split. }
destruct (model_store p !! YearModelObj.model yo) as [m|] eqn:Hm.
2: { left. unfold Scrapers.extract_fipe_value. rewrite bind_unfold.
     unfold get_year_model. rewrite Hy. rewrite bind_unfold.
     unfold get_model. rewrite Hm. by repeat split. }
destruct (VehicleType.from_string (Model.vehicle_type m)) as [code|] eqn:Hvt.
2: { left. unfold Scrapers.extract_fipe_value. rewrite bind_unfold.
     unfold get_year_model. rewrite Hy. rewrite bind_unfold.
     unfold get_model. rewrite Hm, Hvt. by repeat split. }
rewrite (extract_fipe_value_run cfg env period y p yo m code Hy Hm Hvt).
destruct (value_lookup cfg env period code m yo p) as [[response|e] c'].
- destruct (is_dict response).
  + right. eexists yo, m, _, _. by repeat split.
  + left. by repeat split.
- left. by repeat split.
Qed.

Lemma backfill_settled c m :
truthy c && negb (truthy (Model.fipe_code (backfilled c m))) = false.
Proof.
destruct (truthy c) eqn:Hc; [|done].
by rewrite (truthy_backfilled c m Hc).
Qed.

(** One pass of the inner loop of the worker. *)
Lemma for_year_model_step period a y p :
resolved_by_value p → owned a [y] p →
resolved_by_value (Orchestrator.for_year_model cfg env period a y p).2
∧ worker_step p (Orchestrator.for_year_model cfg env period a y p).2.
Proof.
intros Hinv Hown.
unfold Orchestrator.for_year_model. rewrite bind_unfold.
destruct (extract_fipe_value_cases period y p) as [Hnone|Hsome].
- destruct Hnone as (Hno & Hys & Hms & Hres).
  destruct (Scrapers.extract_fipe_value cfg env period y p) as [r p1]. simpl in *.
  assert (quiet_step p p1) as Hq.
  { split; rewrite ?Hys, ?Hms, ?Hres; eauto. }
  assert (resolved_by_value p1 ∧ worker_step p p1) as Hdone.
  { split; [by eapply resolved_quiet_step | by apply quiet_worker_step]. }
  destruct r as [[v|]|e]; simpl; [|done|done].
  by destruct (Hno v).
- destruct Hsome as (yo & m & v & auth & Hy & Hm & Hcall & Hv & Hys & Hms & Hres).
  destruct (Hown y) as (yo' & Hyo' & Ha); [by left|].
  rewrite Hy in Hyo'. injection Hyo' as <-. rewrite Ha in *.
  destruct (Scrapers.extract_fipe_value cfg env period y p) as [r p1]. simpl in *.
  subst r. simpl.
  unfold bind, append_year_model, append_fipe_value, set_res, modify, get_model.
  simpl. rewrite Hms, list_lookup_insert_eq by (by eapply lookup_lt_Some).
  rewrite backfill_settled. simpl. rewrite Hres, Hys.
  set (c := FipeValueObj.fipe_code v) in *.
  assert (∀ b yb, year_store p !! b = Some yb →
            ∃ yb', <[y := with_authentication auth yo]> (year_store p) !! b = Some yb'
                   ∧ YearModelObj.model yb' = YearModelObj.model yb) as Hyears.
  { intros b yb Hb. destruct (decide (b = y)) as [->|Hne].
    - rewrite list_lookup_insert_eq by (by eapply lookup_lt_Some).
      eexists. split; [done|]. rewrite Hy in Hb. by injection Hb as <-.
    - rewrite list_lookup_insert_ne by done. by exists yb. }
  split; [|by split].
  destruct Hinv as [Hl Hval]. split; simpl.
  + intros b Hb. destruct (Hl b Hb) as (mb & Hmb & Ht).
    destruct (decide (b = a)) as [->|Hne].
    * rewrite list_lookup_insert_eq by (by eapply lookup_lt_Some).
      rewrite Hm in Hmb. injection Hmb as <-.
      exists m. by rewrite backfilled_resolved.
    * rewrite list_lookup_insert_ne by done. by exists mb.
  + intros b mb Hmb Ht.
    assert (model_store p !! b = Some mb ∧ truthy (Model.fipe_code mb) = true
            ∨ b = a ∧ Model.fipe_code mb = c) as [[Hold Ht']|[-> Hc]].
    { destruct (decide (b = a)) as [->|Hne].
      - rewrite list_lookup_insert_eq in Hmb by (by eapply lookup_lt_Some).
        injection Hmb as <-.
        destruct (truthy (Model.fipe_code m)) eqn:Htm.
        + left. by rewrite backfilled_resolved.
        + right. split; [done|]. by apply backfilled_code.
      - rewrite list_lookup_insert_ne in Hmb by done. by left. }
    * destruct (Hval b mb Hold Ht') as (v0 & y0 & Hin & Hy0 & Hown0 & Hcode).
      destruct (Hyears _ y0 Hy0) as (y0' & Hy0' & Heq).
      exists v0, y0'. repeat split;
        [apply elem_of_app; by left | done | congruence | done].
    * exists v, (with_authentication auth yo). repeat split.
      -- apply elem_of_app. right. by left.
      -- rewrite Hv. apply list_lookup_insert_eq. by eapply lookup_lt_Some.
      -- done.
      -- done.
Qed.

Lemma for_year_models_step period a ys : ∀ p,
resolved_by_value p → owned a ys p →
resolved_by_value (for_each ys (Orchestrator.for_year_model cfg env period a) p).2
∧ worker_step p (for_each ys (Orchestrator.for_year_model cfg env period a) p).2.
Proof.
induction ys as [|y ys IH]; intros p Hinv Hown; simpl.
- split; [done | apply worker_step_refl].
- rewrite bind_unfold.
  destruct (for_year_model_step period a y p Hinv) as [Hinv1 Hstep1].
  { intros y' Hy'. apply list_elem_of_singleton in Hy' as ->. apply Hown. by left. }
  destruct (Orchestrator.for_year_model cfg env period a y p) as [[[]|e] p1];
    simpl in *; [|done].
  destruct (IH p1 Hinv1) as [Hinv2 Hstep2].
  { apply (owned_worker_step a ys p p1); [|done].
    intros y' Hy'. apply Hown. by right. }
  split; [done | by eapply worker_step_trans].
Qed.

Lemma for_model_step period a p :
resolved_by_value p →
resolved_by_value (Orchestrator.for_model cfg env period a p).2
∧ worker_step p (Orchestrator.for_model cfg env period a p).2.
Proof.
intros Hinv. unfold Orchestrator.for_model. rewrite bind_unfold.
pose proof (quiet_extract_year_models cfg env period a p) as Hq.
pose proof (extract_year_models_owned cfg env period a p) as Hown.
destruct (Scrapers.extract_year_models cfg env period a p) as [[ys|e] p1];
  simpl in *.
2: { split; [by eapply resolved_quiet_step | by apply quiet_worker_step]. }
assert (resolved_by_value p1) as Hinv1 by (by eapply resolved_quiet_step).
destruct (for_year_models_step period a ys p1 Hinv1 (Hown ys eq_refl))
  as [Hinv2 Hstep2].
assert (worker_step p p1) as Hstep1 by (by apply quiet_worker_step).
rewrite bind_unfold.
destruct (for_each ys (Orchestrator.for_year_model cfg env period a) p1)
  as [[[]|e] p2]; simpl in *.
2: { split; [done | by eapply worker_step_trans]. }
assert (worker_step p p2) as Hstep by (by eapply worker_step_trans).
rewrite bind_unfold. unfold get_model.
destruct (model_store p2 !! a) as [m|] eqn:Hm; [|done].
destruct (truthy (Model.fipe_code m)) eqn:Ht; [|done].
simpl. split.
- destruct Hinv2 as [Hl Hval]. split; simpl.
  + intros b Hb. apply elem_of_app in Hb as [Hb|Hb]; [by apply Hl|].
    apply list_elem_of_singleton in Hb as ->. by exists m.
  + done.
- destruct Hstep as [Hy Hb]. by split.
Qed.

Lemma for_models_step period ms : ∀ p,
resolved_by_value p →
resolved_by_value (for_each ms (Orchestrator.for_model cfg env period) p).2
∧ worker_step p (for_each ms (Orchestrator.for_model cfg env period) p).2.
Proof.
induction ms as [|a ms IH]; intros p Hinv; simpl.
- split; [done | apply worker_step_refl].
- rewrite bind_unfold.
  destruct (for_model_step period a p Hinv) as [Hinv1 Hstep1].
  destruct (Orchestrator.for_model cfg env period a p) as [[[]|e] p1];
    simpl in *; [|done].
  destruct (IH p1 Hinv1) as [Hinv2 Hstep2].
  split; [done | by eapply worker_step_trans].
Qed.

(** The [try] block: the brand is appended when, and only when, the
  block runs to its end. *)
Lemma extraction_step period brand p :
resolved_by_value p →
resolved_by_value (Orchestrator.extraction cfg env period brand p).2
∧ brands (res (Orchestrator.extraction cfg env period brand p).2)
  = match (Orchestrator.extraction cfg env period brand p).1 with
    | Return _ => brands (res p) ++ [brand]
    | Raise _ => brands (res p)
    end.
Proof.
intros Hinv. unfold Orchestrator.extraction. rewrite bind_unfold.
pose proof (quiet_extract_for_brand cfg env period brand p) as Hq.
destruct (Scrapers.extract_for_brand cfg env period brand p) as [[ms|e] p1];
  simpl in *.
2: { split; [by eapply resolved_quiet_step | apply (result_brands_kept _ _ Hq)]. }
assert (resolved_by_value p1) as Hinv1 by (by eapply resolved_quiet_step).
destruct (for_models_step period ms p1 Hinv1) as [Hinv2 Hstep2].
rewrite bind_unfold.
destruct (for_each ms (Orchestrator.for_model cfg env period) p1)
  as [[[]|e] p2]; simpl in *.
- split.
  + destruct Hinv2 as [Hl Hval]. by split.
  + by rewrite (brands_kept _ _ Hstep2), (result_brands_kept _ _ Hq).
- split; [done|].
  by rewrite (brands_kept _ _ Hstep2), (result_brands_kept _ _ Hq).
Qed.

Lemma resolved_init now : resolved_by_value (Process.init now).
Proof.
split; simpl.
- intros a Ha. inversion Ha.
- intros a m Hm. by rewrite lookup_nil in Hm.
Qed.

(** [to_dict] does not look at the client. *)
Lemma to_dict_client p c :
to_dict (Process.mk c (model_store p) (year_store p) (res p)) = to_dict p.
Proof. reflexivity. Qed.

(** The worker returns what its [try] block had put into the result
  when it ended, by running to its end or by an exception. *)
Lemma _extract_worker_extraction now task :
(Orchestrator._extract_worker cfg env now task).1
= to_dict (Orchestrator.extraction cfg env (Orchestrator.period task)
             (Orchestrator.brand task) (Process.init now)).2.
Proof.
unfold Orchestrator._extract_worker, try_finally, try_except.
destruct (Orchestrator.extraction cfg env _ _ (Process.init now)) as [[[]|e] p];
  reflexivity.
Qed.
End worker_facts.

End worker_properties.


Section batch_properties.
Import Process.
Import Orchestrator.

Lemma _process_batch_omap cfg completed :
_process_batch cfg completed
= (omap (collected cfg) completed, omap (reported cfg) completed).
Proof.
induction completed as [|x rest IH]; simpl; [done|].
rewrite IH. unfold collected, reported.
by destruct (future_result cfg x).
Qed.




(** C10.  Every model in the fragment a worker returns has a fipe_code,
  and the fragment holds a value, looked up for a year-model of that very
  model, that carries this fipe_code; so when no value of the fragment
  carries a fipe_code the fragment lists no model.  A run shows it: the
  value lookup of one model fails, that of the other carries no
  fipe_code; the extraction raises nothing, the fragment holds the
  brand, the year-model and the value of the second model, and no
  model. *)
Theorem worker_lists_resolved_models (cfg : Config.t) (env : FipeClient.remote)
  (now : Z) (tsk : ExtractionTask) :
let fragment := (_extract_worker cfg env now tsk).1 in
(∀ M, M ∈ ExtractionResult.models fragment →
   truthy (Model.fipe_code M) = true
   ∧ ∃ V, V ∈ ExtractionResult.fipe_values fragment
          ∧ YearModel.model (FipeValue.year_model V) = M
          ∧ FipeValue.fipe_code V = Model.fipe_code M)
∧ ((∀ V, V ∈ ExtractionResult.fipe_values fragment →
         truthy (FipeValue.fipe_code V) = false) →
   ExtractionResult.models fragment = [])
∧ ∃ unresolved : ExtractionResult.t,
    (_extract_worker Config.defaults unresolving_service 1000 fiat_task).1
    = unresolved
    ∧ (extraction Config.defaults unresolving_service (period fiat_task)
         (brand fiat_task) (Process.init 1000)).1 = Return tt
    ∧ ExtractionResult.brands unresolved = [brand fiat_task]
    ∧ ExtractionResult.models unresolved = []
    ∧ (YearModel.authentication <$> ExtractionResult.year_models unresolved)
      = ["xyz789"]
    ∧ (FipeValue.average_price <$> ExtractionResult.fipe_values unresolved)
      = ["R$ 20.000,00"].
Proof.
cbn zeta.
assert (∀ M, M ∈ ExtractionResult.models (_extract_worker cfg env now tsk).1 →
   truthy (Model.fipe_code M) = true
   ∧ ∃ V, V ∈ ExtractionResult.fipe_values (_extract_worker cfg env now tsk).1
          ∧ YearModel.model (FipeValue.year_model V) = M
          ∧ FipeValue.fipe_code V = Model.fipe_code M) as Hmain.
{ rewrite _extract_worker_extraction.
  destruct (extraction_step cfg env (period tsk) (brand tsk) (Process.init now)
              (resolved_init now)) as [[Hl Hval] _].
  set (p := (extraction cfg env (period tsk) (brand tsk) (Process.init now)).2) in *.
  intros M HM. simpl in HM.
  apply list_elem_of_fmap in HM as (a & -> & Ha).
  destruct (Hl a Ha) as (m & Hm & Ht).
  split; [unfold model_to_dict; by rewrite Hm|].
  destruct (Hval a m Hm Ht) as (v & yo & Hv & Hyo & Hown & Hcode).
  exists (fipe_value_to_dict p v). split; [|split].
  - simpl. apply list_elem_of_fmap. by exists v.
  - simpl. unfold year_model_to_dict. rewrite Hyo. simpl.
    unfold model_to_dict. by rewrite Hown, Hm.
  - simpl. unfold model_to_dict. by rewrite Hm, Hcode. }
split; [exact Hmain|]. split.
- intros Hnone.
  destruct (ExtractionResult.models (_extract_worker cfg env now tsk).1)
    as [|M Ms] eqn:HMs; [done|].
  exfalso. destruct (Hmain M) as (Ht & V & HV & _ & Hcode); [by left|].
  apply Hnone in HV. rewrite Hcode, Ht in HV. done.
- eexists. split; [reflexivity|].
  repeat split; vm_compute; reflexivity.
Qed.




End batch_properties.


Section merge_algebra.
Import ExtractionResult.

Section fresh_facts.
Context {A K : Type} `{Countable K} (key : A → K).

Lemma fresh_ext other : ∀ E E', E = E' → fresh key other E = fresh key other E'.
Proof. by intros E E' ->. Qed.

Lemma fresh_app (l l' : list A) : ∀ E,
fresh key (l ++ l') E = fresh key l E ++ fresh key l' (E ∪ existing_of key l).
Proof.
induction l as [|x l IH]; intros E; simpl.
- apply fresh_ext. unfold existing_of. simpl. apply leibniz_equiv. set_solver.
- destruct (decide (key x ∈ E)) as [Hin|Hin].
  + rewrite IH. f_equal. apply fresh_ext.
    unfold existing_of. simpl. apply leibniz_equiv. set_solver.
  + rewrite IH. simpl. f_equal. f_equal. apply fresh_ext.
    unfold existing_of. simpl. apply leibniz_equiv. set_solver.
Qed.

Lemma fresh_fresh (l : list A) : ∀ E1 E2,
fresh key (fresh key l E1) E2 = fresh key l (E1 ∪ E2).
Proof.
induction l as [|x l IH]; intros E1 E2; simpl; [done|].
destruct (decide (key x ∈ E1)) as [H1|H1].
- rewrite decide_True by set_solver. apply IH.
- simpl. destruct (decide (key x ∈ E2)) as [H2|H2].
  + rewrite decide_True by set_solver. rewrite IH. apply fresh_ext.
    apply leibniz_equiv. set_solver.
  + rewrite decide_False by set_solver. f_equal. rewrite IH. apply fresh_ext.
    apply leibniz_equiv. set_solver.
Qed.

Lemma merge_list_assoc (a b c : list A) :
merge_list key (merge_list key a b) c = merge_list key a (merge_list key b c).
Proof.
rewrite !merge_list_fresh, <- app_assoc. f_equal.
rewrite fresh_app. f_equal.
rewrite fresh_fresh, existing_of_app. apply fresh_ext.
apply leibniz_equiv.
pose proof (fresh_keys key b (existing_of key a)) as Hk.
apply leibniz_equiv_iff in Hk. set_solver.
Qed.

Lemma merge_list_nil_r (a : list A) : merge_list key a [] = a.
Proof. rewrite merge_list_fresh. simpl. apply app_nil_r. Qed.

Lemma merge_list_appends_new (self other : list A) :
appends_new key self other (merge_list key self other).
Proof.
exists (fresh key other (existing_of key self)).
split; [apply merge_list_fresh|]. split; [apply fresh_NoDup|].
intros x Hx. by apply fresh_not_existing in Hx.
Qed.

Lemma merge_list_distinct (self other : list A) :
NoDup (key <$> self) → NoDup (key <$> merge_list key self other).
Proof.
intros Hs. rewrite merge_list_fresh, fmap_app. apply NoDup_app.
split; [done|]. split; [|apply fresh_NoDup].
intros k Hk Hk'. apply list_elem_of_fmap in Hk' as (x & -> & Hx).
apply fresh_not_existing in Hx as [_ Hx]. apply Hx.
unfold existing_of. by apply elem_of_list_to_set.
Qed.
End fresh_facts.

(** X1.  Merging is associative: merging [b] into [a] and then [c] into
  the result gives what merging [c] into [b] and the whole into [a]
  gives; and merging an empty result changes nothing. *)
Theorem merge_associative (a b c : ExtractionResult.t) :
merge (merge a b) c = merge a (merge b c)
∧ merge a ExtractionResult.empty = a.
Proof.
split.
- unfold merge; simpl. by rewrite !merge_list_assoc.
- destruct a. unfold merge; simpl. by rewrite !merge_list_nil_r.
Qed.

(** X2.  A merge only appends: every collection of the merged result is
  the collection of [self], in its order, followed by entities of
  [other] with pairwise distinct keys that [self] does not hold.  So a
  result in which no two entities of a kind share a key stays so. *)
Theorem merge_appends_distinct (self other : ExtractionResult.t) :
(appends_new ReferencePeriod.key (reference_periods self) (reference_periods other)
   (reference_periods (merge self other))
 ∧ appends_new Brand.key (brands self) (brands other) (brands (merge self other))
 ∧ appends_new Model.key (models self) (models other) (models (merge self other))
 ∧ appends_new YearModel.key (year_models self) (year_models other)
     (year_models (merge self other))
 ∧ appends_new FipeValue.key (fipe_values self) (fipe_values other)
     (fipe_values (merge self other)))
∧ (distinct_keys self → distinct_keys (merge self other)).
Proof.
split.
- repeat split; apply merge_list_appends_new.
- intros (Hp & Hb & Hm & Hy & Hv). unfold distinct_keys, merge; simpl.
  repeat split; by apply merge_list_distinct.
Qed.

Lemma merge_appends_distinct_witness :
distinct_keys (merge result_a result_b).
Proof.
apply (merge_appends_distinct result_a result_b).
unfold distinct_keys, result_a; simpl.
repeat split; try apply NoDup_nil_2. apply NoDup_singleton.
Defined.

End merge_algebra.


Section conversion_properties.
Import ExtractionResult Orchestrator.

Lemma cache_lookup {A K} `{Countable K} (key : A → K) (l : list A) : ∀ (c : gmap K A) k,
foldl (λ cache x, <[key x := x]> cache) c l !! k
= match last (with_key key k l) with
  | Some x => Some x
  | None => c !! k
  end.
Proof.
unfold with_key.
induction l as [|x l IH]; intros c k; simpl; [done|].
rewrite IH, filter_cons.
destruct (decide (key x = k)) as [Hk|Hk].
- rewrite last_cons. destruct (last (filter _ l)); [done|].
  by rewrite Hk, lookup_insert_eq.
- destruct (last (filter _ l)); [done|]. by rewrite lookup_insert_ne.
Qed.

Lemma convert_models_map dicts bc : ∀ mc,
convert_models dicts bc mc
= (with_brand bc <$> dicts,
   foldl (λ cache m, <[Model.key m := m]> cache) mc (with_brand bc <$> dicts)).
Proof.
induction dicts as [|m dicts IH]; intros mc; simpl; [done|].
by rewrite IH.
Qed.

Lemma convert_year_models_map dicts mc : ∀ yc,
convert_year_models dicts mc yc
= (with_model mc <$> dicts,
   foldl (λ cache y, <[YearModel.key y := y]> cache) yc (with_model mc <$> dicts)).
Proof.
induction dicts as [|y dicts IH]; intros yc; simpl; [done|].
by rewrite IH.
Qed.

Lemma brand_cache_lookup (bs : list Brand.t) k :
foldl (λ cache b, <[brand_key b := b]> cache) (∅ : gmap _ Brand.t) bs !! k
= last (with_key Brand.key k bs).
Proof.
rewrite (cache_lookup Brand.key bs ∅ k).
by destruct (last _); [|rewrite lookup_empty].
Qed.

Lemma cached_key {A K} `{Countable K} (key : A → K) (l : list A) k x :
last (with_key key k l) = Some x → key x = k.
Proof.
intros Hl. apply last_Some_elem_of in Hl.
unfold with_key in Hl. by apply list_elem_of_filter in Hl as [? ?].
Qed.

Lemma _dict_to_result_maps data :
∃ mc yc,
  (∀ k, mc !! k = last (with_key Model.key k (models (_dict_to_result data))))
  ∧ (∀ k, yc !! k = last (with_key YearModel.key k (year_models (_dict_to_result data))))
  ∧ _dict_to_result data
    = mk (reference_periods data) (brands data)
         (with_brand (foldl (λ cache b, <[brand_key b := b]> cache) ∅ (brands data))
            <$> models data)
         (with_model mc <$> year_models data)
         (convert_fipe_value yc <$> fipe_values data).
Proof.
unfold _dict_to_result.
rewrite convert_models_map.
set (bc := foldl _ ∅ (brands data)).
set (mc := foldl _ ∅ (with_brand bc <$> models data)).
rewrite convert_year_models_map.
set (yc := foldl _ ∅ (with_model mc <$> year_models data)).
exists mc, yc. simpl. split; [|split; [|done]].
- intros k. unfold mc. rewrite (cache_lookup Model.key).
  by destruct (last _); [|rewrite lookup_empty].
- intros k. unfold yc. rewrite (cache_lookup YearModel.key).
  by destruct (last _); [|rewrite lookup_empty].
Qed.

(** X3.  [_dict_to_result] keeps the periods and the brands as they are
  and converts the models, the year-models and the values one for one
  and in order; a converted entity has the fields of its dictionary, and
  its nested entity has the identity of the nested dictionary.  So the
  identity keys of every collection are those of the dictionary. *)
Theorem dict_to_result_keeps_identity (data : ExtractionResult.t) :
let r := _dict_to_result data in
reference_periods r = reference_periods data
∧ brands r = brands data
∧ Forall2 relinked_model (models r) (models data)
∧ Forall2 relinked_year_model (year_models r) (year_models data)
∧ Forall2 relinked_value (fipe_values r) (fipe_values data)
∧ Model.key <$> models r = Model.key <$> models data
∧ YearModel.key <$> year_models r = YearModel.key <$> year_models data
∧ FipeValue.key <$> fipe_values r = FipeValue.key <$> fipe_values data.
Proof.
cbn zeta.
destruct (_dict_to_result_maps data) as (mc & yc & Hmc & Hyc & ->). simpl.
set (bc := foldl _ ∅ (brands data)).
assert (∀ m, relinked_model (with_brand bc m) m) as Hm.
{ intros m. unfold relinked_model, with_brand; simpl. repeat split.
  destruct (bc !! brand_key (Model.brand m)) as [b|] eqn:Hb; simpl; [|done].
  unfold bc in Hb. rewrite brand_cache_lookup in Hb.
  by apply cached_key in Hb. }
assert (∀ y, relinked_year_model (with_model mc y) y) as Hy.
{ intros y. unfold relinked_year_model, with_model; simpl. repeat split.
  destruct (mc !! _) as [m|] eqn:Hc; simpl; [|done].
  rewrite Hmc in Hc. by apply cached_key in Hc. }
assert (∀ v, relinked_value (convert_fipe_value yc v) v) as Hv.
{ intros v. unfold relinked_value, convert_fipe_value; simpl. repeat split.
  destruct (yc !! _) as [y|] eqn:Hc; simpl; [|done].
  rewrite Hyc in Hc. by apply cached_key in Hc. }
split; [done|]. split; [done|].
split. { apply Forall2_fmap_l, Forall_Forall2_diag, Forall_forall. intros; apply Hm. }
split. { apply Forall2_fmap_l, Forall_Forall2_diag, Forall_forall. intros; apply Hy. }
split. { apply Forall2_fmap_l, Forall_Forall2_diag, Forall_forall. intros; apply Hv. }
split; [|split].
- rewrite <- list_fmap_compose. apply list_fmap_ext. intros _ m _. simpl.
  destruct (Hm m) as (_ & _ & Hf & Ht & _). unfold Model.key. by rewrite Hf, Ht.
- rewrite <- list_fmap_compose. apply list_fmap_ext. intros _ y _. simpl.
  by destruct (Hy y) as (_ & _ & Ha & _).
- rewrite <- list_fmap_compose. apply list_fmap_ext. intros _ v _. simpl.
  destruct (Hv v) as (_ & _ & Hp & _ & _ & Ha).
  unfold FipeValue.key. unfold YearModel.key in Ha. by rewrite Hp, Ha.
Qed.

(** X4.  What [_dict_to_result] nests in a converted entity comes from
  its caches, which keep the last entity converted under a key: a
  model's brand is the last brand of the dictionary with the identity of
  the model's own brand dictionary, a year-model's model the last
  converted model with the identity of its model dictionary, a value's
  year-model the last converted year-model with its authentication; the
  nested dictionary itself is kept when there is none. *)
Theorem dict_to_result_relinks_to_last (data : ExtractionResult.t) :
let r := _dict_to_result data in
(∀ i m', models r !! i = Some m' →
   ∃ m, models data !! i = Some m
        ∧ Model.brand m' = cached Brand.key (brands data) (Model.brand m))
∧ (∀ i y', year_models r !! i = Some y' →
     ∃ y, year_models data !! i = Some y
          ∧ YearModel.model y' = cached Model.key (models r) (YearModel.model y))
∧ (∀ i v', fipe_values r !! i = Some v' →
     ∃ v, fipe_values data !! i = Some v
          ∧ FipeValue.year_model v'
            = cached YearModel.key (year_models r) (FipeValue.year_model v)).
Proof.
cbn zeta.
destruct (_dict_to_result_maps data) as (mc & yc & Hmc & Hyc & Heq).
rewrite Heq in Hmc, Hyc. rewrite Heq. simpl in *.
split; [|split].
- intros i m' Hi. apply list_lookup_fmap_Some in Hi as (m & -> & Hm).
  exists m. split; [done|]. unfold with_brand, cached; simpl.
  by rewrite brand_cache_lookup.
- intros i y' Hi. apply list_lookup_fmap_Some in Hi as (y & -> & Hy).
  exists y. split; [done|]. unfold with_model, cached; simpl.
  by rewrite Hmc.
- intros i v' Hi. apply list_lookup_fmap_Some in Hi as (v & -> & Hv).
  exists v. split; [done|]. unfold convert_fipe_value, cached; simpl.
  by rewrite Hyc.
Qed.

End conversion_properties.


Section run_properties.
Import ExtractionResult Orchestrator FileHandler.

Lemma take_slices {A} (l : list A) (s m : nat) :
mjoin (slice s l <$> ((λ k, (k * s)%nat) <$> seq 0 m)) = take (m * s) l.
Proof.
induction m as [|m IH]; [done|].
rewrite seq_S, !fmap_app, join_app, IH. simpl. rewrite app_nil_r.
unfold slice. rewrite take_take_drop. f_equal. lia.
Qed.

Lemma div_up_covers (n s : nat) : (0 < s)%nat → (n ≤ (n + s - 1) / s * s)%nat.
Proof.
intros Hs. pose proof (Nat.div_mod_eq (n + s - 1) s) as Hd.
pose proof (Nat.mod_upper_bound (n + s - 1) s) as Hm. lia.
Qed.

Lemma div_up_tight (n s k : nat) :
(0 < s)%nat → (k < (n + s - 1) / s)%nat → (k * s < n)%nat.
Proof.
intros Hs Hk. pose proof (Nat.div_mod_eq (n + s - 1) s) as Hd.
assert (S k * s ≤ (n + s - 1) / s * s)%nat as Hle by (apply Nat.mul_le_mono_r; lia).
lia.
Qed.

Lemma range_step_positive {A} (tasks : list A) (batch_size : Z) :
0 < batch_size →
∃ starts,
  Run.range_step (length tasks) batch_size = Return starts
  ∧ mjoin (slice (Z.to_nat batch_size) tasks <$> starts) = tasks
  ∧ (∀ start, start ∈ starts →
       (0 < length (slice (Z.to_nat batch_size) tasks start)
        ≤ Z.to_nat batch_size)%nat).
Proof.
unfold Run.range_step. intros Hs.
destruct (batch_size =? 0) eqn:H0; [apply Z.eqb_eq in H0; lia|].
destruct (batch_size <? 0) eqn:Hn; [apply Z.ltb_lt in Hn; lia|].
eexists. split; [done|].
assert (0 < Z.to_nat batch_size)%nat as Hpos by lia.
split.
- rewrite take_slices. apply take_ge.
  by apply div_up_covers.
- intros start Hstart. apply list_elem_of_fmap in Hstart as (k & -> & Hk).
  apply elem_of_seq in Hk as [_ Hk]. simpl in Hk.
  pose proof (div_up_tight (length tasks) _ k Hpos Hk) as Hlt.
  unfold slice. rewrite length_take, length_drop. lia.
Qed.

(** X5.  The parallel branch cuts the task list into consecutive batches
  of [batch_size] tasks: for a positive size, every task is in exactly
  one batch, in its place; no batch is empty or larger than the size.  A
  size of zero makes [range] raise, and for a negative size there is no
  batch at all. *)
Theorem batches_partition_tasks {A} (tasks : list A) (batch_size : Z) :
(0 < batch_size →
 ∃ starts,
   Run.range_step (length tasks) batch_size = Return starts
   ∧ mjoin (slice (Z.to_nat batch_size) tasks <$> starts) = tasks
   ∧ (∀ start, start ∈ starts →
        (0 < length (slice (Z.to_nat batch_size) tasks start)
         ≤ Z.to_nat batch_size)%nat))
∧ (batch_size = 0 → ∃ e, Run.range_step (length tasks) batch_size = Raise e)
∧ (batch_size < 0 → Run.range_step (length tasks) batch_size = Return []).
Proof.
split; [apply range_step_positive|]. unfold Run.range_step. split.
- intros ->. simpl. by eexists.
- intros Hn. destruct (batch_size =? 0) eqn:H0; [apply Z.eqb_eq in H0; lia|].
  apply Z.ltb_lt in Hn. by rewrite Hn.
Qed.

Lemma batches_partition_tasks_witness :
∃ starts,
  Run.range_step 3 2 = Return starts
  ∧ mjoin (slice 2 three_tasks <$> starts) = three_tasks.
Proof.
destruct (batches_partition_tasks three_tasks 2) as [Hpos _].
destruct (Hpos ltac:(lia)) as (starts & Hr & Hj & _).
exists starts. split; [exact Hr | exact Hj].
Defined.

Lemma string_length_app (a b : string) :
String.length (a +:+ b) = (String.length a + String.length b)%nat.
Proof. induction a as [|c a IH]; simpl; [done|]. by rewrite IH. Qed.

Lemma is_json_suffix (stem : string) : is_json (stem +:+ ".json") = true.
Proof.
unfold is_json. apply andb_true_iff. split.
- apply Nat.leb_le. rewrite string_length_app. simpl. lia.
- rewrite string_length_app.
  replace (String.length stem + String.length ".json" - 5)%nat
    with (String.length stem) by (simpl; lia).
  apply String.eqb_eq.
  induction stem as [|c stem IH]; [done|]. simpl. exact IH.
Qed.

Lemma string_app_assoc (a b c : string) : a +:+ (b +:+ c) = (a +:+ b) +:+ c.
Proof.
induction a as [|x a IH]; [by rewrite !append_nil|].
by rewrite !append_cons, IH.
Qed.

Ltac split_pairs := repeat match goal with |- (_, _) = (_, _) => f_equal end.

Section aggregate.
Context (cfg : Config.t).

Lemma run_batches_final batches : ∀ n final,
(run_batches cfg batches n final).1
= foldl absorb final (mjoin (omap (collected cfg) <$> batches)).
Proof.
induction batches as [|b batches IH]; intros n final; simpl; [done|].
rewrite _process_batch_omap. simpl.
destruct (run_batches cfg batches (S n) _) as [r files] eqn:Hrun.
rewrite foldl_app. simpl.
specialize (IH (S n) (foldl absorb final (omap (collected cfg) b))).
unfold absorb in *. rewrite Hrun in IH. exact IH.
Qed.

Lemma collected_unbroken (xs : list execution) :
(∀ x, x ∈ xs → broken x = None) →
omap (collected cfg) xs = worker_dict cfg <$> xs.
Proof.
induction xs as [|x xs IH]; intros Hall; simpl; [done|].
unfold collected at 1, future_result. rewrite (Hall x) by by left.
simpl. f_equal. apply IH. intros y Hy. apply Hall. by right.
Qed.

Lemma _dict_to_result_keys data :
keys_of (_dict_to_result data) = keys_of data.
Proof.
destruct (_dict_to_result_maps data) as (mc & yc & Hmc & Hyc & ->).
unfold keys_of, period_keys, brand_keys, model_keys, year_keys, value_keys,
  existing_of; simpl.
rewrite <- !list_fmap_compose.
rewrite (list_fmap_ext (Model.key ∘ with_brand _) Model.key (models data))
  by (intros _ m _; done).
rewrite (list_fmap_ext (YearModel.key ∘ with_model mc) YearModel.key
           (year_models data)) by (intros _ y _; done).
rewrite (list_fmap_ext (FipeValue.key ∘ convert_fipe_value yc) FipeValue.key
           (fipe_values data)); [done|].
intros _ v _. simpl.
unfold FipeValue.key, convert_fipe_value; simpl. f_equal.
destruct (yc !! _) as [y|] eqn:Hc; simpl; [|done].
rewrite Hyc in Hc. by apply cached_key in Hc.
Qed.

Lemma keys_of_merge a b :
keys_of (merge a b)
= (period_keys a ∪ period_keys b, brand_keys a ∪ brand_keys b,
   model_keys a ∪ model_keys b, year_keys a ∪ year_keys b,
   value_keys a ∪ value_keys b).
Proof.
unfold keys_of, period_keys, brand_keys, model_keys, year_keys, value_keys, merge.
simpl. by rewrite !merge_list_keys.
Qed.

Lemma keys_of_absorb a r :
keys_of (absorb a r)
= (period_keys a ∪ period_keys r, brand_keys a ∪ brand_keys r,
   model_keys a ∪ model_keys r, year_keys a ∪ year_keys r,
   value_keys a ∪ value_keys r).
Proof.
unfold absorb. rewrite keys_of_merge.
pose proof (_dict_to_result_keys r) as Hk. unfold keys_of in Hk.
by injection Hk as -> -> -> -> ->.
Qed.

(** The keys of an aggregate: those it started from and those of the
  dictionaries absorbed. *)
Lemma keys_of_foldl_absorb rs : ∀ final,
keys_of (foldl absorb final rs)
= (period_keys final ∪ ⋃ (period_keys <$> rs),
   brand_keys final ∪ ⋃ (brand_keys <$> rs),
   model_keys final ∪ ⋃ (model_keys <$> rs),
   year_keys final ∪ ⋃ (year_keys <$> rs),
   value_keys final ∪ ⋃ (value_keys <$> rs)).
Proof.
induction rs as [|r rs IH]; intros final; simpl.
- unfold keys_of. split_pairs; apply leibniz_equiv; set_solver.
- rewrite IH.
  pose proof (keys_of_absorb final r) as Hk. unfold keys_of in Hk.
  injection Hk as -> -> -> -> ->.
  split_pairs; apply leibniz_equiv; set_solver.
Qed.

Lemma union_list_perm {K} `{Countable K} (l l' : list (gset K)) :
l ≡ₚ l' → ⋃ l = ⋃ l'.
Proof.
intros Hp. apply leibniz_equiv. by rewrite Hp.
Qed.

End aggregate.

Lemma run_batches_files cfg batches : ∀ n final,
length (run_batches cfg batches n final).2 = length batches
∧ Forall (λ e, is_json e.1 = true ∧ ∃ b d, e.2 = Batch b d)
    (run_batches cfg batches n final).2
∧ (batches ≠ [] →
   ∃ name b, last (run_batches cfg batches n final).2
             = Some (name, Batch b (run_batches cfg batches n final).1)).
Proof.
induction batches as [|b batches IH]; intros n final; simpl.
- split; [done|]. split; [constructor | done].
- specialize (IH (S n)
    (foldl (λ acc r, merge acc (_dict_to_result r)) final (_process_batch cfg b).1)).
  destruct (run_batches cfg batches (S n) _) as [r files] eqn:Hrun.
  destruct IH as (Hlen & Hall & Hlast). simpl in *.
  split; [by rewrite Hlen|]. split.
  + constructor; [|done]. simpl. split; [rewrite string_app_assoc; apply is_json_suffix | by eexists _, _].
  + intros _. destruct batches as [|b' batches'].
    * simpl in Hrun. injection Hrun as <- <-. simpl. by eexists _, _.
    * destruct Hlast as (name & k & Hl); [done|].
      exists name, k. rewrite last_cons, Hl. done.
Qed.

Lemma consolidate_nothing (entries : list (string * document)) :
entries ≠ [] →
Forall (λ e, is_json e.1 = true ∧ ∃ b d, e.2 = Batch b d) entries →
consolidate_partials (Some entries) = Some ExtractionResult.empty.
Proof.
intros Hne Hall. unfold consolidate_partials. simpl.
assert (filter (λ e : string * document, is_json e.1 = true) entries = entries) as ->.
{ clear Hne. induction Hall as [|e es [He _] _ IH]; [done|].
  rewrite filter_cons, decide_True by done. by rewrite IH. }
assert (∀ acc, foldl consolidate_file acc (snd <$> entries) = acc) as Hfold.
{ clear Hne. induction Hall as [|x xs [_ (b & d & Hx)] _ IH]; intros acc; [done|].
  simpl. rewrite Hx. unfold consolidate_file. simpl.
  destruct acc as [[] ? ? ? ? ?]. simpl. apply IH. }
destruct entries as [|e es]; [done|].
change (Some (sort_consolidated
                (consolidated (foldl consolidate_file start (snd <$> e :: es))))
        = Some ExtractionResult.empty).
by rewrite Hfold.
Qed.

(** X6.  With a positive number of workers, no worker process breaking
  and the futures of every batch completing in the order of submission,
  the parallel branch of [run] returns the aggregate the sequential
  branch returns, whatever the batch size; it saves one file per
  batch. *)
Theorem parallel_in_order_is_sequential (cfg : Config.t)
  (run_task : ExtractionTask → execution) (tasks : list ExtractionTask)
  (final_result : ExtractionResult.t) :
0 < Config.MAX_WORKERS cfg →
(∀ t, broken (run_task t) = None) →
∃ starts files,
  Run.range_step (length tasks) (Config.MAX_WORKERS cfg * 2) = Return starts
  ∧ Run.run_parallel cfg run_task id tasks final_result
    = Return (Run.run_sequential cfg (run_task <$> tasks) final_result, files)
  ∧ length files = length starts.
Proof.
intros Hw Hub.
destruct (range_step_positive tasks (Config.MAX_WORKERS cfg * 2))
  as (starts & Hr & Hj & _); [lia|].
unfold Run.run_parallel. rewrite Hr.
set (batches := _ <$> starts).
exists starts, (run_batches cfg batches 0 final_result).2.
split; [done|]. split.
- f_equal. rewrite (surjective_pairing (run_batches _ _ _ _)). f_equal.
  rewrite run_batches_final. unfold Run.run_sequential, batches.
  rewrite <- list_fmap_compose.
  rewrite (list_fmap_ext _ (λ i, worker_dict cfg <$>
                                 (run_task <$> slice (Z.to_nat (Config.MAX_WORKERS cfg * 2))
                                                 tasks i)) starts).
  2: { intros _ i _. simpl. apply collected_unbroken.
       intros x Hx. apply list_elem_of_fmap in Hx as (t & -> & _). apply Hub. }
  assert (∀ ls final,
            foldl absorb final
              (mjoin ((λ l, worker_dict cfg <$> (run_task <$> l)) <$> ls))
            = foldl (λ acc x,
                       merge acc
                         (_dict_to_result
                            (_extract_worker cfg (service x) (started x) (task x)).1))
                    final (run_task <$> mjoin ls)) as Hgen.
  { induction ls as [|l ls IH]; intros final; simpl; [done|].
    rewrite !fmap_app, !foldl_app. rewrite <- IH. f_equal.
    rewrite foldl_fmap. reflexivity. }
  transitivity
    (foldl absorb final_result
       (mjoin ((λ l, worker_dict cfg <$> (run_task <$> l))
               <$> (slice (Z.to_nat (Config.MAX_WORKERS cfg * 2)) tasks <$> starts)))).
  { by rewrite <- list_fmap_compose. }
  by rewrite Hgen, Hj.
- destruct (run_batches_files cfg batches 0 final_result) as (Hlen & _).
  rewrite Hlen. unfold batches. by rewrite length_fmap.
Qed.

Lemma parallel_in_order_is_sequential_witness :
∃ files,
  Run.run_parallel Config.defaults (steady misshapen_service 1000) id three_tasks
    ExtractionResult.empty
  = Return (Run.run_sequential Config.defaults
              (steady misshapen_service 1000 <$> three_tasks) ExtractionResult.empty,
            files).
Proof.
destruct (parallel_in_order_is_sequential Config.defaults
            (steady misshapen_service 1000) three_tasks ExtractionResult.empty)
  as (starts & files & _ & Hrun & _).
- reflexivity.
- intros t. reflexivity.
- exists files. exact Hrun.
Defined.

(** X7.  The identity keys of the aggregate a parallel run builds are
  those it started from and those of the dictionaries of the futures
  that returned.  So they depend neither on how the tasks were cut into
  batches nor on the order in which their futures completed. *)
Theorem aggregate_keys_ignore_completion_order (cfg : Config.t)
  (batches batches' : list (list execution)) (n n' : nat)
  (final_result : ExtractionResult.t) :
(let rs := omap (collected cfg) (mjoin batches) in
 keys_of (run_batches cfg batches n final_result).1
 = (period_keys final_result ∪ ⋃ (period_keys <$> rs),
    brand_keys final_result ∪ ⋃ (brand_keys <$> rs),
    model_keys final_result ∪ ⋃ (model_keys <$> rs),
    year_keys final_result ∪ ⋃ (year_keys <$> rs),
    value_keys final_result ∪ ⋃ (value_keys <$> rs)))
∧ (mjoin batches ≡ₚ mjoin batches' →
   keys_of (run_batches cfg batches n final_result).1
   = keys_of (run_batches cfg batches' n' final_result).1).
Proof.
assert (∀ bs : list (list execution),
          mjoin (omap (collected cfg) <$> bs) = omap (collected cfg) (mjoin bs))
  as Hjoin.
{ induction bs as [|b bs IH]; simpl; [done|]. rewrite omap_app. f_equal. exact IH. }
split.
- cbn zeta. by rewrite run_batches_final, keys_of_foldl_absorb, Hjoin.
- intros Hp. rewrite !run_batches_final, !keys_of_foldl_absorb, !Hjoin.
  split_pairs; f_equal; apply union_list_perm; by rewrite Hp.
Qed.

Lemma aggregate_keys_ignore_completion_order_witness :
let xs := steady misshapen_service 1000 <$> three_tasks in
keys_of (run_batches Config.defaults [take 2 xs; drop 2 xs] 0
           ExtractionResult.empty).1
= keys_of (run_batches Config.defaults [take 1 xs; drop 1 xs] 0
             ExtractionResult.empty).1.
Proof.
cbn zeta.
apply (aggregate_keys_ignore_completion_order Config.defaults).
reflexivity.
Defined.

(** X8.  Every file the parallel branch saves is named [batch_<n>.json]
  and wraps its data in a [{"batch": ..., "data": ...}] object; the last
  one holds the aggregate the run returns.  Consolidation reads the
  entity arrays at the top level of a file, so from these files, in
  whatever order the directory lists them, it gathers nothing: the
  consolidated artifact it writes is empty. *)
Theorem saved_batches_consolidate_to_nothing (cfg : Config.t)
  (batches : list (list execution)) (n : nat) (final_result : ExtractionResult.t)
  (entries : list (string * document)) :
batches ≠ [] →
entries ≡ₚ (run_batches cfg batches n final_result).2 →
(∀ name doc, (name, doc) ∈ entries →
   is_json name = true ∧ ∃ b data, doc = Batch b data)
∧ (∃ name b, last (run_batches cfg batches n final_result).2
             = Some (name, Batch b (run_batches cfg batches n final_result).1))
∧ consolidate_partials (Some entries) = Some ExtractionResult.empty.
Proof.
intros Hne Hp.
destruct (run_batches_files cfg batches n final_result) as (Hlen & Hall & Hlast).
rewrite <- Hp in Hall.
split; [|split].
- intros name doc Hin. rewrite Forall_forall in Hall. exact (Hall _ Hin).
- by apply Hlast.
- apply consolidate_nothing; [|done].
  intros ->. apply Permutation_nil_l in Hp.
  rewrite <- Hp in Hlen. simpl in Hlen. by destruct batches.
Qed.

Lemma saved_batches_consolidate_to_nothing_witness :
let x := steady misshapen_service 1000 in
consolidate_partials
  (Some (run_batches Config.defaults [x <$> three_tasks] 0 ExtractionResult.empty).2)
= Some ExtractionResult.empty.
Proof.
cbn zeta.
apply (saved_batches_consolidate_to_nothing Config.defaults
         [steady misshapen_service 1000 <$> three_tasks] 0 ExtractionResult.empty).
- discriminate.
- reflexivity.
Defined.

End run_properties.


Section retry_properties.
Import FipeClient.

Section trace.
Context (cfg : Config.t) (env : remote).

Lemma wait_clock c : clock c ≤ clock (_wait_for_rate_limit cfg env c).
Proof.
unfold _wait_for_rate_limit, time_time. simpl.
destruct (_ <? _) eqn:Hlt; simpl; [apply Z.ltb_lt in Hlt|]; lia.
Qed.

Lemma attempt_clock rq c :
∃ d, dispatched (attempt cfg env rq c).2 = d :: dispatched c
     ∧ clock c ≤ d ≤ clock (attempt cfg env rq c).2.
Proof.
pose proof (wait_frame cfg env c) as (Hi & Hd & _).
pose proof (wait_clock c) as Hc.
unfold attempt, session_post.
remember (_wait_for_rate_limit cfg env c) as w eqn:Hw. clear Hw.
simpl. rewrite Hd.
destruct (post env (invocations w) rq) as [resp|e].
- simpl. destruct (classify resp) as [res logged] eqn:Hcl. simpl.
  match goal with |- context [foldr emit ?c0 logged] =>
    pose proof (foldr_emit_frame logged c0) as (Hc' & _ & _ & Hd' & _)
  end.
  rewrite Hd', Hc'. simpl. eexists. split; [done|]. lia.
- destruct e; simpl; (eexists; split; [done|lia]).
Qed.

Lemma wait_exponential_nonneg k : 0 ≤ wait_exponential cfg k.
Proof. unfold wait_exponential. lia. Qed.

Ltac single :=
  (split; [lia|]); (split; [done|]); (split; [lia|]);
  (split; [intros ? [= <-]; lia|]); (split; [intros ? [= <-]; lia|]);
  (split; [intros [|?] ? ? ? ?; done|]); (split; [intros ? ?; lia|]); done.

(** The run of the retry loop: the dispatch times of its attempts,
  oldest first. *)
Lemma retrying_trace rq further : ∀ k c,
let call := retrying cfg env (attempt cfg env rq) further k c in
∃ times,
  (1 ≤ length times ≤ S further)%nat
  ∧ dispatched call.2 = reverse times ++ dispatched c
  ∧ invocations call.2 = (invocations c + length times)%nat
  ∧ (∀ d, head times = Some d → clock c ≤ d)
  ∧ (∀ d, last times = Some d → d ≤ clock call.2)
  ∧ (∀ j d d', times !! j = Some d → times !! S j = Some d' →
       d + wait_exponential cfg (k + j) ≤ d')
  ∧ (∀ i, (i < length times - 1)%nat →
       ∃ e, attempt_outcome (post env (invocations c + i)%nat rq) = Raise e
            ∧ retryable e = true)
  ∧ match attempt_outcome (post env (invocations c + length times - 1)%nat rq) with
    | Return body => call.1 = Return body
    | Raise e =>
        if retryable e
        then length times = S further ∧ call.1 = Raise (Py.RetryError e)
        else call.1 = Raise e
    end.
Proof.
induction further as [|further IH]; intros k c; cbn zeta; simpl;
  pose proof (attempt_spec cfg env rq c) as (Hr & Hi & _);
  destruct (attempt_clock rq c) as (d1 & Hd1 & Hc1);
  destruct (attempt cfg env rq c) as [r c1] eqn:Ha; simpl in *; subst r.
- exists [d1]. simpl.
  replace (invocations c + 1 - 1)%nat with (invocations c) by lia.
  destruct (attempt_outcome _) as [body|e] eqn:Ho; [|destruct (retryable e) eqn:Hre];
    simpl; single.
- destruct (attempt_outcome (post env (invocations c) rq)) as [body|e] eqn:Ho;
    [|destruct (retryable e) eqn:Hre].
  + exists [d1]. simpl.
    replace (invocations c + 1 - 1)%nat with (invocations c) by lia.
    rewrite Ho. single.
  + set (c2 := time_sleep env (wait_exponential cfg k)
                 (emit (Py.Log Py.INFO "fipe_client" "Retrying" (Some e)) c1)).
    destruct (IH (S k) c2) as (times & Hlen & Hdis & Hinv & Hhead & Hlast & Hgap
                               & Hfail & Hres).
    cbn zeta in *.
    assert (invocations c2 = S (invocations c)) as Hi2 by (by rewrite <- Hi).
    assert (dispatched c2 = d1 :: dispatched c) as Hd2 by (by rewrite <- Hd1).
    assert (clock c1 + wait_exponential cfg k ≤ clock c2) as Hc2.
    { unfold c2, time_sleep, tick. simpl. lia. }
    exists (d1 :: times). simpl.
    split; [lia|]. split.
    { rewrite Hdis, Hd2, reverse_cons, <- app_assoc. done. }
    split; [rewrite Hinv, Hi2; lia|].
    split; [intros ? [= <-]; lia|].
    split.
    { intros d Hd. rewrite last_cons in Hd.
      destruct (last times) as [d'|] eqn:Hl.
      - injection Hd as <-. by apply Hlast.
      - destruct times as [|t ts]; [simpl in Hlen; lia|].
        rewrite last_cons in Hl. by destruct (last ts). }
    split.
    { intros [|j] d d' Hj Hj'; simpl in *.
      - injection Hj as <-. rewrite Nat.add_0_r.
        assert (clock c2 ≤ d') as Hh.
        { apply Hhead. by destruct times as [|? ?]; [|injection Hj' as <-]. }
        unfold c2 in Hh. simpl in Hh. lia.
      - replace (k + S j)%nat with (S k + j)%nat by lia. by eapply Hgap. }
    split.
    { intros [|i] Hi'.
      - rewrite Nat.add_0_r. by exists e.
      - destruct (Hfail i) as (e' & He' & Hre'); [lia|].
        exists e'. rewrite Hi2 in He'.
        by replace (invocations c + S i)%nat with (S (invocations c) + i)%nat by lia. }
    change (invocations c2) with (invocations c1) in Hres.
    rewrite Hi in Hres.
    replace (invocations c + S (length times) - 1)%nat
      with (S (invocations c) + length times - 1)%nat by lia.
    destruct (attempt_outcome
                (post env (S (invocations c) + length times - 1)%nat rq))
      as [body'|e'] eqn:Ho'; [done|].
    destruct (retryable e'); [|done].
    destruct Hres as [Hl Hr']. split; [by rewrite Hl | done].
  + exists [d1]. simpl.
    replace (invocations c + 1 - 1)%nat with (invocations c) by lia.
    rewrite Ho, Hre. single.
Qed.

End trace.

(** X9.  A call of the client makes at least one and at most
  max(1, MAX_RETRIES) attempts, each with one POST.  Every attempt but
  the last raised a retryable exception; the call ends with the first
  result or exception that is not retryable, passed on as it is, or,
  the attempts being used up, with [RetryError] around the retryable
  exception of the last one. *)
Theorem request_tries_until_settled (cfg : Config.t) (env : remote)
  (endpoint : string) (payload : list (string * py)) (c : t) :
let rq := mk_request endpoint payload in
let call := _make_request cfg env endpoint payload c in
∃ n,
  (1 ≤ n ≤ Z.to_nat (Z.max 1 (Config.MAX_RETRIES cfg)))%nat
  ∧ invocations call.2 = (invocations c + n)%nat
  ∧ (∀ i, (i < n - 1)%nat →
       ∃ e, attempt_outcome (post env (invocations c + i)%nat rq) = Raise e
            ∧ retryable e = true)
  ∧ settled cfg n (attempt_outcome (post env (invocations c + n - 1)%nat rq)) call.1.
Proof.
cbn zeta. unfold _make_request.
destruct (retrying_trace cfg env (mk_request endpoint payload)
            (further_attempts cfg) 1 c)
  as (times & Hlen & _ & Hinv & _ & _ & _ & Hfail & Hres).
cbn zeta in *.
assert (S (further_attempts cfg) = Z.to_nat (Z.max 1 (Config.MAX_RETRIES cfg)))
  as Hn by (unfold further_attempts; lia).
exists (length times). split; [lia|]. split; [done|]. split; [done|].
unfold settled.
destruct (attempt_outcome _) as [body|e]; [done|].
destruct (retryable e); [|done]. by rewrite <- Hn.
Qed.

(** X10.  The POSTs of one call are spaced by the backoff: the POST of
  attempt number k+1 is dispatched no earlier than
  [wait_exponential k] after the POST of attempt number k, and that
  wait is never less than the initial backoff nor, when the initial
  backoff does not exceed it, more than the maximal one. *)
Theorem retries_back_off (cfg : Config.t) (env : remote)
  (endpoint : string) (payload : list (string * py)) (c : t) :
let call := _make_request cfg env endpoint payload c in
(∃ times,
   dispatched call.2 = reverse times ++ dispatched c
   ∧ length times = (invocations call.2 - invocations c)%nat
   ∧ ∀ k d d', times !! k = Some d → times !! S k = Some d' →
       d + wait_exponential cfg (S k) ≤ d')
∧ ∀ k, Z.max 0 (Config.INITIAL_BACKOFF cfg) ≤ wait_exponential cfg k
       ∧ (Z.max 0 (Config.INITIAL_BACKOFF cfg) ≤ Config.MAX_BACKOFF cfg →
          wait_exponential cfg k ≤ Config.MAX_BACKOFF cfg).
Proof.
cbn zeta. unfold _make_request. split.
- destruct (retrying_trace cfg env (mk_request endpoint payload)
              (further_attempts cfg) 1 c)
    as (times & _ & Hdis & Hinv & _ & _ & Hgap & _).
  cbn zeta in *. exists times. split; [done|]. split; [lia|].
  intros k d d' Hk Hk'. exact (Hgap k d d' Hk Hk').
- intros k. unfold wait_exponential. lia.
Qed.

Lemma split_free sep s : free_of sep s = true → Py.split sep s = [s].
Proof.
induction s as [|c s IH]; simpl; [done|].
intros [Hc Hs]%andb_true_iff. apply negb_true_iff in Hc.
by rewrite Hc, IH.
Qed.

Lemma split_sep sep a b :
free_of sep a = true →
Py.split sep (a +:+ String sep b) = a :: Py.split sep b.
Proof.
induction a as [|c a IH].
- intros _. rewrite append_nil. simpl. by rewrite Ascii.eqb_refl.
- intros H. simpl in H. apply andb_true_iff in H as [Hc Ha].
  apply negb_true_iff in Hc.
  rewrite append_cons. simpl. by rewrite Hc, IH.
Qed.

(** X11.  A value lookup reads the year and the fuel code off the year
  code: a code without a dash is sent whole as the year, with fuel code
  1; of [year-fuel] the two parts are sent, the fuel part read as an
  integer, and whatever follows a second dash is ignored.  When the fuel
  part, of [plain] text, is not an integer the lookup raises
  [ValueError] without a POST. *)
Theorem value_lookup_splits_year_code (cfg : Config.t) (env : remote)
  (reference_table_code vehicle_type brand_code model_code : Z)
  (year fuel extra : string) (c : t) :
free_of "-" year = true →
free_of "-" fuel = true →
let lookup := get_fipe_value cfg env reference_table_code vehicle_type
                brand_code model_code in
let request ano_modelo tipo_combustivel :=
  _make_request cfg env "ConsultarValorComTodosParametros"
    (value_payload reference_table_code vehicle_type brand_code model_code
       ano_modelo tipo_combustivel) in
lookup year c = request year 1 c
∧ lookup (year +:+ "-" +:+ fuel +:+ "-" +:+ extra) c
  = lookup (year +:+ "-" +:+ fuel) c
∧ match Py.int fuel with
  | Some tipo_combustivel =>
      lookup (year +:+ "-" +:+ fuel) c = request year tipo_combustivel c
  | None =>
      plain fuel = true →
      (∃ msg, (lookup (year +:+ "-" +:+ fuel) c).1 = Raise (Py.ValueError msg))
      ∧ invocations (lookup (year +:+ "-" +:+ fuel) c).2 = invocations c
  end.
Proof.
intros Hy Hf. cbn zeta. unfold get_fipe_value, value_payload.
assert (Py.split "-" (year +:+ "-" +:+ fuel) = [year; fuel]) as Hsplit.
{ change ("-" +:+ fuel) with (String "-" fuel).
  by rewrite (split_sep "-" year fuel Hy), (split_free "-" fuel Hf). }
assert (∃ parts, Py.split "-" (year +:+ "-" +:+ fuel +:+ "-" +:+ extra)
                 = year :: fuel :: parts) as (parts & Hsplit').
{ change ("-" +:+ fuel +:+ "-" +:+ extra) with (String "-" (fuel +:+ String "-" extra)).
  rewrite (split_sep "-" year _ Hy), (split_sep "-" fuel extra Hf). by eexists. }
rewrite (split_free "-" year Hy), Hsplit, Hsplit'. simpl.
split; [done|]. split; [done|].
destruct (Py.int fuel) as [n|]; [done|].
intros _. split; [by eexists | done].
Qed.

Lemma value_lookup_splits_year_code_witness :
get_fipe_value Config.defaults (always 404) 320 1 21 123 "2024-1" (init 1000)
= _make_request Config.defaults (always 404) "ConsultarValorComTodosParametros"
    (value_payload 320 1 21 123 "2024" 1) (init 1000).
Proof.
pose proof (value_lookup_splits_year_code Config.defaults (always 404)
              320 1 21 123 "2024" "1" "" (init 1000) eq_refl eq_refl)
  as (_ & _ & H).
exact H.
Defined.

End retry_properties.


Section vehicle_type_properties.

Lemma lower_char_idempotent c : Py.lower_char (Py.lower_char c) = Py.lower_char c.
Proof. by destruct c as [[] [] [] [] [] [] [] []]. Qed.

Lemma lower_idempotent s : Py.lower (Py.lower s) = Py.lower s.
Proof.
induction s as [|c s IH]; simpl; [done|].
by rewrite lower_char_idempotent, IH.
Qed.

Lemma from_string_all_types vehicle_type c :
VehicleType.from_string vehicle_type = Some c → c ∈ VehicleType.all_types.
Proof.
unfold VehicleType.from_string, VehicleType.all_types.
repeat (destruct (_ || _); [intros [= <-]; set_solver|]). done.
Qed.

Lemma to_string_from_string c :
c ∈ VehicleType.all_types →
VehicleType.from_string (VehicleType.to_string c) = Some c.
Proof.
unfold VehicleType.all_types. intros Hc.
apply list_elem_of_In in Hc. simpl in Hc.
destruct Hc as [<-|[<-|[<-|[]]]]; reflexivity.
Qed.

(** X12.  The two conversions of vehicle types: a code converts to a
  name and back to itself exactly when it is one of the three codes of
  [all_types]; any other code converts to ["unknown"], which does not
  convert back.  Whatever [from_string] accepts it turns into one of the
  three codes, and it ignores the case of ASCII letters. *)
Theorem vehicle_type_round_trip (vehicle_code : Z) (vehicle_type : string) :
(VehicleType.from_string (VehicleType.to_string vehicle_code) = Some vehicle_code
 ↔ vehicle_code ∈ VehicleType.all_types)
∧ (vehicle_code ∉ VehicleType.all_types →
   VehicleType.to_string vehicle_code = "unknown"
   ∧ VehicleType.from_string (VehicleType.to_string vehicle_code) = None)
∧ (∀ c, VehicleType.from_string vehicle_type = Some c →
        c ∈ VehicleType.all_types
        ∧ VehicleType.from_string (VehicleType.to_string c) = Some c)
∧ VehicleType.from_string (Py.lower vehicle_type)
  = VehicleType.from_string vehicle_type.
Proof.
assert (vehicle_code ∉ VehicleType.all_types →
        VehicleType.to_string vehicle_code = "unknown") as Hunknown.
{ unfold VehicleType.all_types, VehicleType.to_string,
    VehicleType.CAR, VehicleType.BIKE, VehicleType.TRUCK.
  intros Hn.
  destruct (vehicle_code =? 1) eqn:H1; [apply Z.eqb_eq in H1; set_solver|].
  destruct (vehicle_code =? 2) eqn:H2; [apply Z.eqb_eq in H2; set_solver|].
  destruct (vehicle_code =? 3) eqn:H3; [apply Z.eqb_eq in H3; set_solver|].
  done. }
split; [|split; [|split]].
- split; [|apply to_string_from_string].
  intros Hrt. destruct (decide (vehicle_code ∈ VehicleType.all_types)); [done|].
  rewrite Hunknown in Hrt by done. done.
- intros Hn. rewrite Hunknown by done. done.
- intros c Hc. pose proof (from_string_all_types _ _ Hc) as Hin.
  split; [done | by apply to_string_from_string].
- unfold VehicleType.from_string. by rewrite lower_idempotent.
Qed.

Lemma valid_type_converts vt :
Py.lower vt ∈ FipeScraper.valid_types →
∃ c, VehicleType.from_string vt = Some c.
Proof.
unfold FipeScraper.valid_types, VehicleType.from_string. intros Hv.
apply list_elem_of_In in Hv. simpl in Hv.
destruct Hv as [<-|[<-|[<-|[<-|[<-|[<-|[<-|[]]]]]]]]; by eexists.
Qed.

Lemma mapM_from_string_all_types vts codes :
mapM VehicleType.from_string vts = Some codes →
Forall (λ c, c ∈ VehicleType.all_types) codes ∧ length codes = length vts.
Proof.
revert codes. induction vts as [|vt vts IH]; intros codes; simpl.
- intros [= <-]. by split.
- destruct (VehicleType.from_string vt) as [c|] eqn:Hc; [|done]. simpl.
  destruct (mapM VehicleType.from_string vts) as [cs|]; [|done]. simpl.
  intros [= <-]. destruct (IH cs eq_refl) as [Hall Hlen].
  split; [|by rewrite <- Hlen].
  constructor; [by eapply from_string_all_types | done].
Qed.

(** X13.  The vehicle types [FipeScraper.__init__] lets through are
  types [Orchestrator.__init__] converts: the conversion does not raise,
  and it yields one of the three codes for each type given, or the three
  codes when none is given. *)
Theorem validated_vehicle_types_convert (vehicle_types : list string) :
FipeScraper.validate_vehicle_types vehicle_types = Return tt →
∃ codes,
  Run.vehicle_type_codes (Some vehicle_types) = Some codes
  ∧ Forall (λ c, c ∈ VehicleType.all_types) codes
  ∧ (vehicle_types = [] → codes = VehicleType.all_types)
  ∧ (vehicle_types ≠ [] → length codes = length vehicle_types).
Proof.
intros Hv.
assert (∃ codes, mapM VehicleType.from_string vehicle_types = Some codes)
  as (codes & Hcodes).
{ induction vehicle_types as [|vt vts IH]; simpl in *; [by eexists|].
  destruct (bool_decide (Py.lower vt ∈ FipeScraper.valid_types)) eqn:Hvt; [|done].
  apply bool_decide_eq_true in Hvt.
  destruct (valid_type_converts vt Hvt) as (c & ->).
  destruct (IH Hv) as (cs & ->). by eexists. }
destruct (mapM_from_string_all_types _ _ Hcodes) as [Hall Hlen].
destruct vehicle_types as [|vt vts].
- exists VehicleType.all_types. simpl. split; [done|].
  split; [|done]. unfold VehicleType.all_types. repeat constructor; set_solver.
- exists codes. simpl in *. split; [done|]. split; [done|]. split; [done|]. done.
Qed.

Lemma validated_vehicle_types_convert_witness :
∃ codes, Run.vehicle_type_codes (Some ["Car"; "MOTO"]) = Some codes
         ∧ length codes = 2%nat.
Proof.
destruct (validated_vehicle_types_convert ["Car"; "MOTO"] eq_refl)
  as (codes & Hc & _ & _ & Hlen).
exists codes. split; [exact Hc | exact (Hlen ltac:(discriminate))].
Defined.

(** X14.  A period bound [FipeScraper.__init__] lets through is one
  [filter_by_range] can read: it parses, to a month between 1 and 12 of
  a year between 2000 and 2100. *)
Theorem validated_period_parses (period : string) :
truthy period = true →
FipeScraper._validate_period_format period = Return tt →
∃ year month,
  ReferenceScraper.parse_period period = Some (year, month)
  ∧ 1 ≤ month ≤ 12 ∧ 2000 ≤ year ≤ 2100.
Proof.
unfold FipeScraper._validate_period_format, ReferenceScraper.parse_period.
intros -> . simpl.
destruct (Py.split "/" period) as [|part0 [|part1 [|? ?]]]; try done.
destruct (Py.int part0) as [month|]; [|done].
destruct (Py.int part1) as [year|]; [|done].
destruct (negb _) eqn:Hm; [done|].
destruct (_ || _) eqn:Hy; [done|]. intros _.
exists year, month. split; [done|].
apply negb_false_iff, andb_true_iff in Hm as [?%Z.leb_le ?%Z.leb_le].
apply orb_false_iff in Hy as [?%Z.ltb_ge ?%Z.ltb_ge]. lia.
Qed.

Lemma validated_period_parses_witness :
∃ year month, ReferenceScraper.parse_period "01/2024" = Some (year, month).
Proof.
destruct (validated_period_parses "01/2024" eq_refl eq_refl)
  as (year & month & Hp & _).
exists year, month. exact Hp.
Defined.

End vehicle_type_properties.


Section reference_properties.

Lemma free_of_rev_app sep s1 : ∀ s2,
free_of sep (String.rev_app s1 s2) = free_of sep s1 && free_of sep s2.
Proof.
induction s1 as [|c s1 IH]; intros s2; simpl; [done|].
rewrite IH. simpl. destruct (negb _), (free_of sep s1), (free_of sep s2); done.
Qed.

Lemma free_of_lstrip sep s : free_of sep s = true → free_of sep (Py.lstrip s) = true.
Proof.
induction s as [|c s IH]; simpl; [done|].
intros [Hc Hs]%andb_true_iff.
destruct (Py.is_space c); [by apply IH|]. simpl. by rewrite Hc, Hs.
Qed.

Lemma free_of_strip sep s : free_of sep s = true → free_of sep (Py.strip s) = true.
Proof.
intros Hs. unfold Py.strip, String.rev.
rewrite free_of_rev_app, andb_true_r. apply free_of_lstrip.
rewrite free_of_rev_app, andb_true_r. by apply free_of_lstrip.
Qed.

Lemma month_num_spec month_name :
∃ month, Py.int (default "01" (FromApi.month_names !! month_name)) = Some month
         ∧ 1 ≤ month ≤ 12
         ∧ free_of "/" (default "01" (FromApi.month_names !! month_name)) = true.
Proof.
destruct (FromApi.month_names !! month_name) as [v|] eqn:Hv; simpl.
- unfold FromApi.month_names in Hv. apply elem_of_list_to_map_2 in Hv.
  apply list_elem_of_In in Hv. simpl in Hv.
  repeat (destruct Hv as [[= <- <-]|Hv];
          [eexists; split; [vm_compute; reflexivity|]; split; [lia | reflexivity]|]).
  done.
- exists 1. split; [reflexivity|]. split; [lia | reflexivity].
Qed.

(** X15.  A reference table row whose [Mes] is [<name>/<year>], both of
  [plain] text, becomes the period [<mm>/<year>], the year stripped of
  surrounding blanks and [mm] the two digits of the month the name
  stands for, lower-cased and stripped, or ["01"] when the name is not
  that of a month.  Such a period parses to a month between 1 and 12,
  or fails to when the year is not an integer.  A [Mes] without a slash
  is kept as it is and parses to (0, 0). *)
Theorem api_period_parses (data : FromApi.row) (name year : string) :
free_of "/" name = true →
free_of "/" year = true →
(plain name = true → plain year = true →
 FromApi.Mes data = Some (name +:+ "/" +:+ year) →
 let p := FromApi.reference_period_from_api_response data in
 ∃ month_num month,
   month_num = default "01" (FromApi.month_names !! Py.strip (Py.lower name))
   ∧ ReferencePeriod.period p = month_num +:+ "/" +:+ Py.strip year
   ∧ ReferencePeriod.code p = default 0 (FromApi.Codigo data)
   ∧ Py.int month_num = Some month
   ∧ 1 ≤ month ≤ 12
   ∧ ReferenceScraper.parse_period (ReferencePeriod.period p)
     = (y ← Py.int (Py.strip year); Some (y, month)))
∧ (FromApi.Mes data = Some name →
   let p := FromApi.reference_period_from_api_response data in
   ReferencePeriod.period p = name
   ∧ ReferenceScraper.parse_period (ReferencePeriod.period p) = Some (0, 0)).
Proof.
intros Hname Hyear. split.
- intros _ _ HMes. cbn zeta. unfold FromApi.reference_period_from_api_response.
  rewrite HMes. simpl.
  change ("/" +:+ year) with (String "/" year).
  rewrite (split_sep "/" name year Hname), (split_free "/" year Hyear).
  destruct (month_num_spec (Py.strip (Py.lower name))) as (month & Hint & Hrange & Hfree).
  eexists _, month. split; [reflexivity|]. simpl.
  split; [done|]. split; [done|]. split; [done|]. split; [done|].
  unfold ReferenceScraper.parse_period.
  change ("/" +:+ Py.strip year) with (String "/" (Py.strip year)).
  rewrite (split_sep "/" _ _ Hfree), (split_free "/" _ (free_of_strip _ _ Hyear)).
  rewrite Hint. by destruct (Py.int (Py.strip year)).
- intros HMes. cbn zeta. unfold FromApi.reference_period_from_api_response.
  rewrite HMes. simpl. rewrite (split_free "/" name Hname). simpl.
  split; [done|]. unfold ReferenceScraper.parse_period.
  by rewrite (split_free "/" name Hname).
Qed.

Lemma api_period_parses_witness :
let p := FromApi.reference_period_from_api_response april_row in
ReferencePeriod.period p = "04/2025"
∧ ReferenceScraper.parse_period (ReferencePeriod.period p) = Some (2025, 4).
Proof.
destruct (api_period_parses april_row "Abril" "2025 " eq_refl eq_refl) as [H _].
destruct (H eq_refl eq_refl eq_refl)
  as (month_num & month & -> & Hp & _ & Hint & _ & Hparse).
cbn zeta. rewrite Hparse, Hp. vm_compute in Hint. injection Hint as <-.
split; reflexivity.
Defined.




Lemma collect_fresh raw_data : ∀ periods seen,
ReferenceScraper.collect raw_data periods seen
= periods ++ fresh ReferencePeriod.key
               (FromApi.reference_period_from_api_response <$> raw_data) seen.
Proof.
induction raw_data as [|item rest IH]; intros periods seen; simpl.
- by rewrite app_nil_r.
- unfold ReferencePeriod.key at 1.
  destruct (decide (_ ∈ seen)); rewrite IH; [done|].
  by rewrite <- app_assoc.
Qed.

Lemma fresh_sublist {A K} `{Countable K} (key : A → K) (other : list A) :
∀ existing, sublist (fresh key other existing) other.
Proof.
induction other as [|x rest IH]; intros existing; simpl; [constructor|].
destruct (decide (key x ∈ existing)).
- apply sublist_cons, IH.
- apply sublist_skip, IH.
Qed.

(** X17.  [ReferenceScraper.extract] never raises.  When the client
  returns the reference tables it returns the periods made of the rows
  with the rows that repeat the period string of an earlier row left
  out: the periods follow one another as their rows do, each is the
  first row with its string, and no two have the same string.  When the
  client raises it logs the error and returns no period. *)
Theorem reference_extract_dedups
  (get_reference_tables : action FipeClient.t (list FromApi.row)) (c : FipeClient.t) :
let started :=
  FipeClient.emit
    (Py.Log Py.INFO "ReferenceScraper"
       "Iniciando extração de períodos de referência..." None) c in
let call := ReferenceScraper.extract get_reference_tables c in
match get_reference_tables started with
| (Return raw_data, c') =>
    let rows := FromApi.reference_period_from_api_response <$> raw_data in
    ∃ periods,
      call.1 = Return periods
      ∧ periods = fresh ReferencePeriod.key rows ∅
      ∧ sublist periods rows
      ∧ NoDup (ReferencePeriod.period <$> periods)
      ∧ (∀ p, p ∈ periods → p ∈ rows)
      ∧ (∀ k, head (with_key ReferencePeriod.key k periods)
              = head (with_key ReferencePeriod.key k rows))
| (Raise e, c') =>
    call.1 = Return []
    ∧ FipeClient.log call.2
      = Py.Log Py.ERROR "ReferenceScraper" "Erro ao extrair períodos de referência"
          (Some e) :: FipeClient.log c'
end.
Proof.
cbn zeta. unfold ReferenceScraper.extract, ReferenceScraper.logged.
unfold bind, try_except, modify, ret. simpl.
destruct (get_reference_tables _) as [[raw_data|e] c']; simpl; [|done].
rewrite collect_fresh. simpl.
eexists. split; [done|]. split; [done|].
split; [apply fresh_sublist|].
split; [apply (fresh_NoDup ReferencePeriod.key)|].
split.
- intros p Hp. by apply (fresh_not_existing ReferencePeriod.key) in Hp as [? _].
- intros k. apply (fresh_head ReferencePeriod.key). set_solver.
Qed.

End reference_properties.


Section task_properties.
Import Orchestrator.

Lemma brand_collect_spec vt period items : ∀ brands seen,
forallb (converts vt period) items = true →
BrandScraper.collect items vt period brands seen
= Return (brands ++ fresh Brand.key (brands_of vt period items) seen).
Proof.
induction items as [|item items IH]; intros brands seen; simpl.
- by rewrite app_nil_r.
- unfold converts at 1.
  destruct (FromApi.brand_from_api_response item vt (Some period)) as [b|e] eqn:Hb;
    simpl; [|done].
  intros Hall. unfold Brand.key at 1.
  destruct (decide (_ ∈ seen)); rewrite IH by done; [done|].
  by rewrite <- app_assoc.
Qed.

Lemma brand_collect_raises vt period items : ∀ brands seen,
forallb (converts vt period) items = false →
∃ e, BrandScraper.collect items vt period brands seen = Raise e.
Proof.
induction items as [|item items IH]; intros brands seen; simpl; [done|].
unfold converts at 1.
destruct (FromApi.brand_from_api_response item vt (Some period)) as [b|e] eqn:Hb;
  simpl; [|by eexists].
intros Hall. destruct (decide (_ ∈ seen)); by apply IH.
Qed.

Lemma brands_of_stamped vt period items :
Forall (λ b, Brand.vehicle_type b = vt ∧ Brand.initial_period b = Some period)
  (brands_of vt period items).
Proof.
unfold brands_of. induction items as [|item items IH]; simpl; [constructor|].
destruct (FromApi.brand_from_api_response item vt (Some period)) as [b|e] eqn:Hb;
  simpl; [|done].
constructor; [|done].
unfold FromApi.brand_from_api_response in Hb.
destruct item as [data|?]; [|done].
destruct (match data !! "Value" with Some _ => _ | None => _ end); [|done].
by injection Hb as <-.
Qed.

Lemma fresh_Forall {A K} `{Countable K} (key : A → K) (P : A → Prop) l E :
Forall P l → Forall P (fresh key l E).
Proof.
intros Hl. apply Forall_forall. intros x Hx.
apply fresh_not_existing in Hx as [Hx _]. rewrite Forall_forall in Hl. by apply Hl.
Qed.

Lemma stamped_names_distinct vt (brands : list Brand.t) :
Forall (λ b, Brand.vehicle_type b = vt) brands →
NoDup (Brand.key <$> brands) → NoDup (Brand.name <$> brands).
Proof.
intros Hvt Hnd.
assert (Brand.key <$> brands = (λ n, (n, vt)) <$> (Brand.name <$> brands)) as Heq.
{ rewrite <- list_fmap_compose. apply Forall_fmap_ext_1.
  eapply Forall_impl; [exact Hvt|]. intros b Hb. unfold Brand.key. simpl. by rewrite Hb. }
rewrite Heq in Hnd. by apply NoDup_fmap_1 in Hnd.
Qed.

Section single_period.
Context (cfg : Config.t) (env : FipeClient.remote).

Lemma extract_for_single_period_run period vehicle_type c :
BrandScraper.extract_for_single_period cfg env period vehicle_type c
= match FipeClient.get_brands cfg env (ReferencePeriod.code period) vehicle_type
          (FipeClient.emit
             (Py.Log Py.DEBUG "BrandScraper" "Extraindo marcas para período" None) c)
  with
  | (Return raw_brands, c') =>
      (BrandScraper.collect (Body.iterate raw_brands)
         (VehicleType.to_string vehicle_type) (ReferencePeriod.period period) [] ∅,
       c')
  | (Raise e, c') =>
      (Return [],
       FipeClient.emit
         (Py.Log Py.ERROR "BrandScraper" "Erro ao extrair marcas" (Some e)) c')
  end.
Proof.
unfold BrandScraper.extract_for_single_period, BrandScraper.logged.
unfold bind, try_except, modify, ret. simpl.
by destruct (FipeClient.get_brands _ _ _ _ _) as [[raw|e] c'].
Qed.

Lemma extract_for_single_period_stamped period vehicle_type c brands :
(BrandScraper.extract_for_single_period cfg env period vehicle_type c).1
= Return brands →
NoDup (Brand.name <$> brands)
∧ Forall (λ b, Brand.vehicle_type b = VehicleType.to_string vehicle_type
               ∧ Brand.initial_period b = Some (ReferencePeriod.period period))
    brands.
Proof.
rewrite extract_for_single_period_run.
destruct (FipeClient.get_brands _ _ _ _ _) as [[raw|e] c']; simpl.
- destruct (forallb (converts (VehicleType.to_string vehicle_type)
                         (ReferencePeriod.period period)) (Body.iterate raw)) eqn:Hall.
  2: { destruct (brand_collect_raises _ _ _ [] ∅ Hall) as (e & ->). done. }
  rewrite brand_collect_spec by done.
  intros [= <-]. simpl.
  pose proof (fresh_Forall Brand.key _ _ ∅
                (brands_of_stamped (VehicleType.to_string vehicle_type)
                   (ReferencePeriod.period period) (Body.iterate raw))) as Hst.
  split; [|done].
  apply (stamped_names_distinct (VehicleType.to_string vehicle_type)).
  + eapply Forall_impl; [exact Hst|]. by intros b [? _].
  + apply fresh_NoDup.
- intros [= <-]. split; constructor.
Qed.

End single_period.


Section tasks.
Context (cfg : Config.t) (env : FipeClient.remote) (uuid : nat → string).

Lemma tasks_for_brand brand code periods : ∀ tasks,
∃ new,
  foldl (λ tasks period,
           tasks ++ [mk_task (uuid (length tasks)) period brand code])
        tasks periods = tasks ++ new
  ∧ (λ t, (Orchestrator.brand t, Orchestrator.period t)) <$> new
    = (λ p, (brand, p)) <$> periods
  ∧ Forall (λ t, Orchestrator.vehicle_type t = code) new
  ∧ (numbered uuid tasks → numbered uuid (tasks ++ new)).
Proof.
induction periods as [|p periods IH]; intros tasks; simpl.
- exists []. rewrite app_nil_r. by repeat split.
- destruct (IH (tasks ++ [mk_task (uuid (length tasks)) p brand code]))
    as (new & -> & Hpairs & Hcode & Hnum).
  exists (mk_task (uuid (length tasks)) p brand code :: new).
  split; [by rewrite <- app_assoc|].
  split; [rewrite !fmap_cons; f_equal; exact Hpairs|].
  split; [by constructor|].
  intros Hn. rewrite cons_middle, app_assoc.
  apply Hnum. intros i t Hi.
  apply lookup_app_Some in Hi as [Hi|[Hlen Hi]]; [by apply Hn|].
  apply list_lookup_singleton_Some in Hi as [Hi <-]. simpl.
  f_equal. lia.
Qed.

Lemma tasks_for_spec brands periods code : ∀ tasks,
∃ new,
  Run.tasks_for uuid brands periods code tasks = tasks ++ new
  ∧ (λ t, (Orchestrator.brand t, Orchestrator.period t)) <$> new
    = pairs brands periods
  ∧ Forall (λ t, Orchestrator.vehicle_type t = code) new
  ∧ (numbered uuid tasks → numbered uuid (tasks ++ new)).
Proof.
unfold Run.tasks_for, pairs.
induction brands as [|b brands IH]; intros tasks; simpl.
- exists []. rewrite app_nil_r. by repeat split.
- destruct (tasks_for_brand b code periods tasks) as (new1 & -> & Hp1 & Hc1 & Hn1).
  destruct (IH (tasks ++ new1)) as (new2 & -> & Hp2 & Hc2 & Hn2).
  exists (new1 ++ new2). split; [by rewrite <- app_assoc|].
  split; [by rewrite fmap_app, Hp1, Hp2|].
  split; [by apply Forall_app|].
  intros Hn. rewrite app_assoc. by apply Hn2, Hn1.
Qed.

Lemma elem_of_pairs brands periods b p :
(b, p) ∈ pairs brands periods → b ∈ brands ∧ p ∈ periods.
Proof.
unfold pairs. intros Hin.
apply list_elem_of_bind in Hin as (b' & Hin & Hb').
apply list_elem_of_fmap in Hin as (p' & [= -> ->] & Hp'). done.
Qed.

Lemma pairs_app brands1 brands2 periods :
pairs (brands1 ++ brands2) periods = pairs brands1 periods ++ pairs brands2 periods.
Proof. unfold pairs. apply bind_app. Qed.

Lemma create_tasks_spec latest periods codes : ∀ tasks0 c tasks,
(Run.create_tasks cfg env uuid latest periods codes tasks0 c).1 = Return tasks →
∃ brands new,
  tasks = tasks0 ++ new
  ∧ (λ t, (Orchestrator.brand t, Orchestrator.period t)) <$> new
    = pairs brands periods
  ∧ Forall (λ b, Brand.initial_period b = Some (ReferencePeriod.period latest)) brands
  ∧ Forall (λ t, Orchestrator.vehicle_type t ∈ codes
                 ∧ Brand.vehicle_type (Orchestrator.brand t)
                   = VehicleType.to_string (Orchestrator.vehicle_type t)) new
  ∧ (numbered uuid tasks0 → numbered uuid tasks).
Proof.
induction codes as [|code codes IH]; intros tasks0 c tasks; simpl.
- intros [= <-]. exists [], []. rewrite app_nil_r.
  split; [done|]. split; [done|]. by repeat split.
- unfold bind at 1.
  pose proof (extract_for_single_period_stamped cfg env latest code c) as Hst.
  destruct (BrandScraper.extract_for_single_period cfg env latest code c)
    as [[brands1|e] c1]; simpl in *; [|done].
  destruct (Hst brands1 eq_refl) as [_ Hst1]. clear Hst.
  unfold bind, Run.logged, modify. simpl.
  destruct (tasks_for_spec brands1 periods code tasks0)
    as (new1 & -> & Hp1 & Hc1 & Hn1).
  intros Hrun. apply IH in Hrun as (brands2 & new2 & -> & Hp2 & Hi2 & Hv2 & Hn2).
  exists (brands1 ++ brands2), (new1 ++ new2).
  split; [by rewrite app_assoc|].
  split; [by rewrite fmap_app, pairs_app, Hp1, Hp2|].
  split.
  { apply Forall_app. split; [|done].
    eapply Forall_impl; [exact Hst1|]. by intros b [_ ?]. }
  split.
  { apply Forall_app. split.
    - apply Forall_forall. intros t Ht.
      rewrite Forall_forall in Hc1. rewrite (Hc1 t Ht).
      split; [by left|].
      assert ((Orchestrator.brand t, Orchestrator.period t)
              ∈ pairs brands1 periods) as Hin.
      { rewrite <- Hp1. apply list_elem_of_fmap. by exists t. }
      apply elem_of_pairs in Hin as [Hb _].
      rewrite Forall_forall in Hst1. by destruct (Hst1 _ Hb).
    - eapply Forall_impl; [exact Hv2|]. intros t [? ?]. split; [by right | done]. }
  intros Hn. by apply Hn2, Hn1.
Qed.

End tasks.

(** X19.  The tasks [run] creates pair every brand found with every
  period to process, brand by brand and period by period, one task for
  each pair, numbered in that order.  Every brand carries the string of
  the latest period as its initial period, and the name of its task's
  vehicle type code; so, the codes being among the three of
  [all_types], the worker of a task converts the vehicle type of its
  brand back to the code without raising. *)
Theorem tasks_pair_brands_with_periods (cfg : Config.t) (env : FipeClient.remote)
  (uuid : nat → string) (latest : ReferencePeriod.t)
  (periods : list ReferencePeriod.t) (codes : list Z) (c : FipeClient.t)
  (tasks : list ExtractionTask) :
(Run.create_tasks cfg env uuid latest periods codes [] c).1 = Return tasks →
∃ brands,
  (λ t, (Orchestrator.brand t, Orchestrator.period t)) <$> tasks
  = pairs brands periods
  ∧ length tasks = (length brands * length periods)%nat
  ∧ numbered uuid tasks
  ∧ Forall (λ b, Brand.initial_period b = Some (ReferencePeriod.period latest)) brands
  ∧ Forall (λ t, Orchestrator.vehicle_type t ∈ codes
                 ∧ Brand.vehicle_type (Orchestrator.brand t)
                   = VehicleType.to_string (Orchestrator.vehicle_type t)) tasks
  ∧ (Forall (λ code, code ∈ VehicleType.all_types) codes →
     Forall (λ t, VehicleType.from_string (Brand.vehicle_type (Orchestrator.brand t))
                  = Some (Orchestrator.vehicle_type t)) tasks).
Proof.
intros Hrun.
apply create_tasks_spec in Hrun as (brands & new & -> & Hp & Hi & Hv & Hn).
simpl in *. exists brands.
split; [done|]. split.
{ rewrite <- (length_fmap (λ t, (Orchestrator.brand t, Orchestrator.period t))), Hp.
  unfold pairs. clear. induction brands as [|b brands IH]; [done|].
  rewrite bind_cons, length_app, length_fmap, IH. simpl. lia. }
split; [by apply Hn|]. split; [done|]. split; [done|].
intros Hcodes. eapply Forall_impl; [exact Hv|].
intros t [Hin ->]. apply to_string_from_string.
rewrite Forall_forall in Hcodes. by apply Hcodes.
Qed.

Lemma tasks_pair_brands_with_periods_witness :
let service := FipeClient.mk_remote (λ _ _, ok two_brands) (λ _, 0%nat) (λ _, "") in
let periods := [ReferencePeriod.mk "12/2023" 304; ReferencePeriod.mk "01/2024" 305] in
∃ tasks,
  (Run.create_tasks Config.defaults service pretty (ReferencePeriod.mk "12/2023" 304)
     periods [1] [] (FipeClient.init 0)).1 = Return tasks
  ∧ length tasks = 4%nat.
Proof.
cbn zeta. eexists. split; [vm_compute; reflexivity|].
match goal with |- length ?ts = _ =>
  destruct (tasks_pair_brands_with_periods Config.defaults
              (FipeClient.mk_remote (λ _ _, ok two_brands) (λ _, 0%nat) (λ _, ""))
              pretty (ReferencePeriod.mk "12/2023" 304)
              [ReferencePeriod.mk "12/2023" 304; ReferencePeriod.mk "01/2024" 305]
              [1] (FipeClient.init 0) ts) as (brands & Hp & Hlen & _)
end.
- vm_compute. reflexivity.
- reflexivity.
Defined.

Section string_order.

Lemma ltb_negb_leb a b : String.ltb a b = negb (String.leb b a).
Proof.
unfold String.ltb, String.leb. rewrite String.compare_antisym.
by destruct (String.compare b a).
Qed.

Lemma leb_trans a b c :
String.leb a b = true → String.leb b c = true → String.leb a c = true.
Proof.
intros Hab Hbc. apply Is_true_true.
apply Is_true_true in Hab, Hbc.
exact (@transitivity _ String.le _ a b c Hab Hbc).
Qed.

Lemma leb_ltb_trans a b c :
String.leb a b = true → String.ltb b c = true → String.ltb a c = true.
Proof.
rewrite !ltb_negb_leb, !negb_true_iff. intros Hab Hbc.
destruct (String.leb c a) eqn:Hca; [|done].
by rewrite (leb_trans c a b Hca Hab) in Hbc.
Qed.

Lemma ltb_leb a b : String.ltb a b = true → String.leb a b = true.
Proof.
rewrite ltb_negb_leb, negb_true_iff. intros Hba.
destruct (String.leb_total a b) as [?|Hab]; [done|]. by rewrite Hab in Hba.
Qed.

Lemma compare_app_same_length a : ∀ b x y,
String.length a = String.length b →
String.compare a b ≠ Eq →
String.compare (a +:+ x) (b +:+ y) = String.compare a b.
Proof.
induction a as [|c a IH]; intros [|d b] x y Hlen Hne; try done.
rewrite !append_cons. simpl in *.
destruct (Ascii.compare c d); [|done..].
apply IH; [lia | done].
Qed.

End string_order.

(** X20.  The period [run] takes for the latest is the first of the
  periods whose string is greatest: every period before it has a
  smaller string, none after it a greater one.  Strings compare
  character by character, so of two periods in MM/yyyy form the one with
  the greater month is the greater, whatever the years. *)
Theorem latest_period_is_string_maximum (periods : list ReferencePeriod.t) :
(Run.latest_period periods = None ↔ periods = [])
∧ (∀ p, Run.latest_period periods = Some p →
     ∃ before after,
       periods = before ++ p :: after
       ∧ Forall (λ q, FileHandler.str_lt (ReferencePeriod.period q)
                        (ReferencePeriod.period p) = true) before
       ∧ Forall (λ q, FileHandler.str_lt (ReferencePeriod.period p)
                        (ReferencePeriod.period q) = false) after)
∧ (∀ month month' year year',
     String.length month = String.length month' →
     FileHandler.str_lt month month' = true →
     FileHandler.str_lt (month +:+ "/" +:+ year) (month' +:+ "/" +:+ year') = true).
Proof.
split; [|split].
- by destruct periods.
- destruct periods as [|first rest]; [done|]. simpl. intros p [= <-].
  induction rest as [|y rest IH] using rev_ind.
  + exists [], []. by repeat split.
  + rewrite foldl_app. simpl.
    destruct IH as (before & after & Heq & Hb & Ha).
    set (best := foldl _ first rest) in *.
    unfold FileHandler.str_lt in *.
    destruct (String.ltb (ReferencePeriod.period best) (ReferencePeriod.period y))
      eqn:Hlt.
    * exists (first :: rest), [].
      split; [by rewrite app_comm_cons|]. split; [|constructor].
      rewrite Heq. apply Forall_app. split; [|constructor; [done|]].
      -- eapply Forall_impl; [exact Hb|]. intros q Hq. simpl in Hq.
         eapply leb_ltb_trans; [apply ltb_leb; exact Hq | exact Hlt].
      -- eapply Forall_impl; [exact Ha|]. intros q Hq. simpl in Hq.
         rewrite ltb_negb_leb, negb_false_iff in Hq.
         by eapply leb_ltb_trans.
    * exists before, (after ++ [y]).
      split; [by rewrite app_comm_cons, Heq, <- app_assoc|].
      split; [done|]. apply Forall_app. split; [done|]. by constructor.
- intros month month' year year' Hlen. unfold FileHandler.str_lt, String.ltb.
  intros Hlt. rewrite compare_app_same_length; [done..|].
  by destruct (String.compare month month').
Qed.

End task_properties.


Section order_properties.
Import ExtractionResult FileHandler.

Lemma str_lt_strict : strict_order str_lt.
Proof.
unfold str_lt. split.
- intros a b Hab. rewrite ltb_negb_leb, negb_false_iff. by apply ltb_leb.
- intros a b c. rewrite !ltb_negb_leb, !negb_false_iff. intros Hab Hbc.
  by apply (leb_trans a b c).
- intros a b. rewrite !ltb_negb_leb, !negb_false_iff. intros Hba Hab.
  by apply String.leb_antisym.
Qed.

Lemma flip_strict {K} (before : K → K → bool) :
strict_order before → strict_order (λ a b, before b a).
Proof.
intros [Ha Hn Ht]. split.
- intros a b. apply Ha.
- intros a b c Hab Hbc. by apply (Hn c b a).
- intros a b Hab Hba. by apply Ht.
Qed.

Lemma lex_strict {K1 K2} (lt1 : K1 → K1 → bool) (lt2 : K2 → K2 → bool)
  (eqb1 : K1 → K1 → bool) :
(∀ a b, eqb1 a b = true ↔ a = b) →
strict_order lt1 → strict_order lt2 →
strict_order (λ a b : K1 * K2, lt1 a.1 b.1 || (eqb1 a.1 b.1 && lt2 a.2 b.2)).
Proof.
intros Heq [Ha1 Hn1 Ht1] [Ha2 Hn2 Ht2].
assert (∀ a, lt1 a a = false) as Hirr.
{ intros a. destruct (lt1 a a) eqn:H; [|done]. by rewrite (Ha1 a a H) in H. }
assert (∀ a, eqb1 a a = true) as Hrefl by (intros a; by apply Heq).
split.
- intros [a1 a2] [b1 b2]. simpl. intros Hab.
  apply orb_true_iff in Hab as [H1|[He H2]%andb_true_iff].
  + rewrite (Ha1 _ _ H1). simpl.
    destruct (eqb1 b1 a1) eqn:He; [|done].
    apply Heq in He as ->. by rewrite Hirr in H1.
  + apply Heq in He as ->. by rewrite Hirr, Hrefl, (Ha2 _ _ H2).
- intros [a1 a2] [b1 b2] [c1 c2]. simpl. intros Hba Hcb.
  apply orb_false_iff in Hba as [Hba1 Hba2], Hcb as [Hcb1 Hcb2].
  rewrite (Hn1 _ _ _ Hba1 Hcb1). simpl.
  destruct (eqb1 c1 a1) eqn:He; [|done]. apply Heq in He as ->. simpl.
  assert (a1 = b1) as <- by (by apply Ht1).
  rewrite Hrefl in Hba2, Hcb2. simpl in *. by apply (Hn2 a2 b2 c2).
- intros [a1 a2] [b1 b2]. simpl. intros Hab Hba.
  apply orb_false_iff in Hab as [Hab1 Hab2], Hba as [Hba1 Hba2].
  assert (a1 = b1) as <- by (by apply Ht1).
  rewrite Hrefl in Hab2, Hba2. simpl in *. f_equal. by apply Ht2.
Qed.

Lemma pair_lt_strict : strict_order pair_lt.
Proof.
apply (lex_strict str_lt str_lt String.eqb);
  [apply String.eqb_eq | apply str_lt_strict..].
Qed.

Lemma triple_lt_strict : strict_order triple_lt.
Proof.
pose proof (lex_strict pair_lt str_lt
              (λ a b, String.eqb a.1 b.1 && String.eqb a.2 b.2)) as H.
apply H; [|apply pair_lt_strict | apply str_lt_strict].
intros [a1 a2] [b1 b2]. simpl.
rewrite andb_true_iff, !String.eqb_eq. split; [by intros [-> ->] | by intros [= -> ->]].
Qed.

Section sorting.
Context {A K : Type} (key : A → K) (before : K → K → bool).
Context (Hstrict : strict_order before).

Lemma insert_sorted_ordered x l :
ordered key before l → ordered key before (insert_sorted key before x l).
Proof.
destruct Hstrict as [Ha Hn Ht].
induction l as [|y l IH]; simpl.
- intros _. by repeat split.
- intros [Hy Hs].
  destruct (before (key y) (key x)) eqn:Hyx; simpl.
  + split; [|by apply IH].
    rewrite (insert_sorted_Permutation key before x l).
    constructor; [by apply Ha | done].
  + split; [|done].
    constructor; [done|].
    eapply Forall_impl; [exact Hy|]. intros z Hz. simpl in Hz.
    by apply (Hn (key x) (key y) (key z)).
Qed.

Lemma sort_by_ordered l : ordered key before (sort_by key before l).
Proof.
unfold sort_by. induction l as [|x l IH]; simpl; [done|].
by apply insert_sorted_ordered.
Qed.

Lemma ordered_in_order l : ordered key before l → in_order key before l.
Proof.
induction l as [|x l IH]; intros Hs i j a b Hij Hi Hj; [done|].
destruct Hs as [Hx Hs].
destruct j as [|j]; [lia|]. simpl in Hj.
destruct i as [|i]; simpl in Hi.
- injection Hi as <-. rewrite Forall_forall in Hx.
  apply Hx. by eapply list_elem_of_lookup_2.
- apply (IH Hs i j); [lia | done..].
Qed.

Lemma sort_by_in_order l : in_order key before (sort_by key before l).
Proof. apply ordered_in_order, sort_by_ordered. Qed.

End sorting.

Section provenance.
Context {A K : Type} `{Countable K} (key : A → K).

Lemma elem_of_foldl_merge (ls : list (list A)) : ∀ acc x,
x ∈ foldl (merge_list key) acc ls → x ∈ acc ∨ x ∈ mjoin ls.
Proof.
induction ls as [|l ls IH]; intros acc x; simpl; [by left|].
intros Hx. apply IH in Hx as [Hx|Hx]; [|right; set_solver].
rewrite merge_list_fresh in Hx. apply elem_of_app in Hx as [Hx|Hx]; [by left|].
apply fresh_not_existing in Hx as [Hx _]. right. set_solver.
Qed.

End provenance.

Lemma elem_of_guarded {A} (kind : ExtractionResult.t → list A) (key0 : A → string)
  (docs : list ExtractionResult.t) (x : A) :
(∀ d, kind (guarded d) = nonempty key0 (kind d)) →
x ∈ mjoin ((kind ∘ guarded) <$> docs) →
truthy (key0 x) = true ∧ ∃ d, d ∈ docs ∧ x ∈ kind d.
Proof.
intros Hkind Hx. apply list_elem_of_join in Hx as (l & Hx & Hl).
apply list_elem_of_fmap in Hl as (d & -> & Hd). simpl in Hx.
rewrite Hkind in Hx. unfold nonempty in Hx.
apply list_elem_of_filter in Hx as [Ht Hx]. split; [done|]. by exists d.
Qed.

(** X21.  The artifact consolidation writes holds its periods from the
  greatest period string to the least, its brands by vehicle type and
  then name, its models by vehicle type, brand name and name.  No two
  entities of a kind share their consolidation key, every entity has a
  non-empty first key component (period, name, fipe_code,
  authentication), and every entity stands in an array of one of the
  files read. *)
Theorem consolidated_artifact_is_sorted (dir : directory) (out : ExtractionResult.t) :
consolidate_partials dir = Some out →
(in_order ReferencePeriod.period (λ a b, str_lt b a) (reference_periods out)
 ∧ in_order (λ x, (Brand.vehicle_type x, Brand.name x)) pair_lt (brands out)
 ∧ in_order (λ x, (Model.vehicle_type x, Brand.name (Model.brand x), Model.name x))
     triple_lt (models out))
∧ (NoDup (period_key <$> reference_periods out)
   ∧ NoDup (brand_key <$> brands out)
   ∧ NoDup (model_key <$> models out)
   ∧ NoDup (year_key <$> year_models out)
   ∧ NoDup (value_key <$> fipe_values out))
∧ (Forall (λ p, truthy (ReferencePeriod.period p) = true
                ∧ ∃ d, d ∈ read dir ∧ p ∈ reference_periods d) (reference_periods out)
   ∧ Forall (λ b, truthy (Brand.name b) = true
                  ∧ ∃ d, d ∈ read dir ∧ b ∈ brands d) (brands out)
   ∧ Forall (λ m, truthy (Model.fipe_code m) = true
                  ∧ ∃ d, d ∈ read dir ∧ m ∈ models d) (models out)
   ∧ Forall (λ y, truthy (YearModel.authentication y) = true
                  ∧ ∃ d, d ∈ read dir ∧ y ∈ year_models d) (year_models out)
   ∧ Forall (λ v, truthy (YearModel.authentication (FipeValue.year_model v)) = true
                  ∧ ∃ d, d ∈ read dir ∧ v ∈ fipe_values d) (fipe_values out)).
Proof.
intros Hout. apply consolidate_partials_merge in Hout. subst out.
rewrite foldl_file_merge. unfold sort_consolidated. simpl.
split; [|split].
- split; [|split].
  + apply sort_by_in_order, flip_strict, str_lt_strict.
  + apply sort_by_in_order, pair_lt_strict.
  + apply sort_by_in_order, triple_lt_strict.
- split; [|split; [|split; [|split]]].
  + unfold sort_periods. rewrite sort_by_Permutation.
    by apply foldl_merge_NoDup, NoDup_nil_2.
  + unfold sort_brands. rewrite sort_by_Permutation.
    by apply foldl_merge_NoDup, NoDup_nil_2.
  + unfold sort_models. rewrite sort_by_Permutation.
    by apply foldl_merge_NoDup, NoDup_nil_2.
  + by apply foldl_merge_NoDup, NoDup_nil_2.
  + by apply foldl_merge_NoDup, NoDup_nil_2.
- split; [|split; [|split; [|split]]].
  + unfold sort_periods. rewrite sort_by_Permutation.
    apply Forall_forall. intros x Hx.
    apply elem_of_foldl_merge in Hx as [Hx|Hx]; [by apply elem_of_nil in Hx|].
    by apply (elem_of_guarded reference_periods ReferencePeriod.period) in Hx.
  + unfold sort_brands. rewrite sort_by_Permutation.
    apply Forall_forall. intros x Hx.
    apply elem_of_foldl_merge in Hx as [Hx|Hx]; [by apply elem_of_nil in Hx|].
    by apply (elem_of_guarded brands Brand.name) in Hx.
  + unfold sort_models. rewrite sort_by_Permutation.
    apply Forall_forall. intros x Hx.
    apply elem_of_foldl_merge in Hx as [Hx|Hx]; [by apply elem_of_nil in Hx|].
    by apply (elem_of_guarded models Model.fipe_code) in Hx.
  + apply Forall_forall. intros x Hx.
    apply elem_of_foldl_merge in Hx as [Hx|Hx]; [by apply elem_of_nil in Hx|].
    by apply (elem_of_guarded year_models YearModel.authentication) in Hx.
  + apply Forall_forall. intros x Hx.
    apply elem_of_foldl_merge in Hx as [Hx|Hx]; [by apply elem_of_nil in Hx|].
    by apply (elem_of_guarded fipe_values
                (λ v, YearModel.authentication (FipeValue.year_model v))) in Hx.
Qed.

Lemma consolidated_artifact_is_sorted_witness :
NoDup (value_key <$> fipe_values first_listed).
Proof.
destruct (consolidated_artifact_is_sorted unordered_dir first_listed)
  as (_ & (_ & _ & _ & _ & Hv) & _).
- vm_compute. reflexivity.
- exact Hv.
Defined.

Lemma list_partial_files_skip entries1 entries2 name doc :
is_json name = false →
list_partial_files (Some (entries1 ++ (name, doc) :: entries2))
= list_partial_files (Some (entries1 ++ entries2)).
Proof.
intros Hn. simpl. rewrite !filter_app, filter_cons.
rewrite decide_False; [done|]. simpl. by rewrite Hn.
Qed.

Lemma consolidate_partials_read dir :
consolidate_partials dir
= match list_partial_files dir with
  | [] => None
  | _ => Some (sort_consolidated (foldl file_merge ExtractionResult.empty (read dir)))
  end.
Proof.
destruct (consolidate_partials dir) as [out|] eqn:Hout.
- pose proof (consolidate_partials_merge dir out Hout) as ->.
  unfold consolidate_partials in Hout. by destruct (list_partial_files dir).
- unfold consolidate_partials in Hout. by destruct (list_partial_files dir).
Qed.

(** X22.  Consolidation takes nothing from an entry of the directory
  whose name does not end in [.json], which it does not open, nor from
  a partial file on which [json.load] raises [JSONDecodeError], the one
  exception it catches: with such an entry or without it, the artifact
  is the same, as long as a partial file is left.  When such a file is
  the only partial file, it still writes an artifact, an empty one. *)
Theorem malformed_json_contributes_nothing
  (entries1 entries2 : list (string * document)) (name : string) (doc : document) :
(is_json name = false →
 consolidate_partials (Some (entries1 ++ (name, doc) :: entries2))
 = consolidate_partials (Some (entries1 ++ entries2)))
∧ (list_partial_files (Some (entries1 ++ entries2)) ≠ [] →
   consolidate_partials (Some (entries1 ++ (name, Undecodable) :: entries2))
   = consolidate_partials (Some (entries1 ++ entries2)))
∧ (is_json name = true →
   consolidate_partials (Some [(name, Undecodable)]) = Some ExtractionResult.empty).
Proof.
split; [|split].
- intros Hn. rewrite !consolidate_partials_read. unfold read.
  by rewrite (list_partial_files_skip _ _ _ _ Hn).
- intros Hne. rewrite !consolidate_partials_read. unfold read.
  destruct (is_json name) eqn:Hn.
  2: { by rewrite (list_partial_files_skip _ _ _ _ Hn). }
  simpl in *. rewrite !filter_app, filter_cons in *.
  rewrite decide_True by done.
  rewrite !fmap_app, !omap_app. simpl.
  destruct (filter _ entries1 ++ filter _ entries2) as [|e es] eqn:Hfiles; [done|].
  by destruct (filter _ entries1).
- intros Hn. unfold consolidate_partials. simpl.
  rewrite filter_cons, decide_True by done. done.
Qed.

End order_properties.


Section model_scraper_properties.
Import Process.

Lemma placeholder_quiet_step brands p p' a :
quiet_step p p' → placeholder brands p a → placeholder brands p' a.
Proof.
intros Hq (m & Hm & ?). exists m. split; [|done]. by apply (models_kept _ _ Hq).
Qed.

Lemma vehicle_type_at_quiet_step brands p p' a :
quiet_step p p' → placeholder brands p a →
vehicle_type_at p' a = vehicle_type_at p a.
Proof.
intros Hq (m & Hm & _). unfold vehicle_type_at, model_to_dict.
by rewrite Hm, (models_kept _ _ Hq _ _ Hm).
Qed.

Lemma gathered_quiet_step brands p p' models seen :
quiet_step p p' → gathered brands p models seen → gathered brands p' models seen.
Proof.
intros Hq [Hp Hd Hs].
assert (vehicle_type_at p' <$> models = vehicle_type_at p <$> models) as Heq.
{ apply list_fmap_ext. intros i a Ha.
  eapply vehicle_type_at_quiet_step; [done|].
  rewrite Forall_forall in Hp. apply Hp. by eapply list_elem_of_lookup_2. }
split.
- eapply Forall_impl; [exact Hp|]. intros a. by apply placeholder_quiet_step.
- by rewrite Heq.
- intros key. rewrite Hs. split; intros (a & Ha & ->); exists a; (split; [done|]).
  + f_equal. symmetry. eapply vehicle_type_at_quiet_step; [done|].
    rewrite Forall_forall in Hp. by apply Hp.
  + f_equal. eapply vehicle_type_at_quiet_step; [done|].
    rewrite Forall_forall in Hp. by apply Hp.
Qed.

Lemma gathered_more brands brand p models seen :
gathered brands p models seen → gathered (brand :: brands) p models seen.
Proof.
intros [Hp Hd Hs]. split; [|done..].
eapply Forall_impl; [exact Hp|]. intros a (m & ? & ? & ? & ?).
exists m. repeat split; [done..|by right|done].
Qed.

Section model_facts.
Context (cfg : Config.t) (env : FipeClient.remote).

Lemma build_placeholders brand items : ∀ acc p ms,
let make := λ item, bind (Scrapers.lift (Scrapers.model_from_api_response item brand))
                         new_model in
Forall (placeholder [brand] p) acc →
(Scrapers.build items make acc p).1 = Return ms →
Forall (placeholder [brand] (Scrapers.build items make acc p).2) ms.
Proof.
cbn zeta. induction items as [|item items IH]; intros acc p ms Hacc; simpl.
- by intros [= <-].
- rewrite bind_unfold.
  destruct (bind (Scrapers.lift (Scrapers.model_from_api_response item brand))
              new_model p) as [[a|e] p1] eqn:Hmake; simpl; [|done].
  apply IH.
  unfold bind, Scrapers.lift, new_model in Hmake.
  destruct (Scrapers.model_from_api_response item brand) as [m|e] eqn:Hm;
    simpl in Hmake; [|done].
  injection Hmake as <- <-.
  apply Forall_app. split.
  + eapply Forall_impl; [exact Hacc|]. intros a (m0 & Hm0 & ?).
    exists m0. split; [|done]. simpl. by apply lookup_app_l_Some.
  + constructor; [|done]. exists m. simpl.
    split; [by apply list_lookup_middle|].
    unfold Scrapers.model_from_api_response in Hm.
    destruct item as [data|s]; [|done].
    destruct (match data !! "Value" with Some v => Py.int v | None => Some 0%Z end);
      [|done].
    injection Hm as <-. simpl. repeat split; [by left].
Qed.

Lemma extract_for_brand_placeholders period brand p ms :
(Scrapers.extract_for_brand cfg env period brand p).1 = Return ms →
Forall (placeholder [brand] (Scrapers.extract_for_brand cfg env period brand p).2) ms.
Proof.
unfold Scrapers.extract_for_brand.
destruct (VehicleType.from_string _); [|done].
rewrite bind_unfold. unfold emit, modify. rewrite bind_unfold.
match goal with |- context [try_except ?m ?h ?s] =>
  destruct (try_except m h s) as [[[response|]|e] p1] eqn:Htry end; simpl.
- rewrite bind_unfold. unfold Scrapers.lift at 1 3.
  destruct (Body.get_modelos response) as [raw_models|e]; simpl; [|done].
  by apply build_placeholders.
- by intros [= <-].
- done.
Qed.

Lemma keep_new_gathered brands p : ∀ brand_models models seen,
Forall (placeholder brands p) brand_models →
gathered brands p models seen →
∃ kept, ModelScraper.keep_new brand_models models seen p = (Return kept, p)
        ∧ gathered brands p kept.1 kept.2.
Proof.
induction brand_models as [|a rest IH]; intros models seen Hbm Hg; simpl.
- by exists (models, seen).
- apply Forall_cons in Hbm as [Ha Hrest].
  pose proof Ha as (m & Hm & Hcode & Hb & Hvt).
  rewrite bind_unfold. unfold get_model. rewrite Hm, Hcode.
  assert (vehicle_type_at p a = Model.vehicle_type m) as Hat.
  { unfold vehicle_type_at, model_to_dict. by rewrite Hm. }
  destruct (decide (("", Model.vehicle_type m) ∈ seen)) as [Hin|Hnew].
  + by apply IH.
  + apply IH; [done|]. destruct Hg as [Hp Hd Hs]. split.
    * apply Forall_app. split; [done|]. by constructor.
    * rewrite fmap_app. simpl. apply NoDup_app. split; [done|]. split.
      -- intros vt Hvt1 Hvt2. apply list_elem_of_singleton in Hvt2 as ->.
         apply list_elem_of_fmap in Hvt1 as (a' & Heq & Ha').
         apply Hnew, Hs. exists a'. split; [done|]. by rewrite <- Heq, Hat.
      -- apply NoDup_singleton.
    * intros key. rewrite elem_of_union, elem_of_singleton, Hs. split.
      -- intros [->|(a' & Ha' & ->)].
         ++ exists a. split; [apply elem_of_app; right; by left | by rewrite Hat].
         ++ exists a'. split; [apply elem_of_app; by left | done].
      -- intros (a' & Ha' & ->). apply elem_of_app in Ha' as [Ha'|Ha'].
         ++ right. by exists a'.
         ++ apply list_elem_of_singleton in Ha' as ->. left. by rewrite Hat.
Qed.

Lemma placeholder_among brands brand p a :
brand ∈ brands → placeholder [brand] p a → placeholder brands p a.
Proof.
intros Hin (m & Hm & Hc & Hb & Hvt). exists m. repeat split; [done..| |done].
apply list_elem_of_singleton in Hb. by rewrite Hb.
Qed.

Lemma for_brands_gathered all period : ∀ bs idx total ms0 seen p ms,
(∀ b, b ∈ bs → b ∈ all) →
gathered all p ms0 seen →
(ModelScraper.for_brands cfg env period bs idx total ms0 seen p).1 = Return ms →
Forall (placeholder all
          (ModelScraper.for_brands cfg env period bs idx total ms0 seen p).2) ms
∧ NoDup (vehicle_type_at
           (ModelScraper.for_brands cfg env period bs idx total ms0 seen p).2 <$> ms).
Proof.
induction bs as [|brand rest IH]; intros idx total ms0 seen p ms Hall Hg;
  cbn [ModelScraper.for_brands].
- intros [= <-]. by destruct Hg.
- rewrite bind_unfold.
  pose proof (quiet_extract_for_brand cfg env period brand p) as Hq.
  pose proof (extract_for_brand_placeholders period brand p) as Hnew.
  destruct (Scrapers.extract_for_brand cfg env period brand p) as [[bm|e] p1];
    cbn [fst snd] in *; [|done].
  specialize (Hnew bm eq_refl).
  destruct (keep_new_gathered all p1 bm ms0 seen) as (kept & Hkeep & Hg1).
  { eapply Forall_impl; [exact Hnew|]. intros a. apply placeholder_among.
    apply Hall. by left. }
  { by eapply gathered_quiet_step. }
  rewrite bind_unfold, Hkeep. rewrite bind_unfold.
  assert (∃ p2, (if (idx mod 5 =? 0)%nat
                 then BaseScraper._log_progress "ModelScraper" idx total
                        "modelos por marca"
                 else ret tt) p1 = (Return tt, p2) ∧ quiet_step p1 p2)
    as (p2 & -> & Hq2).
  { destruct (idx mod 5 =? 0)%nat.
    - eexists. split; [reflexivity|].
      apply (quiet_emit (Py.Log Py.INFO "ModelScraper"
                           ("Progresso " +:+ "modelos por marca") None) p1).
    - eexists. split; [reflexivity | apply quiet_step_refl]. }
  apply IH.
  + intros b Hb. apply Hall. by right.
  + by eapply gathered_quiet_step.
Qed.

End model_facts.

(** X23.  Every model [ModelScraper.extract] returns still has the
  placeholder fipe_code: it is a model of one of the brands given, of
  the vehicle type of its brand, with an empty fipe_code.  Its
  deduplication key is therefore ("", vehicle_type), and no two of the
  models returned have the same vehicle type: whatever the service
  lists, at most one model is kept for each vehicle type of the
  brands. *)
Theorem model_extract_keeps_one_per_vehicle_type (cfg : Config.t)
  (env : FipeClient.remote) (period : ReferencePeriod.t) (brands : list Brand.t)
  (p : Process.t) (models : list nat) :
(ModelScraper.extract cfg env period brands p).1 = Return models →
let p' := (ModelScraper.extract cfg env period brands p).2 in
Forall (placeholder brands p') models
∧ NoDup (vehicle_type_at p' <$> models)
∧ (length models ≤ length brands)%nat.
Proof.
cbn zeta. unfold ModelScraper.extract, emit.
rewrite !bind_unfold. unfold modify at 1 3 5. cbn [fst snd].
set (p0 := Process.mk _ _ _ _).
pose proof (for_brands_gathered cfg env brands period brands 1 (length brands) [] ∅ p0)
  as Hloop.
rewrite !bind_unfold.
destruct (ModelScraper.for_brands cfg env period brands 1 (length brands) [] ∅ p0)
  as [[ms|e] p1]; simpl in *; [|done].
intros [= <-].
destruct (Hloop ms) as [Hp' Hd']; [done| |done|].
{ split; [constructor | constructor|].
  intros key. split; [set_solver|]. intros (a & Ha & _). inversion Ha. }
split; [exact Hp'|]. split; [exact Hd'|].
rewrite <- (length_fmap (vehicle_type_at p1) ms),
        <- (length_fmap Brand.vehicle_type brands).
apply submseteq_length, NoDup_submseteq; [done|].
intros vt Hvt. apply list_elem_of_fmap in Hvt as (a & -> & Ha).
rewrite Forall_forall in Hp'. destruct (Hp' a Ha) as (m & Hm & _ & Hb & Hvt).
apply list_elem_of_fmap. exists (Model.brand m). split; [|done].
unfold vehicle_type_at, model_to_dict. by rewrite Hm.
Qed.

Lemma model_extract_keeps_one_per_vehicle_type_witness :
let run := ModelScraper.extract Config.defaults two_models_service
             (ReferencePeriod.mk "01/2024" 320)
             [Brand.mk "FIAT" 21 "car" None; Brand.mk "FORD" 22 "car" None]
             (Process.init 0) in
run.1 = Return [0%nat]
∧ length (model_store run.2) = 4%nat
∧ NoDup (vehicle_type_at run.2 <$> [0%nat]).
Proof.
cbn zeta. split; [vm_compute; reflexivity|]. split; [vm_compute; reflexivity|].
destruct (model_extract_keeps_one_per_vehicle_type Config.defaults two_models_service
            (ReferencePeriod.mk "01/2024" 320)
            [Brand.mk "FIAT" 21 "car" None; Brand.mk "FORD" 22 "car" None]
            (Process.init 0) [0%nat]) as (_ & Hd & _).
- vm_compute. reflexivity.
- exact Hd.
Defined.

Section fipe_code_facts.
Context (cfg : Config.t) (env : FipeClient.remote).
Import FipeClient.





End fipe_code_facts.


End model_scraper_properties.


Section value_scraper_properties.
Import Process ValueScraper.

Lemma tokens_kept p p1 (bound : nat) (ys : list nat) :
(∀ a, (a < bound)%nat → year_store p1 !! a = year_store p !! a) →
Forall (λ a, (a < bound)%nat) ys →
authentication_at p1 <$> ys = authentication_at p <$> ys.
Proof.
intros Hsame Hys. apply list_fmap_ext. intros i a Ha.
unfold authentication_at, year_model_to_dict.
rewrite Hsame; [by destruct (year_store p !! a)|].
rewrite Forall_forall in Hys. apply Hys. by eapply list_elem_of_lookup_2.
Qed.

Lemma paired_up_kept period base p p1 (b b' : nat) acc :
(∀ a, (a < b)%nat → year_store p1 !! a = year_store p !! a) →
(b ≤ b')%nat →
paired_up period base p b acc → paired_up period base p1 b' acc.
Proof.
intros Hsame Hle [Hv Hp Hb Hf Ht Hd Hsy Hsv].
assert (authentication_at p1 <$> all_year_models acc
        = authentication_at p <$> all_year_models acc) as Heq.
{ apply (tokens_kept p p1 b); [done|].
  eapply Forall_impl; [exact Hf|]. intros a ?. simpl in *. lia. }
split; rewrite ?Heq; try done.
- lia.
- eapply Forall_impl; [exact Hf|]. intros a ?. simpl in *. lia.
Qed.

Section value_loop_facts.
Context (cfg : Config.t) (env : FipeClient.remote).

(** What a call of [extract_fipe_value] does to the year-models. *)
Lemma extract_fipe_value_effect period y p :
let call := Scrapers.extract_fipe_value cfg env period y p in
((∀ v, call.1 ≠ Return (Some v)) ∧ year_store call.2 = year_store p)
∨ (∃ yo v authentication,
     year_store p !! y = Some yo
     ∧ call.1 = Return (Some v)
     ∧ FipeValueObj.year_model v = y
     ∧ FipeValueObj.reference_period v = ReferencePeriod.period period
     ∧ year_store call.2
       = <[y := with_authentication authentication yo]> (year_store p)).
Proof.
cbn zeta.
destruct (year_store p !! y) as [yo|] eqn:Hy.
2: { left. unfold Scrapers.extract_fipe_value. rewrite bind_unfold.
     unfold get_year_model. rewrite Hy. by split. }
destruct (model_store p !! YearModelObj.model yo) as [m|] eqn:Hm.
2: { left. unfold Scrapers.extract_fipe_value. rewrite bind_unfold.
     unfold get_year_model. rewrite Hy. rewrite bind_unfold.
     unfold get_model. rewrite Hm. by split. }
destruct (VehicleType.from_string (Model.vehicle_type m)) as [code|] eqn:Hvt.
2: { left. unfold Scrapers.extract_fipe_value. rewrite bind_unfold.
     unfold get_year_model. rewrite Hy. rewrite bind_unfold.
     unfold get_model. rewrite Hm, Hvt. by split. }
rewrite (extract_fipe_value_run cfg env period y p yo m code Hy Hm Hvt).
destruct (value_lookup cfg env period code m yo p) as [[response|e] c'].
- destruct (is_dict response).
  + right. eexists yo, _, _. by repeat split.
  + left. by split.
- left. by split.
Qed.

(** One pass of the inner loop of [extract], on the year-model at the
  bound. *)
Lemma for_year_model_paired period base y p acc acc' p' :
paired_up (ReferencePeriod.period period) base p y acc →
for_year_model cfg env period y acc p = (Return acc', p') →
paired_up (ReferencePeriod.period period) base p' (S y) acc'
∧ length (year_store p') = length (year_store p).
Proof.
intros Hinv Hrun. unfold for_year_model in Hrun. rewrite bind_unfold in Hrun.
destruct (extract_fipe_value_effect period y p)
  as [[Hno Hys]|(yo & v & auth & Hy & Hcall & Hv & Hper & Hys)]; cbn zeta in *;
  destruct (Scrapers.extract_fipe_value cfg env period y p) as [r p1];
  cbn [fst snd] in *.
- destruct r as [[v|]|e]; [by destruct (Hno v) | | done].
  injection Hrun as <- <-. split; [|by rewrite Hys].
  apply (paired_up_kept _ _ p p1 y); [by rewrite Hys | lia | done].
- subst r. pose proof (lookup_lt_Some _ _ _ Hy) as Hlt.
  rewrite bind_unfold in Hrun. unfold get_year_model in Hrun at 1.
  rewrite Hys, list_lookup_insert_eq in Hrun by done.
  cbn zeta in Hrun. rewrite bind_unfold in Hrun. unfold get_year_model in Hrun.
  rewrite Hv, Hys, list_lookup_insert_eq in Hrun by done.
  cbn [with_authentication YearModelObj.authentication fst snd] in Hrun.
  rewrite Hper in Hrun.
  assert (length (year_store p1) = length (year_store p)) as Hlen
    by (by rewrite Hys, length_insert).
  assert (paired_up (ReferencePeriod.period period) base p1 (S y) acc) as Hkept.
  { apply (paired_up_kept _ _ p p1 y); [|lia|done].
    intros a Ha. rewrite Hys. apply list_lookup_insert_ne. lia. }
  assert (authentication_at p1 y = auth) as Hat.
  { unfold authentication_at, year_model_to_dict.
    by rewrite Hys, list_lookup_insert_eq. }
  pose proof (pu_bound _ _ _ _ _ Hinv) as Hbase.
  pose proof Hkept as [Hvs Hps Hb Hf Ht Hd Hsy Hsv].
  destruct (truthy auth) eqn:Htruthy; simpl in Hrun.
  2: { injection Hrun as <- <-. done. }
  destruct (decide (auth ∈ seen_year_models acc)) as [Hin|Hnew].
  { rewrite (bool_decide_eq_true_2 _ Hin) in Hrun. simpl in Hrun.
    rewrite bool_decide_eq_true_2 in Hrun by (by apply Hsv).
    simpl in Hrun. injection Hrun as <- <-. done. }
  rewrite (bool_decide_eq_false_2 _ Hnew) in Hrun. simpl in Hrun.
  rewrite bool_decide_eq_false_2 in Hrun by (rewrite Hsv; by intros [_ ?]).
  simpl in Hrun. injection Hrun as <- <-. split; [|done].
  split; simpl; rewrite ?fmap_app; simpl; rewrite ?Hat.
  + by rewrite Hvs, Hv.
  + apply Forall_app. split; [done|]. by constructor.
  + done.
  + apply Forall_app. split; [done|]. constructor; [lia|done].
  + apply Forall_app. split; [done|]. by constructor.
  + apply NoDup_app. split; [done|]. split; [|apply NoDup_singleton].
    intros k Hk1 Hk2. apply list_elem_of_singleton in Hk2 as ->.
    by apply Hnew, Hsy.
  + intros k. rewrite elem_of_union, elem_of_singleton, elem_of_app,
      list_elem_of_singleton, Hsy. tauto.
  + intros k r. rewrite !elem_of_union, !elem_of_singleton, Hsv.
    split.
    * intros [[= -> ->]|[-> ?]]; [by split; [|left] | by split; [|right]].
    * intros [-> [->|?]]; [by left | by right].
Qed.

Lemma for_year_models_paired period base : ∀ (k b : nat) p acc acc' p',
paired_up (ReferencePeriod.period period) base p b acc →
for_year_models cfg env period (seq b k) acc p = (Return acc', p') →
paired_up (ReferencePeriod.period period) base p' (b + k) acc'
∧ length (year_store p') = length (year_store p).
Proof.
induction k as [|k IH]; intros b p acc acc' p' Hinv; simpl.
- intros [= <- <-]. split; [|done].
  apply (paired_up_kept _ _ p p b); [done | lia | done].
- rewrite bind_unfold.
  destruct (for_year_model cfg env period b acc p) as [[acc1|e] p1] eqn:Hstep;
    [|done].
  destruct (for_year_model_paired period base b p acc acc1 p1 Hinv Hstep)
    as [Hinv1 Hlen1].
  intros Hrest. destruct (IH (S b) p1 acc1 acc' p' Hinv1 Hrest) as [Hinv2 Hlen2].
  split; [|congruence].
  by replace (b + S k)%nat with (S b + k)%nat by lia.
Qed.

Lemma build_year_models_allocates a items : ∀ acc p ys p',
Scrapers.build items (make_year_model a) acc p = (Return ys, p') →
∃ new, year_store p' = year_store p ++ new
       ∧ ys = acc ++ seq (length (year_store p)) (length new).
Proof.
induction items as [|item items IH]; intros acc p ys p'; simpl.
- intros [= <- <-]. exists []. by rewrite !app_nil_r.
- rewrite bind_unfold.
  destruct (make_year_model a item p) as [[y|e] p1] eqn:Hmake; [|done].
  unfold make_year_model, bind, Scrapers.lift, new_year_model in Hmake.
  destruct (Scrapers.year_model_from_api_response item a) as [yo|e];
    simpl in Hmake; [|done].
  injection Hmake as <- <-.
  intros Hrest. apply IH in Hrest as (new & Hstore & ->). simpl in *.
  exists (yo :: new). split; [by rewrite Hstore, <- app_assoc|].
  rewrite length_app. simpl. rewrite <- app_assoc. simpl.
  by replace (length (year_store p) + 1)%nat with (S (length (year_store p))) by lia.
Qed.

Lemma extract_year_models_allocates period a p ys p' :
Scrapers.extract_year_models cfg env period a p = (Return ys, p') →
∃ new, year_store p' = year_store p ++ new
       ∧ ys = seq (length (year_store p)) (length new).
Proof.
unfold Scrapers.extract_year_models. rewrite bind_unfold. unfold get_model.
destruct (model_store p !! a) as [m|]; [|done].
destruct (VehicleType.from_string _); [|done].
rewrite bind_unfold. unfold emit, modify. rewrite bind_unfold.
match goal with |- context [try_except ?m ?h ?s] =>
  destruct (try_except m h s) as [[[raw_years|]|e] p1] eqn:Htry end.
3: done.
all: assert (year_store p1 = year_store p) as Hsame
  by (unfold try_except, bind, with_client, ret in Htry; simpl in Htry;
      destruct (FipeClient.get_year_models _ _ _ _ _ _ _) as [[r|e] c] in Htry;
      simpl in Htry; by inversion Htry).
- intros Hbuild. apply build_year_models_allocates in Hbuild as (new & Hstore & ->).
  exists new. by rewrite Hstore, Hsame.
- intros [= <- <-]. exists []. by rewrite Hsame, app_nil_r.
Qed.

Lemma for_models_paired period base : ∀ ms idx total p acc acc' p',
paired_up (ReferencePeriod.period period) base p (length (year_store p)) acc →
for_models cfg env period ms idx total acc p = (Return acc', p') →
paired_up (ReferencePeriod.period period) base p' (length (year_store p')) acc'.
Proof.
induction ms as [|a ms IH]; intros idx total p acc acc' p' Hinv;
  cbn [for_models].
- by intros [= <- <-].
- rewrite bind_unfold.
  destruct (Scrapers.extract_year_models cfg env period a p) as [[ys|e] p1] eqn:Hys;
    [|done].
  apply extract_year_models_allocates in Hys as (new & Hstore & ->).
  assert (paired_up (ReferencePeriod.period period) base p1
            (length (year_store p)) acc) as Hinv1.
  { apply (paired_up_kept _ _ p p1 (length (year_store p))); [|lia|done].
    intros b Hb. rewrite Hstore. by apply lookup_app_l. }
  rewrite bind_unfold.
  destruct (for_year_models cfg env period _ acc p1) as [[acc2|e] p2] eqn:Hloop;
    [|done].
  apply (for_year_models_paired period base) in Hloop as [Hinv2 Hlen2]; [|done].
  assert (length (year_store p) + length new = length (year_store p2))%nat as Hlen
    by (by rewrite Hlen2, Hstore, length_app).
  rewrite Hlen in Hinv2.
  rewrite bind_unfold.
  assert (∃ p3, (if (idx mod 10 =? 0)%nat
                 then BaseScraper._log_progress "ValueScraper" idx total "valores FIPE"
                 else ret tt) p2 = (Return tt, p3)
                ∧ year_store p3 = year_store p2) as (p3 & -> & Hsame).
  { destruct (idx mod 10 =? 0)%nat; by eexists. }
  apply IH. rewrite Hsame.
  apply (paired_up_kept _ _ p2 p3 (length (year_store p2))); [|lia|done].
  intros b _. by rewrite Hsame.
Qed.

Lemma extract_well_paired period ms p returned p' :
extract cfg env period ms p = (Return returned, p') →
well_paired period p p' returned.
Proof.
unfold extract. rewrite bind_unfold. unfold emit at 1, modify at 1.
cbn [fst snd]. rewrite bind_unfold.
set (p0 := Process.mk _ _ _ _).
destruct (for_models cfg env period ms 1 (length ms) _ p0) as [[acc|e] p1] eqn:Hloop;
  [|done].
apply (for_models_paired period (length (year_store p))) in Hloop.
2: { split; simpl; [done | constructor | done | constructor | constructor
                    | constructor | |].
     - intros k. split; [set_solver | intros Hk; inversion Hk].
     - intros k r. split; [set_solver | intros [_ Hk]; set_solver]. }
intros [= <- <-]. destruct Hloop as [Hv Hp Hb Hf Ht Hd Hsy Hsv].
unfold well_paired. simpl.
split; [done|]. split; [done|]. split; [done|]. split; [|done].
by rewrite Forall_fmap in Ht.
Qed.

Lemma of_brand_reads brand : ∀ ms p r p',
of_brand brand ms p = (r, p') → p' = p.
Proof.
induction ms as [|a ms IH]; intros p r p'; simpl.
- by intros [= _ <-].
- rewrite bind_unfold. unfold get_model.
  destruct (model_store p !! a) as [m|]; [|by intros [= _ <-]].
  rewrite bind_unfold.
  destruct (of_brand brand ms p) as [[bm|e] p1] eqn:Hrest;
    apply IH in Hrest as ->; by intros [= _ <-].
Qed.

End value_loop_facts.

(** X25.  What [ValueScraper.extract] and [extract_for_brand] return is
  paired: the values are those of the year-models, one for one and in
  order, all with the reference period asked for; every year-model
  returned was created by the call, and the authentications of the
  year-models returned, as they are when the call returns, are not
  empty and differ from one another. *)
Theorem value_extract_pairs_values_with_year_models (cfg : Config.t)
  (env : FipeClient.remote) (period : ReferencePeriod.t) (brand : Brand.t)
  (addresses : list nat) (p : Process.t)
  (returned : list nat * list FipeValueObj.t) :
((extract cfg env period addresses p).1 = Return returned →
 well_paired period p (extract cfg env period addresses p).2 returned)
∧ ((extract_for_brand cfg env period brand addresses p).1 = Return returned →
   well_paired period p (extract_for_brand cfg env period brand addresses p).2
     returned).
Proof.
split.
- destruct (extract cfg env period addresses p) as [r p'] eqn:Hrun. simpl.
  intros ->. by eapply extract_well_paired.
- unfold extract_for_brand. rewrite bind_unfold.
  destruct (of_brand brand addresses p) as [[bm|e] p1] eqn:Hread; [|done].
  apply of_brand_reads in Hread as ->.
  destruct (extract cfg env period bm p) as [r p'] eqn:Hrun. simpl.
  intros ->. by eapply extract_well_paired.
Qed.

Lemma value_extract_pairs_values_with_year_models_witness :
let period := ReferencePeriod.mk "01/2024" 320 in
let run := extract Config.defaults repeating_service period [0%nat] holding_uno in
∃ value,
  run.1 = Return ([1%nat], [value])
  ∧ length (year_store run.2) = 3%nat
  ∧ well_paired period holding_uno run.2 ([1%nat], [value]).
Proof.
cbn zeta. eexists. split; [vm_compute; reflexivity|].
split; [vm_compute; reflexivity|].
apply (value_extract_pairs_values_with_year_models Config.defaults repeating_service
         (ReferencePeriod.mk "01/2024" 320) (Brand.mk "FIAT" 21 "car" None)
         [0%nat] holding_uno).
vm_compute. reflexivity.
Defined.

End value_scraper_properties.


Section fragment_properties.
Import Process.

Lemma consistent_data brand p p' :
model_store p' = model_store p → year_store p' = year_store p → res p' = res p →
consistent brand p → consistent brand p'.
Proof. intros Hm Hy Hr [? ? ? ? ?]. split; by rewrite ?Hm, ?Hy, ?Hr. Qed.

Lemma consistent_new_model brand c m p :
belongs_to brand m → consistent brand p →
consistent brand (Process.mk c (model_store p ++ [m]) (year_store p) (res p)).
Proof.
intros Hm [H1 H2 H3 H4 H5]. split; simpl; rewrite ?length_app; simpl; try done.
- apply Forall_app. split; [done|]. by constructor.
- eapply Forall_impl; [exact H2|]. intros y ?. simpl in *. lia.
- eapply Forall_impl; [exact H3|]. intros a ?. simpl in *. lia.
Qed.

Lemma consistent_new_year_model brand c y p :
(YearModelObj.model y < length (model_store p))%nat → consistent brand p →
consistent brand (Process.mk c (model_store p) (year_store p ++ [y]) (res p)).
Proof.
intros Hy [H1 H2 H3 H4 H5]. split; simpl; rewrite ?length_app; simpl; try done.
- apply Forall_app. split; [done|]. by constructor.
- eapply Forall_impl; [exact H4|]. intros a ?. simpl in *. lia.
Qed.

Lemma belongs_to_backfilled brand c m :
belongs_to brand m → belongs_to brand (backfilled c m).
Proof. unfold backfilled. by destruct (_ && _). Qed.

(** The lookups of the scrapers touch the client only. *)
Lemma looked_up_data {A} (call : action FipeClient.t A) (r : Py.exn → Py.log_record) p :
let run := try_except (x <~ with_client call ;; ret (Some x))
             (λ e, emit (r e) ;;; ret None) p in
model_store run.2 = model_store p ∧ year_store run.2 = year_store p
∧ res run.2 = res p.
Proof.
cbn zeta. unfold try_except, bind, with_client, emit, modify, ret.
by destruct (call (client p)) as [[x|e] c].
Qed.

Section worker_steps.
Context (cfg : Config.t) (env : FipeClient.remote).

Lemma build_models_consistent brand items : ∀ acc p,
consistent brand p →
consistent brand
  (Scrapers.build items
     (λ item, m <~ Scrapers.lift (Scrapers.model_from_api_response item brand) ;;
              new_model m) acc p).2.
Proof.
induction items as [|item items IH]; intros acc p Hc; simpl; [done|].
rewrite bind_unfold. unfold bind at 1, Scrapers.lift at 1.
destruct (Scrapers.model_from_api_response item brand) as [m|e] eqn:Hm; simpl; [|done].
apply IH. apply consistent_new_model; [|done].
unfold Scrapers.model_from_api_response in Hm.
destruct item as [data|s]; [|done].
destruct (match data !! "Value" with Some v => Py.int v | None => Some 0%Z end);
  [|done].
by injection Hm as <-.
Qed.

Lemma extract_for_brand_consistent period brand p :
consistent brand p →
consistent brand (Scrapers.extract_for_brand cfg env period brand p).2.
Proof.
intros Hc. unfold Scrapers.extract_for_brand.
destruct (VehicleType.from_string _) as [code|]; [|done].
rewrite bind_unfold. unfold emit at 1, modify at 1. rewrite bind_unfold.
match goal with |- context [try_except ?m ?h ?s] =>
  pose proof (looked_up_data
                (FipeClient.get_models cfg env (ReferencePeriod.code period) code
                   (Brand.code brand))
                (λ e, Py.Log Py.ERROR "ModelScraper"
                        "Erro ao extrair modelos da marca" (Some e)) s)
    as (Hm & Hy & Hr);
  cbn zeta in Hm, Hy, Hr;
  destruct (try_except m h s) as [[[response|]|e] p1]
end; cbn [fst snd] in *.
all: assert (consistent brand p1) as Hc1 by (by apply (consistent_data brand p p1)).
- rewrite bind_unfold. unfold Scrapers.lift at 1.
  destruct (Body.get_modelos response) as [raw_models|e]; [|done].
  by apply build_models_consistent.
- done.
- done.
Qed.

Lemma build_year_models_consistent brand a items : ∀ acc p,
(a < length (model_store p))%nat → consistent brand p →
consistent brand
  (Scrapers.build items
     (λ item, y <~ Scrapers.lift (Scrapers.year_model_from_api_response item a) ;;
              new_year_model y) acc p).2.
Proof.
induction items as [|item items IH]; intros acc p Ha Hc; simpl; [done|].
rewrite bind_unfold. unfold bind at 1, Scrapers.lift at 1.
destruct (Scrapers.year_model_from_api_response item a) as [y|e] eqn:Hy; simpl;
  [|done].
apply IH; [done|]. apply consistent_new_year_model; [|done].
destruct item as [data|s]; [|done]. by injection Hy as <-.
Qed.

Lemma extract_year_models_consistent period brand a p :
consistent brand p →
consistent brand (Scrapers.extract_year_models cfg env period a p).2.
Proof.
intros Hc. unfold Scrapers.extract_year_models. rewrite bind_unfold.
unfold get_model. destruct (model_store p !! a) as [m|] eqn:Ha; [|done].
apply lookup_lt_Some in Ha.
destruct (VehicleType.from_string _) as [code|]; [|done].
rewrite bind_unfold. unfold emit at 1, modify at 1. rewrite bind_unfold.
match goal with |- context [try_except ?f ?h ?s] =>
  pose proof (looked_up_data
                (FipeClient.get_year_models cfg env (ReferencePeriod.code period) code
                   (Brand.code (Model.brand m)) (Model.code m))
                (λ e, Py.Log Py.ERROR "ValueScraper"
                        "Erro ao extrair anos-modelo" (Some e)) s)
    as (Hm & Hy & Hr);
  cbn zeta in Hm, Hy, Hr;
  destruct (try_except f h s) as [[[raw_years|]|e] p1]
end; cbn [fst snd] in *.
all: assert (consistent brand p1) as Hc1 by (by apply (consistent_data brand p p1)).
- apply build_year_models_consistent; [by rewrite Hm | done].
- done.
- done.
Qed.

(** One pass of the inner loop of the worker. *)
Lemma for_year_model_consistent period brand a y p :
consistent brand p →
consistent brand (Orchestrator.for_year_model cfg env period a y p).2.
Proof.
intros Hc. unfold Orchestrator.for_year_model. rewrite bind_unfold.
destruct (extract_fipe_value_cases cfg env period y p)
  as [(Hno & Hys & Hms & Hres)
     |(yo & m & v & auth & Hy & Hm & Hcall & Hv & Hys & Hms & Hres)];
  cbn zeta in *;
  destruct (Scrapers.extract_fipe_value cfg env period y p) as [r p1];
  cbn [fst snd] in *.
- assert (consistent brand p1) as Hc1 by (by apply (consistent_data brand p p1)).
  destruct r as [[v|]|e]; [by destruct (Hno v) | done | done].
- subst r.
  assert (consistent brand p1) as [H1 H2 H3 H4 H5].
  { destruct Hc as [H1 H2 H3 H4 H5].
    split; rewrite ?Hys, ?Hms, ?Hres, ?length_insert; try done.
    - apply Forall_insert; [done|]. apply belongs_to_backfilled.
      by apply (Forall_lookup_1 _ _ _ _ H1 Hm).
    - apply Forall_insert; [done|]. simpl.
      by apply (Forall_lookup_1 _ _ _ _ H2 Hy). }
  assert (y < length (year_store p1))%nat as Hlt.
  { rewrite Hys, length_insert. by eapply lookup_lt_Some. }
  unfold bind, append_year_model, append_fipe_value, set_res, modify, get_model.
  cbn [fst snd model_store year_store res].
  assert (consistent brand
            (Process.mk (client p1) (model_store p1) (year_store p1)
               (mk_result (brands (res p1)) (models (res p1))
                  (year_models (res p1) ++ [y])
                  (fipe_values (res p1) ++ [v])))) as Hc2.
  { split; simpl; try done.
    - apply Forall_app. split; [done|]. by constructor.
    - rewrite fmap_app, H5. simpl. by rewrite Hv. }
  destruct (model_store p1 !! a) as [ma|] eqn:Hma; [|done].
  destruct (truthy (FipeValueObj.fipe_code v) && negb (truthy (Model.fipe_code ma)));
    [|done].
  unfold set_fipe_code, modify. cbn [fst snd model_store year_store res client].
  destruct Hc2 as [G1 G2 G3 G4 G5]. simpl in *.
  split; simpl; rewrite ?length_alter; try done.
  apply Forall_alter; [done|]. intros x _ Hx. exact Hx.
Qed.

Lemma for_each_consistent {A} brand (body : A → action Process.t unit) xs :
(∀ x p, consistent brand p → consistent brand (body x p).2) →
∀ p, consistent brand p → consistent brand (for_each xs body p).2.
Proof.
intros Hbody. induction xs as [|x xs IH]; intros p Hc; simpl; [done|].
rewrite bind_unfold. specialize (Hbody x p Hc).
destruct (body x p) as [[[]|e] p1]; simpl in *; [by apply IH | done].
Qed.

Lemma for_model_consistent period brand a p :
consistent brand p →
consistent brand (Orchestrator.for_model cfg env period a p).2.
Proof.
intros Hc. unfold Orchestrator.for_model. rewrite bind_unfold.
pose proof (extract_year_models_consistent period brand a p Hc) as Hc1.
destruct (Scrapers.extract_year_models cfg env period a p) as [[ys|e] p1];
  cbn [fst snd] in *; [|done].
rewrite bind_unfold.
pose proof (for_each_consistent brand (Orchestrator.for_year_model cfg env period a) ys
              (λ y q, for_year_model_consistent period brand a y q) p1 Hc1) as Hc2.
destruct (for_each ys _ p1) as [[[]|e] p2]; cbn [fst snd] in *; [|done].
rewrite bind_unfold. unfold get_model.
destruct (model_store p2 !! a) as [m|] eqn:Hm; [|done].
destruct (truthy (Model.fipe_code m)); [|done].
apply lookup_lt_Some in Hm. destruct Hc2 as [H1 H2 H3 H4 H5].
split; simpl; try done.
apply Forall_app. split; [done|]. by constructor.
Qed.

Lemma extraction_consistent period brand p :
consistent brand p →
consistent brand (Orchestrator.extraction cfg env period brand p).2.
Proof.
intros Hc. unfold Orchestrator.extraction. rewrite bind_unfold.
pose proof (extract_for_brand_consistent period brand p Hc) as Hc1.
destruct (Scrapers.extract_for_brand cfg env period brand p) as [[ms|e] p1];
  cbn [fst snd] in *; [|done].
rewrite bind_unfold.
pose proof (for_each_consistent brand (Orchestrator.for_model cfg env period) ms
              (λ a q, for_model_consistent period brand a q) p1 Hc1) as Hc2.
destruct (for_each ms _ p1) as [[[]|e] p2]; cbn [fst snd] in *; [|done].
destruct Hc2 as [H1 H2 H3 H4 H5]. by split.
Qed.

Lemma consistent_init brand now : consistent brand (Process.init now).
Proof. by split; simpl. Qed.

(** The process a worker ends with. *)
Lemma worker_consistent now task :
∃ p, (Orchestrator._extract_worker cfg env now task).1 = to_dict p
     ∧ consistent (Orchestrator.brand task) p
     ∧ (brands (res p) = [] ∨ brands (res p) = [Orchestrator.brand task]).
Proof.
rewrite _extract_worker_extraction. eexists. split; [done|]. split.
- apply extraction_consistent, consistent_init.
- destruct (extraction_step cfg env (Orchestrator.period task) (Orchestrator.brand task)
              (Process.init now) (resolved_init now)) as [_ Hb].
  rewrite Hb. destruct (Orchestrator.extraction _ _ _ _ _).1; [by right | by left].
Qed.

End worker_steps.

(** X26.  In the dictionary a worker returns, whether its extraction
  ran to the end or was cut short by an exception, the values and the
  year-models correspond one to one and in order: there are as many of
  the one as of the other, and the year-model nested in the i-th value
  is the i-th year-model. *)
Theorem worker_pairs_values_with_year_models (cfg : Config.t)
  (env : FipeClient.remote) (now : Z) (task : Orchestrator.ExtractionTask) :
let fragment := (Orchestrator._extract_worker cfg env now task).1 in
FipeValue.year_model <$> ExtractionResult.fipe_values fragment
= ExtractionResult.year_models fragment
∧ length (ExtractionResult.fipe_values fragment)
  = length (ExtractionResult.year_models fragment).
Proof.
cbn zeta. destruct (worker_consistent cfg env now task) as (p & -> & Hc & _).
assert (FipeValue.year_model <$> ExtractionResult.fipe_values (to_dict p)
        = ExtractionResult.year_models (to_dict p)) as Heq.
{ unfold to_dict. simpl. rewrite <- (values_paired _ _ Hc), <- !list_fmap_compose.
  by apply list_fmap_ext. }
split; [done|]. by rewrite <- Heq, length_fmap.
Qed.

(** X27.  The dictionary a worker returns holds entities of the brand
  of its task only: every model in it, the model nested in every
  year-model and the model nested in the year-model of every value
  carries the brand of the task and the vehicle type of that brand; it
  lists no period, and no brand but, when the extraction ran to its
  end, that of the task. *)
Theorem worker_fragment_is_of_its_brand (cfg : Config.t)
  (env : FipeClient.remote) (now : Z) (task : Orchestrator.ExtractionTask) :
let fragment := (Orchestrator._extract_worker cfg env now task).1 in
let of_task := belongs_to (Orchestrator.brand task) in
Forall of_task (ExtractionResult.models fragment)
∧ Forall (λ y, of_task (YearModel.model y)) (ExtractionResult.year_models fragment)
∧ Forall (λ v, of_task (YearModel.model (FipeValue.year_model v)))
    (ExtractionResult.fipe_values fragment)
∧ ExtractionResult.reference_periods fragment = []
∧ (ExtractionResult.brands fragment = []
   ∨ ExtractionResult.brands fragment = [Orchestrator.brand task]).
Proof.
cbn zeta. destruct (worker_consistent cfg env now task) as (p & -> & Hc & Hb).
pose proof Hc as [H1 H2 H3 H4 H5].
assert (∀ a, (a < length (model_store p))%nat →
          belongs_to (Orchestrator.brand task) (model_to_dict p a)) as Hmodel.
{ intros a Ha. apply lookup_lt_is_Some in Ha as [m Hm].
  unfold model_to_dict. rewrite Hm. simpl.
  by apply (Forall_lookup_1 _ _ _ _ H1 Hm). }
assert (∀ b, (b < length (year_store p))%nat →
          belongs_to (Orchestrator.brand task)
            (YearModel.model (year_model_to_dict p b))) as Hyear.
{ intros b Hlt. apply lookup_lt_is_Some in Hlt as [y Hy].
  unfold year_model_to_dict. rewrite Hy. simpl. apply Hmodel.
  by apply (Forall_lookup_1 _ _ _ _ H2 Hy). }
unfold to_dict. simpl. split; [|split; [|split; [|split; [done|done]]]].
- apply Forall_fmap. eapply Forall_impl; [exact H3|]. intros a Ha. by apply Hmodel.
- apply Forall_fmap. eapply Forall_impl; [exact H4|]. intros b Hlt. by apply Hyear.
- apply Forall_fmap. rewrite <- H5 in H4. apply Forall_fmap in H4.
  eapply Forall_impl; [exact H4|]. intros v Hv. simpl in *. by apply Hyear.
Qed.

End fragment_properties.
